(** * Spherical Polyanya: a shallow embedding and its properties

    The development follows the TypeScript sources: [utils.ts], [Vector],
    [Point], [Vertex], [Polygon], [Mesh], [PriorityQueue], [SearchNode]
    and [SearchInstance].

    Numbers.  A JavaScript [number] is modelled by an exact real: rounding
    and [NaN] are outside the model, so every [isNaN] assertion of the
    sources holds trivially and is left out.  [Math.sin], [Math.cos],
    [Math.asin], [Math.acos] and [Math.sqrt] are the functions of the
    standard library of reals; [Math.atan2] and [Math.round] are written
    out below.

    Errors.  A failed [assert], a [throw] and a [TypeError] on [undefined]
    are the [Throw] outcome of the [result] type.

    Object references.  Polygons refer to their neighbours and vertices to
    their polygons; these references are identifiers resolved in the mesh,
    which is immutable once it is read. *)

From Stdlib Require Import String.
From Stdlib Require Import Reals Lra Lia ZArith Bool List Permutation.
Import ListNotations.
Open Scope string_scope.
Open Scope list_scope.

Open Scope R_scope.

(** ** Outcomes of computations that may throw *)

Inductive result (A : Type) : Type :=
| Ok (a : A)
| Throw (msg : string).

Arguments Ok {A} a.
Arguments Throw {A} msg.

Definition bind {A B : Type} (m : result A) (k : A -> result B) : result B :=
  match m with
  | Ok a => k a
  | Throw msg => Throw msg
  end.

Notation "x <- m ;; k" := (bind m (fun x => k))
  (at level 61, m at next level, right associativity).

(** [assert(cond, msg)] of [@std/assert]. *)
Definition assert (cond : bool) (msg : string) : result unit :=
  if cond then Ok tt else Throw msg.

(** ** Comparisons on numbers, as booleans *)

Definition num_lt (a b : R) : bool := if Rlt_dec a b then true else false.
Definition num_le (a b : R) : bool := if Rle_dec a b then true else false.
Definition num_gt (a b : R) : bool := num_lt b a.
Definition num_ge (a b : R) : bool := num_le b a.
Definition num_eq (a b : R) : bool := if Req_dec_T a b then true else false.

(** [Math.atan2(y, x)] on reals.  The reals have one zero: on the negative
    [x] axis, where the source returns [PI] for [y = +0] and [-PI] for
    [y = -0], the value here is [PI]. *)
Definition Math_atan2 (y x : R) : R :=
  if Rlt_dec 0 x then atan (y / x)
  else if Rlt_dec x 0 then
         (if Rle_dec 0 y then atan (y / x) + PI else atan (y / x) - PI)
       else if Rlt_dec 0 y then PI / 2
            else if Rlt_dec y 0 then - (PI / 2)
                 else 0.

(** [Math.round(v)]: the integer nearest to [v], halves going up. *)
Definition Math_round (v : R) : Z := Int_part (v + / 2).

(** The enumerations of [types.ts].  The two enumerations that have a
    member [ON_EDGE] share one name space here, so that of
    [PointLocationType] is [ON_EDGE_LOC]. *)
Inductive Orientation : Set := ANTICLOCKWISE | COLLINEAR | CLOCKWISE.

Definition Orientation_eqb (a b : Orientation) : bool :=
  match a, b with
  | ANTICLOCKWISE, ANTICLOCKWISE | COLLINEAR, COLLINEAR
  | CLOCKWISE, CLOCKWISE => true
  | _, _ => false
  end.

Inductive PointLocationType : Set :=
| IN_OBSTACLE | IN_POLYGON | ON_BORDER | ON_EDGE_LOC
| ON_AMBIG_CORNER_VERTEX | ON_UNAMBIG_CORNER_VERTEX | ON_NON_CORNER_VERTEX.

Inductive PolyContainmentType : Set := OUTSIDE | INSIDE | ON_EDGE | ON_VERTEX.

Definition PolyContainmentType_eqb (a b : PolyContainmentType) : bool :=
  match a, b with
  | OUTSIDE, OUTSIDE | INSIDE, INSIDE | ON_EDGE, ON_EDGE
  | ON_VERTEX, ON_VERTEX => true
  | _, _ => false
  end.

(** ** [Vector]: 3D vectors *)

Record Vector : Type := mkVector { vx : R; vy : R; vz : R }.

Module Vec.
Definition norm (v : Vector) : R :=
  sqrt (vx v * vx v + vy v * vy v + vz v * vz v).

Definition cross (a b : Vector) : Vector :=
  mkVector (vy a * vz b - vz a * vy b)
           (vz a * vx b - vx a * vz b)
           (vx a * vy b - vy a * vx b).

Definition dot (a b : Vector) : R :=
  vx a * vx b + vy a * vy b + vz a * vz b.

Definition scale (a : Vector) (factor : R) : Vector :=
  mkVector (vx a * factor) (vy a * factor) (vz a * factor).

Definition subtract (a b : Vector) : Vector :=
  mkVector (vx a - vx b) (vy a - vy b) (vz a - vz b).

Definition negate (a : Vector) : Vector :=
  mkVector (- vx a) (- vy a) (- vz a).
End Vec.

(** ** [Point]: a point of the sphere, a vector with its latitude and
    longitude in degrees *)

Record Point : Type := mkPoint { lat : R; lon : R; vec :> Vector }.

(** Modelled from the spec: [constants.ts] is not part of the sources.  The
    spec measures angles in degrees and converts with [180/PI]. *)
Definition TO_DEG : R := 180 / PI.
Definition TO_RAD : R := PI / 180.

Section Kernel.

(** The tolerance [EPSILON] of [constants.ts]; its value is not part of
    the sources, so the kernel is parametrised by it. *)
Variable EPSILON : R.

(** *** [utils.ts] *)

Definition isZero (value : R) : bool := num_lt (Rabs value) EPSILON.

Definition isEqual (a b : R) : bool := isZero (a - b).

(** *** [Vector.normalise] *)

Definition normalise (v : Vector) : result Vector :=
  _ <- assert (negb (isZero (Vec.norm v))) "Cannot normalise a zero vector" ;;
  Ok (Vec.scale v (1 / Vec.norm v)).

(** *** [Point] constructors *)

Definition latLonVector (la lo : R) : Vector :=
  let latRad := la * TO_RAD in
  let lonRad := lo * TO_RAD in
  mkVector (cos latRad * cos lonRad) (cos latRad * sin lonRad) (sin latRad).

(** [new Point(lat, lon, vector?)]. *)
Definition newPoint (la lo : R) (vector : option Vector) : result Point :=
  _ <- assert (num_ge la (-90) && num_le la 90)
         "Latitude must be between -90 and 90 degrees" ;;
  _ <- assert (num_ge lo (-180) && num_le lo 180)
         "Longitude must be between -180 and 180 degrees" ;;
  Ok (mkPoint la lo
        (match vector with
         | Some v => v
         | None => latLonVector la lo
         end)).

(** [Point.fromVector(vector, normalise = true)]. *)
Definition fromVector (vector : Vector) (normalised : bool) : result Point :=
  _ <- assert (negb (isZero (Vec.norm vector)))
         "Cannot create a point from a zero vector" ;;
  let la := asin (vz vector / Vec.norm vector) * TO_DEG in
  let lo := Math_atan2 (vy vector) (vx vector) * TO_DEG in
  v <- (if normalised then normalise vector else Ok vector) ;;
  newPoint la lo (Some v).

(** [Point.asKey]: the quantised key; the string ["P(a, b)"] is
    determined by the two integers. *)
Definition asKey (p : Point) : Z * Z :=
  let quantise := fun val : R => Math_round (val / EPSILON) in
  (quantise (lat p), quantise (lon p)).

(** *** Comparators *)

Definition isPolar (point : Point) : bool := isEqual (Rabs (lat point)) 90.

(** [this.equals(other)]. *)
Definition equals (this other : Point) : bool :=
  if isZero (lat this - lat other)
  then isPolar this || isZero (lon this - lon other)
  else false.

(** *** Operators *)

(** [Point.getIntersection]: [None] is the source's [false]. *)
Definition getIntersection (p1 p2 p3 p4 : Point)
  : result (option (Point * Point)) :=
  let c1 := Vec.cross p1 p2 in
  let c2 := Vec.cross p3 p4 in
  let c3 := Vec.cross c1 c2 in
  if isZero (Vec.norm c3) then Ok None
  else
    int <- fromVector c3 false ;;
    negInt <- fromVector (Vec.negate c3) false ;;
    Ok (Some (int, negInt)).

Definition getOrientation (p1 p2 p3 : Point) : Orientation :=
  if equals p1 p2 || equals p1 p3 || equals p2 p3 then COLLINEAR
  else
    let c1 := Vec.cross p1 p2 in
    let dot := Vec.dot c1 p3 in
    if num_gt dot EPSILON then ANTICLOCKWISE
    else if num_lt dot (- EPSILON) then CLOCKWISE
         else COLLINEAR.

(** [Point.negate]: the antipodal point. *)
Definition negate (this : Point) : result Point :=
  fromVector (Vec.negate this) true.

(** [this.isBounded(r, l)]. *)
Definition isBounded (this r l : Point) : result bool :=
  if equals this r || equals this l then Ok true
  else
    negated <- negate this ;;
    if equals negated r || equals negated l then Ok false
    else
      let rp := Vec.cross r this in
      let rl := Vec.cross r l in
      let lp := Vec.cross l this in
      let lr := Vec.cross l r in
      Ok (num_ge (Vec.dot rp rl) (- EPSILON)
          && num_ge (Vec.dot lp lr) (- EPSILON)).

(** [this.reflectPoint(r, l)]. *)
Definition reflectPoint (this r l : Point) : result Point :=
  let c1 := Vec.cross r l in
  let dot := Vec.dot this c1 in
  let double := Vec.scale c1 (2 * dot) in
  let reflected := Vec.subtract this double in
  fromVector reflected true.

(** *** Distance *)

Definition cosDistance (this other : Point) : R :=
  let lat1 := lat this * TO_RAD in
  let lat2 := lat other * TO_RAD in
  let dLon := (lon this - lon other) * TO_RAD in
  let a := sin lat1 * sin lat2 + cos lat1 * cos lat2 * cos dLon in
  acos a * TO_DEG.

(** [this.havDistance(other)]: the haversine formula. *)
Definition havDistance (this other : Point) : R :=
  let lat1 := lat this * TO_RAD in
  let lon1 := lon this * TO_RAD in
  let lat2 := lat other * TO_RAD in
  let lon2 := lon other * TO_RAD in
  let dLat := Rabs (lat1 - lat2) in
  let dLon := Rabs (lon1 - lon2) in
  let sinLat := sin (dLat / 2) in
  let sinLon := sin (dLon / 2) in
  let a := sinLat * sinLat + cos lat1 * cos lat2 * sinLon * sinLon in
  2 * asin (sqrt a) * TO_DEG.

Definition distance (this other : Point) : R :=
  if equals this other then 0 else cosDistance this other.

End Kernel.

(** ** Arrays indexed by JavaScript numbers *)

(** [a[i]]: [None] is [undefined]. *)
Definition index {A : Type} (a : list A) (i : Z) : option A :=
  if (i <? 0)%Z then None else nth_error a (Z.to_nat i).

Definition len {A : Type} (a : list A) : Z := Z.of_nat (length a).

(** [a[i % a.length]]; the remainder by zero is [NaN], which indexes
    nothing. *)
Definition ring {A : Type} (a : list A) (i : Z) : option A :=
  if (len a =? 0)%Z then None else index a (Z.rem i (len a)).

(** Reading a property of [undefined] raises a [TypeError]. *)
Definition defined {A : Type} (o : option A) : result A :=
  match o with
  | Some a => Ok a
  | None => Throw "TypeError: undefined"
  end.

(** [a.indexOf(x)] on numbers. *)
Fixpoint indexOf_from (a : list Z) (x : Z) (i : Z) : Z :=
  match a with
  | [] => (-1)%Z
  | y :: rest => if (y =? x)%Z then i else indexOf_from rest x (i + 1)%Z
  end.

Definition indexOf (a : list Z) (x : Z) : Z := indexOf_from a x 0%Z.

(** The indices [a, a+1, ..., a+k-1] of a counting loop. *)
Fixpoint indices (a : Z) (k : nat) : list Z :=
  match k with
  | O => []
  | S k' => a :: indices (a + 1)%Z k'
  end.

(** Sequencing a list of computations that may throw. *)
Fixpoint mapM {A B : Type} (f : A -> result B) (l : list A) : result (list B) :=
  match l with
  | [] => Ok []
  | a :: rest => b <- f a ;; bs <- mapM f rest ;; Ok (b :: bs)
  end.

(** ** [Vertex], [Polygon] and [Mesh] *)

(** A vertex is a point with an identifier, its corner flags and the
    identifiers of its incident polygons ([-1] is an obstacle sector). *)
Record Vertex : Type := mkVertex {
  vpoint :> Point;
  Vertex_id : Z;
  isCorner : bool;
  isAmbiguous : bool;
  pIndices : list Z
}.

(** A polygon: its identifier, the identifiers of its vertices and of its
    neighbours, and its vertices once [setVertices] has run. *)
Record Polygon : Type := mkPolygon {
  Polygon_id : Z;
  vIndices : list Z;
  nIndices : list Z;
  vertices : list Vertex;
  isOneWay : bool
}.

(** The default polygon that stands for an obstacle. *)
Definition Obstacle : Polygon := mkPolygon (-1) [] [] [] true.

Record Mesh : Type := mkMesh {
  Mesh_vertices : list Vertex;
  Mesh_polygons : list Polygon
}.

(** The polygon object an identifier denotes:
    [nIndex === -1 ? Obstacle : mesh.polygons[nIndex]]. *)
Definition polygonAt (mesh : Mesh) (j : Z) : option Polygon :=
  if (j =? -1)%Z then Some Obstacle else index (Mesh_polygons mesh) j.

(** [polygon.neighbours[i]]. *)
Definition neighbour (mesh : Mesh) (polygon : Polygon) (i : Z)
  : option Polygon :=
  match index (nIndices polygon) i with
  | Some j => polygonAt mesh j
  | None => None
  end.

(** [vertex.polygons]. *)
Definition Vertex_polygons (mesh : Mesh) (v : Vertex) : result (list Polygon) :=
  mapM (fun j => defined (polygonAt mesh j)) (pIndices v).

Record PolyContainment : Type := mkPolyContainment {
  pc_type : PolyContainmentType;
  adjPoly : Polygon;
  verts : list Vertex
}.

Record PointLocation : Type := mkPointLocation {
  pl_type : PointLocationType;
  pl_polygons : list Polygon;
  pl_vertices : list Vertex
}.

Section Containment.

Variable EPSILON : R.
Variable mesh : Mesh.

(** *** [Polygon.containsPoint] *)

(** The [for] loop of [containsPoint]: [k] iterations remain, [i] is the
    loop counter and [onEdge] the flag. *)
Fixpoint containsPoint_loop (this : Polygon) (point : Point)
  (k : nat) (i : Z) (onEdge : bool) : result PolyContainment :=
  let v := fun j : Z => defined (ring (vertices this) j) in
  match k with
  | O =>
      if onEdge then
        adj <- defined (neighbour mesh this 0) ;;
        a <- v (len (vertices this) - 1)%Z ;;
        b <- v 0%Z ;;
        Ok (mkPolyContainment ON_EDGE adj [a; b])
      else Ok (mkPolyContainment INSIDE Obstacle [])
  | S k' =>
      vertex <- v i ;;
      nextVertex <- v (i + 1)%Z ;;
      if equals EPSILON point vertex then
        Ok (mkPolyContainment ON_VERTEX Obstacle [vertex])
      else if onEdge then
        adj <- defined (neighbour mesh this i) ;;
        prev <- v (i - 1)%Z ;;
        Ok (mkPolyContainment ON_EDGE adj [prev; vertex])
      else
        let orientation := getOrientation EPSILON vertex nextVertex point in
        bounded <- (if Orientation_eqb orientation COLLINEAR
                    then isBounded EPSILON point vertex nextVertex
                    else Ok false) ;;
        if bounded then containsPoint_loop this point k' (i + 1)%Z true
        else if Orientation_eqb orientation CLOCKWISE then
          Ok (mkPolyContainment OUTSIDE Obstacle [])
        else containsPoint_loop this point k' (i + 1)%Z onEdge
  end.

Definition containsPoint (this : Polygon) (point : Point)
  : result PolyContainment :=
  containsPoint_loop this point (length (vertices this)) 0%Z false.

(** *** [Mesh.getPointLocation] *)

Fixpoint getPointLocation_loop (polygons : list Polygon) (p : Point)
  : result PointLocation :=
  match polygons with
  | [] => Ok (mkPointLocation IN_OBSTACLE [] [])
  | polygon :: rest =>
      res <- containsPoint polygon p ;;
      match pc_type res with
      | OUTSIDE => getPointLocation_loop rest p
      | INSIDE => Ok (mkPointLocation IN_POLYGON [polygon] [])
      | ON_EDGE =>
          if (Polygon_id (adjPoly res) =? -1)%Z
          then Ok (mkPointLocation ON_BORDER [polygon] (verts res))
          else Ok (mkPointLocation ON_EDGE_LOC [polygon; adjPoly res]
                     (verts res))
      | ON_VERTEX =>
          v0 <- defined (index (verts res) 0) ;;
          ps <- Vertex_polygons mesh v0 ;;
          Ok (mkPointLocation
                (if isCorner v0
                 then if isAmbiguous v0
                      then ON_AMBIG_CORNER_VERTEX
                      else ON_UNAMBIG_CORNER_VERTEX
                 else ON_NON_CORNER_VERTEX)
                (filter (fun q => negb (Polygon_id q =? -1)%Z) ps)
                (verts res))
      end
  end.

Definition getPointLocation (p : Point) : result PointLocation :=
  getPointLocation_loop (Mesh_polygons mesh) p.

End Containment.

(** ** [PriorityQueue]: a binary heap in an array *)

Module PriorityQueue.

Local Open Scope nat_scope.

Section Heap.

Variable T : Type.
Variable comparator : T -> T -> bool.

(** Positions in the array.  The shifts of the source act on 32-bit
    integers; a heap never comes near that many entries, so the positions
    are natural numbers here. *)
Definition top : nat := 0.
Definition parent (i : nat) : nat := (i + 1) / 2 - 1.
Definition left (i : nat) : nat := 2 * i + 1.
Definition right (i : nat) : nat := 2 * (i + 1).

Fixpoint update (heap : list T) (i : nat) (x : T) : list T :=
  match heap, i with
  | [], _ => []
  | _ :: rest, O => x :: rest
  | y :: rest, S i' => y :: update rest i' x
  end.

Definition size (heap : list T) : nat := length heap.

Definition isEmpty (heap : list T) : bool := Nat.eqb (size heap) 0.

Definition peek (heap : list T) : option T := nth_error heap 0.

(** [_greater(i, j)]: the entry at [i] goes before the entry at [j].  Both
    positions are inside the array wherever the class calls it. *)
Definition greater (heap : list T) (i j : nat) : bool :=
  match nth_error heap i, nth_error heap j with
  | Some a, Some b => comparator a b
  | _, _ => false
  end.

(** [_swap(i, j)], for positions inside the array. *)
Definition swap (heap : list T) (i j : nat) : list T :=
  match nth_error heap i, nth_error heap j with
  | Some a, Some b => update (update heap i b) j a
  | _, _ => heap
  end.

(** The [while] loop of [_siftUp]; [node] decreases at each turn, so
    [fuel] turns are enough when [node < fuel]. *)
Fixpoint siftUp_loop (fuel : nat) (heap : list T) (node : nat) : list T :=
  match fuel with
  | O => heap
  | S fuel' =>
      if Nat.ltb 0 node && greater heap node (parent node)
      then siftUp_loop fuel' (swap heap node (parent node)) (parent node)
      else heap
  end.

Definition siftUp (heap : list T) : list T :=
  siftUp_loop (size heap) heap (size heap - 1).

(** The [while] loop of [_siftDown]; [node] increases at each turn and
    stays below the size. *)
Fixpoint siftDown_loop (fuel : nat) (heap : list T) (node : nat) : list T :=
  match fuel with
  | O => heap
  | S fuel' =>
      if (Nat.ltb (left node) (size heap) && greater heap (left node) node)
         || (Nat.ltb (right node) (size heap) && greater heap (right node) node)
      then
        let maxChild :=
          if Nat.ltb (right node) (size heap)
             && greater heap (right node) (left node)
          then right node else left node in
        siftDown_loop fuel' (swap heap node maxChild) maxChild
      else heap
  end.

Definition siftDown (heap : list T) : list T :=
  siftDown_loop (size heap) heap top.

(** [push(...values)]; the new size is the length of the result. *)
Definition push (heap : list T) (values : list T) : list T :=
  fold_left (fun h value => siftUp (h ++ [value])) values heap.

(** [pop()]: the popped value and the queue that remains. *)
Definition pop (heap : list T) : result (T * list T) :=
  _ <- assert (Nat.ltb 0 (size heap))
         "Cannot pop from an empty priority queue" ;;
  poppedValue <- defined (peek heap) ;;
  let bottom := size heap - 1 in
  let heap1 := if Nat.ltb 0 bottom then swap heap top bottom else heap in
  let heap2 := removelast heap1 in
  Ok (poppedValue, siftDown heap2).

(** The heap property: no entry goes before its parent. *)
Definition heapOrdered (heap : list T) : Prop :=
  forall (i : nat) (a b : T),
    0 < i -> nth_error heap i = Some a ->
    nth_error heap (parent i) = Some b -> comparator a b = false.

(** The heap property but for the entry at [node] and its parent, as
    [_siftUp] keeps it. *)
Definition orderedExcept (heap : list T) (node : nat) : Prop :=
  (forall (i : nat) (a b : T),
      0 < i -> i <> node -> nth_error heap i = Some a ->
      nth_error heap (parent i) = Some b -> comparator a b = false)
  /\ (forall (c : nat) (a b : T),
         0 < node -> 0 < c -> parent c = node ->
         nth_error heap c = Some a ->
         nth_error heap (parent node) = Some b -> comparator a b = false).

(** The heap property but for the entry at [node] and its children, as
    [_siftDown] keeps it. *)
Definition orderedBelow (heap : list T) (node : nat) : Prop :=
  (forall (i : nat) (a b : T),
      0 < i -> parent i <> node -> nth_error heap i = Some a ->
      nth_error heap (parent i) = Some b -> comparator a b = false)
  /\ (forall (c : nat) (a b : T),
         0 < node -> 0 < c -> parent c = node ->
         nth_error heap c = Some a ->
         nth_error heap (parent node) = Some b -> comparator a b = false).

(** The queues a program can build: from the empty queue by [push] and
    [pop]. *)
Inductive reachable : list T -> Prop :=
| reachable_new : reachable []
| reachable_push (heap values : list T) :
    reachable heap -> reachable (push heap values)
| reachable_pop (heap heap' : list T) (x : T) :
    reachable heap -> pop heap = Ok (x, heap') ->
    reachable heap'.

End Heap.

End PriorityQueue.

(** ** [SearchNode] *)

#[warnings="-register-all"]
Inductive SearchNode : Type := mkSearchNode {
  node_parent : option SearchNode;
  node_root : Point;
  node_right : Point;
  node_left : Point;
  rightVertex : option Vertex;
  leftVertex : option Vertex;
  nextPolygon : Polygon;
  node_g : R;
  node_h : R;
  node_goal : Point
}.

(** The getter [f]. *)
Definition node_f (n : SearchNode) : R := node_g n + node_h n.

(** [this.lt(other)]. *)
Definition lt (this other : SearchNode) : bool :=
  if num_eq (node_f this) (node_f other)
  then num_gt (node_g this) (node_g other)
  else num_lt (node_f this) (node_f other).

(** The state of the scan in [project]: the two points found so far and
    the three ranges, whose ends are [undefined] until they are set. *)
Record Projection : Type := mkProjection {
  newRightPoint : option Point;
  newLeftPoint : option Point;
  observableRange : option Z * option Z;
  nonObservableRightRange : option Z * option Z;
  nonObservableLeftRange : option Z * option Z
}.

Definition set0 (r : option Z * option Z) (x : Z) : option Z * option Z :=
  (Some x, snd r).

Definition set1 (r : option Z * option Z) (x : Z) : option Z * option Z :=
  (fst r, Some x).

(** The assignments of the right projection: the point, the start of the
    observable range and the end set on the side chosen by [reversed]. *)
Definition fixRight (st : Projection) (reversed : bool)
  (p : Point) (obs0 side : Z) : Projection :=
  mkProjection (Some p) (newLeftPoint st)
    (set0 (observableRange st) obs0)
    (if reversed then nonObservableRightRange st
     else set1 (nonObservableRightRange st) side)
    (if reversed then set0 (nonObservableLeftRange st) side
     else nonObservableLeftRange st).

(** The assignments of the left projection. *)
Definition fixLeft (st : Projection) (reversed : bool)
  (p : Point) (obs1 sideReversed side : Z) : Projection :=
  mkProjection (newRightPoint st) (Some p)
    (set1 (observableRange st) obs1)
    (if reversed then set1 (nonObservableRightRange st) sideReversed
     else nonObservableRightRange st)
    (if reversed then nonObservableLeftRange st
     else set0 (nonObservableLeftRange st) side).

(** What one part of a loop body asks for. *)
Inductive Flow : Set := FallThrough | Continue.

Section Search.

Variable EPSILON : R.
Variable mesh : Mesh.

(** *** The constructor of [SearchNode] *)

Definition newSearchNode (parent : option SearchNode)
  (root right left : Point) (rightV leftV : option Vertex)
  (nextPoly : Polygon) (g : R) (goal : Point) : result SearchNode :=
  _ <- assert (negb (Orientation_eqb
                       (getOrientation EPSILON root right left) CLOCKWISE))
         "Root is on the right of edge" ;;
  _ <- assert (negb (Polygon_id nextPoly =? -1)%Z)
         "Next polygon must not be an obstacle" ;;
  let node := mkSearchNode parent root right left rightV leftV nextPoly g in
  if equals EPSILON root left || equals EPSILON root right then
    Ok (node (distance EPSILON root goal) goal)
  else
    end_ <- (if Orientation_eqb (getOrientation EPSILON goal right left)
                  ANTICLOCKWISE
             then reflectPoint EPSILON goal right left
             else Ok goal) ;;
    if Orientation_eqb (getOrientation EPSILON root right end_) CLOCKWISE then
      Ok (node (distance EPSILON root right + distance EPSILON right end_) goal)
    else if Orientation_eqb (getOrientation EPSILON root left end_)
              ANTICLOCKWISE then
      Ok (node (distance EPSILON root left + distance EPSILON left end_) goal)
    else
      Ok (node (distance EPSILON root end_) goal).

(** *** [genFinalNode] *)

Definition genFinalNode (this : SearchNode) : result SearchNode :=
  c <- containsPoint EPSILON mesh (nextPolygon this) (node_goal this) ;;
  _ <- assert (negb (PolyContainmentType_eqb (pc_type c) OUTSIDE))
         "Goal point is not yet in the next polygon" ;;
  let rightAngle :=
    getOrientation EPSILON (node_root this) (node_right this) (node_goal this) in
  let leftAngle :=
    getOrientation EPSILON (node_root this) (node_left this) (node_goal this) in
  if negb (Orientation_eqb rightAngle ANTICLOCKWISE) then
    newSearchNode (Some this) (node_right this) (node_goal this)
      (node_goal this) None None (nextPolygon this)
      (node_g this + distance EPSILON (node_root this) (node_right this))
      (node_goal this)
  else if negb (Orientation_eqb leftAngle CLOCKWISE) then
    newSearchNode (Some this) (node_left this) (node_goal this)
      (node_goal this) None None (nextPolygon this)
      (node_g this + distance EPSILON (node_root this) (node_left this))
      (node_goal this)
  else if Orientation_eqb rightAngle ANTICLOCKWISE
          && Orientation_eqb leftAngle CLOCKWISE then
    newSearchNode (Some this) (node_root this) (node_goal this)
      (node_goal this) None None (nextPolygon this)
      (node_g this) (node_goal this)
  else Throw "Goal point is not visible from root point".

(** *** [project] *)

(** [intersection.find(p => nextPolygon.containsPoint(p).type !== OUTSIDE)]. *)
Definition findInside (poly : Polygon) (intersection : Point * Point)
  : result (option Point) :=
  c1 <- containsPoint EPSILON mesh poly (fst intersection) ;;
  if negb (PolyContainmentType_eqb (pc_type c1) OUTSIDE)
  then Ok (Some (fst intersection))
  else
    c2 <- containsPoint EPSILON mesh poly (snd intersection) ;;
    if negb (PolyContainmentType_eqb (pc_type c2) OUTSIDE)
    then Ok (Some (snd intersection))
    else Ok None.

(** The right projection of one turn of the scan, for the edge from
    [vertex] to [nextVertex] at position [i]. *)
Definition projectRight (this : SearchNode) (reversed : bool) (right : Point)
  (i : Z) (vertex nextVertex : Vertex) (st : Projection)
  : result (Projection * Flow) :=
  match newRightPoint st with
  | Some _ => Ok (st, FallThrough)
  | None =>
      intersection <-
        getIntersection EPSILON (node_root this) right vertex nextVertex ;;
      match intersection with
      | Some both =>
          found <- findInside (nextPolygon this) both ;;
          match found with
          | None => Ok (st, Continue)
          | Some r =>
              match getOrientation EPSILON (node_root this) r nextVertex with
              | CLOCKWISE => Ok (st, Continue)
              | COLLINEAR =>
                  _ <- assert (equals EPSILON r nextVertex)
                         "Right intersection is not equal to next vertex" ;;
                  Ok (fixRight st reversed nextVertex (i + 1) (i + 1),
                      FallThrough)
              | ANTICLOCKWISE =>
                  Ok (fixRight st reversed r i
                        (if reversed then i
                         else if equals EPSILON r vertex then i else i + 1),
                      FallThrough)
              end
          end
      | None =>
          _ <- assert (negb reversed)
                 "Right intersection should not be collinear" ;;
          Ok (fixRight st false vertex i i, FallThrough)
      end
  end%Z.

(** The left projection of one turn of the scan. *)
Definition projectLeft (this : SearchNode) (reversed : bool) (left : Point)
  (i : Z) (vertex nextVertex : Vertex) (st : Projection)
  : result (Projection * Flow) :=
  match newRightPoint st, newLeftPoint st with
  | Some _, None =>
      intersection <-
        getIntersection EPSILON (node_root this) left vertex nextVertex ;;
      match intersection with
      | Some both =>
          found <- findInside (nextPolygon this) both ;;
          match found with
          | None => Ok (st, Continue)
          | Some l =>
              _ <- assert (Orientation_eqb
                             (getOrientation EPSILON (node_root this) l vertex)
                             CLOCKWISE)
                     "Left intersection should not be collinear or anticlockwise" ;;
              if equals EPSILON l nextVertex
              then Ok (fixLeft st reversed nextVertex (i + 1) (i + 1) (i + 1),
                       FallThrough)
              else Ok (fixLeft st reversed l (i + 1) (i + 1) i, FallThrough)
          end
      | None =>
          Ok (fixLeft st reversed nextVertex (i + 1) i (i + 1), FallThrough)
      end
  | _, _ => Ok (st, FallThrough)
  end%Z.

(** The scan of the perimeter: the positions still to visit. *)
Fixpoint project_loop (this : SearchNode) (reversed : bool)
  (right left : Point) (todo : list Z) (st : Projection) : result Projection :=
  match todo with
  | [] => Ok st
  | i :: rest =>
      vertex <- defined (ring (vertices (nextPolygon this)) i) ;;
      nextVertex <- defined (ring (vertices (nextPolygon this)) (i + 1)%Z) ;;
      step1 <- projectRight this reversed right i vertex nextVertex st ;;
      let '(st1, flow1) := step1 in
      match flow1 with
      | Continue => project_loop this reversed right left rest st1
      | FallThrough =>
          step2 <- projectLeft this reversed left i vertex nextVertex st1 ;;
          let '(st2, flow2) := step2 in
          match flow2 with
          | Continue => project_loop this reversed right left rest st2
          | FallThrough =>
              match newRightPoint st2, newLeftPoint st2 with
              | Some _, Some _ => Ok st2
              | _, _ => project_loop this reversed right left rest st2
              end
          end
      end
  end.

(** [assert(x !== undefined, msg)] and the value of [x]. *)
Definition assertDefined {A : Type} (o : option A) (msg : string) : result A :=
  match o with
  | Some a => Ok a
  | None => Throw msg
  end.

Definition project (this : SearchNode) (reversed : bool)
  : result (Point * Point * (Z * Z) * (Z * Z) * (Z * Z)) :=
  _ <- assertDefined (rightVertex this) "Right vertex is not set" ;;
  leftV <- assertDefined (leftVertex this) "Left vertex is not set" ;;
  let nVertices := len (vertices (nextPolygon this)) in
  let leftLocalIndex :=
    (indexOf (vIndices (nextPolygon this)) (Vertex_id leftV) + nVertices)%Z in
  let rightLocalIndex := (leftLocalIndex + 1 - nVertices)%Z in
  let right := if reversed then node_left this else node_right this in
  let left := if reversed then node_right this else node_left this in
  st <- project_loop this reversed right left
          (indices rightLocalIndex (Z.to_nat (leftLocalIndex - rightLocalIndex)))
          (mkProjection None None (None, None)
             (Some rightLocalIndex, None) (None, Some leftLocalIndex)) ;;
  newRight <- assertDefined (newRightPoint st) "Right point is undefined" ;;
  newLeft <- assertDefined (newLeftPoint st) "Left point is undefined" ;;
  o0 <- assertDefined (fst (observableRange st)) "Observable range is undefined" ;;
  o1 <- assertDefined (snd (observableRange st)) "Observable range is undefined" ;;
  _ <- assert (o0 <? o1)%Z "Observable range is invalid" ;;
  r0 <- assertDefined (fst (nonObservableRightRange st))
          "Non-observable right range is undefined" ;;
  r1 <- assertDefined (snd (nonObservableRightRange st))
          "Non-observable right range is undefined" ;;
  l0 <- assertDefined (fst (nonObservableLeftRange st))
          "Non-observable left range is undefined" ;;
  l1 <- assertDefined (snd (nonObservableLeftRange st))
          "Non-observable left range is undefined" ;;
  Ok (newRight, newLeft, (o0, o1), (r0, r1), (l0, l1)).

(** *** [splitSuccessors] *)

(** [polygon.neighbours[i % nVertices]]. *)
Definition neighbourRing (polygon : Polygon) (i : Z) : option Polygon :=
  if (len (vertices polygon) =? 0)%Z then None
  else neighbour mesh polygon (Z.rem i (len (vertices polygon))).

Fixpoint splitSuccessors_loop (this : SearchNode) (right left : Point)
  (range : Z * Z) (newRoot : Point) (todo : list Z)
  (successors : list SearchNode) : result (list SearchNode) :=
  match todo with
  | [] => Ok successors
  | i :: rest =>
      vertex <- defined (ring (vertices (nextPolygon this)) i) ;;
      nextVertex <- defined (ring (vertices (nextPolygon this)) (i + 1)%Z) ;;
      let rightPoint : Point := if (i =? fst range)%Z then right else vertex in
      let leftPoint : Point :=
        if (i =? snd range - 1)%Z then left else nextVertex in
      nextPoly <- defined (neighbourRing (nextPolygon this) (i + 1)%Z) ;;
      if (Polygon_id nextPoly =? -1)%Z then
        splitSuccessors_loop this right left range newRoot rest successors
      else
        let g := node_g this + distance EPSILON (node_root this) newRoot in
        node <- newSearchNode (Some this) newRoot rightPoint leftPoint
                  (Some vertex) (Some nextVertex) nextPoly g (node_goal this) ;;
        splitSuccessors_loop this right left range newRoot rest
          (successors ++ [node])
  end.

Definition splitSuccessors (this : SearchNode) (right left : Point)
  (range : Z * Z) (newRoot : Point) : result (list SearchNode) :=
  splitSuccessors_loop this right left range newRoot
    (indices (fst range) (Z.to_nat (snd range - fst range))) [].

(** *** [genSuccessors] *)

Definition genSuccessors (this : SearchNode) : result (list SearchNode) :=
  rightV <- assertDefined (rightVertex this) "Right vertex is not set" ;;
  leftV <- assertDefined (leftVertex this) "Left vertex is not set" ;;
  antipode <- negate EPSILON (node_root this) ;;
  c <- containsPoint EPSILON mesh (nextPolygon this) antipode ;;
  let reversed := negb (PolyContainmentType_eqb (pc_type c) OUTSIDE) in
  projection <- project this reversed ;;
  let '(newRight, newLeft, observable, nonObservableRight, nonObservableLeft) :=
    projection in
  s1 <- splitSuccessors this newRight newLeft observable (node_root this) ;;
  s2 <- (if equals EPSILON (node_right this) rightV
            && isCorner rightV
            && (snd nonObservableRight >? fst nonObservableRight)%Z
         then splitSuccessors this rightV newRight nonObservableRight
                (node_right this)
         else Ok []) ;;
  s3 <- (if equals EPSILON (node_left this) leftV
            && isCorner leftV
            && (snd nonObservableLeft >? fst nonObservableLeft)%Z
         then splitSuccessors this newLeft leftV nonObservableLeft
                (node_left this)
         else Ok []) ;;
  Ok (s1 ++ s2 ++ s3).

(** ** [SearchInstance] *)

(** The history: a [Map] from quantised keys to numbers. *)
Definition History : Type := list ((Z * Z) * R).

Definition key_eqb (a b : Z * Z) : bool :=
  ((fst a =? fst b) && (snd a =? snd b))%Z.

Fixpoint Map_get (m : History) (key : Z * Z) : option R :=
  match m with
  | [] => None
  | (k, v) :: rest => if key_eqb k key then Some v else Map_get rest key
  end.

Definition Map_has (m : History) (key : Z * Z) : bool :=
  match Map_get m key with
  | Some _ => true
  | None => false
  end.

Fixpoint Map_set (m : History) (key : Z * Z) (value : R) : History :=
  match m with
  | [] => [(key, value)]
  | (k, v) :: rest =>
      if key_eqb k key then (k, value) :: rest
      else (k, v) :: Map_set rest key value
  end.

Variable start : Point.
Variable end_ : Point.

(** The open list is a [PriorityQueue] of nodes compared by [lt]. *)
Definition openList_push (openList : list SearchNode) (node : SearchNode)
  : list SearchNode :=
  PriorityQueue.push SearchNode lt openList [node].

Definition isEndPolygon (endPolygons : list Polygon) (polygon : Polygon)
  : bool :=
  existsb (fun p => (Polygon_id p =? Polygon_id polygon)%Z) endPolygons.

(** *** [genInitNodes] *)

(** The loop over the edges of one polygon that contains the start. *)
Fixpoint genInitNodes_edges (polygon : Polygon) (todo : list Z)
  (openList : list SearchNode) : result (list SearchNode) :=
  match todo with
  | [] => Ok openList
  | i :: rest =>
      right <- defined (index (vertices polygon) i) ;;
      left <- defined (ring (vertices polygon) (i + 1)%Z) ;;
      onEdge <- (if Orientation_eqb (getOrientation EPSILON start right left)
                      COLLINEAR
                 then isBounded EPSILON start right left
                 else Ok false) ;;
      if onEdge then genInitNodes_edges polygon rest openList
      else
        nextPoly <- defined (neighbourRing polygon (i + 1)%Z) ;;
        if (Polygon_id nextPoly =? -1)%Z then
          genInitNodes_edges polygon rest openList
        else
          node <- newSearchNode None start right left
                    (Some right) (Some left) nextPoly 0 end_ ;;
          genInitNodes_edges polygon rest (openList_push openList node)
  end.

(** The loop over the polygons incident to the start: the final node, if
    the trivial case was met, and the open list. *)
Fixpoint genInitNodes_polygons (endPolygons : list Polygon)
  (polygons : list Polygon) (openList : list SearchNode)
  : result (option SearchNode * list SearchNode) :=
  match polygons with
  | [] => Ok (None, openList)
  | polygon :: rest =>
      if isEndPolygon endPolygons polygon then
        finalNode <- newSearchNode None start end_ end_ None None
                       polygon 0 end_ ;;
        Ok (Some finalNode, openList)
      else
        openList' <- genInitNodes_edges polygon
                       (indices 0 (length (vertices polygon))) openList ;;
        genInitNodes_polygons endPolygons rest openList'
  end.

Definition genInitNodes (endPolygons : list Polygon)
  (openList : list SearchNode)
  : result (option SearchNode * list SearchNode) :=
  pl <- getPointLocation EPSILON mesh start ;;
  match pl_type pl with
  | IN_OBSTACLE => Ok (None, openList)
  | _ => genInitNodes_polygons endPolygons (pl_polygons pl) openList
  end.

(** *** [getPath] *)

Fixpoint getPath_loop (current : SearchNode) (last : Point)
  (path : list Point) : list Point :=
  let changed := negb (equals EPSILON (node_root current) last) in
  let last' := if changed then node_root current else last in
  let path' := if changed then node_root current :: path else path in
  match node_parent current with
  | None => path'
  | Some p => getPath_loop p last' path'
  end.

Definition getPath (node : SearchNode) : list Point :=
  getPath_loop node end_ [end_].

(** *** [search] *)

(** The body of the loop over the successors of a node. *)
Definition addSuccessor (state : History * list SearchNode)
  (successor : SearchNode) : History * list SearchNode :=
  let '(history, openList) := state in
  let key := asKey EPSILON (node_root successor) in
  if negb (Map_has history key)
     || match Map_get history key with
        | Some known => num_ge known (node_g successor)
        | None => false
        end
  then (Map_set history key (node_g successor),
        openList_push openList successor)
  else (history, openList).

(** One turn of the [while] loop, for an open list that is not empty. *)
Inductive Turn : Type :=
| Found (finalNode : SearchNode)
| Expanded (history : History) (openList : list SearchNode).

Definition search_turn (endPolygons : list Polygon)
  (history : History) (openList : list SearchNode) : result Turn :=
  popped <- PriorityQueue.pop SearchNode lt openList ;;
  let '(node, openList1) := popped in
  if isEndPolygon endPolygons (nextPolygon node) then
    finalNode <- genFinalNode node ;;
    Ok (Found finalNode)
  else
    successors <- genSuccessors node ;;
    let '(history', openList2) :=
      fold_left addSuccessor successors (history, openList1) in
    Ok (Expanded history' openList2).

(** The [while] loop: the final node, or [None] when the open list became
    empty.  The outer [None] tells that [fuel] turns were not enough. *)
Fixpoint search_loop (fuel : nat) (endPolygons : list Polygon)
  (history : History) (openList : list SearchNode)
  : option (result (option SearchNode)) :=
  if PriorityQueue.isEmpty SearchNode openList then Some (Ok None)
  else
    match fuel with
    | O => None
    | S fuel' =>
        match search_turn endPolygons history openList with
        | Throw msg => Some (Throw msg)
        | Ok (Found finalNode) => Some (Ok (Some finalNode))
        | Ok (Expanded history' openList') =>
            search_loop fuel' endPolygons history' openList'
        end
    end.

(** [search()]: the path and its length. *)
Definition search (fuel : nat) : option (result (list Point * R)) :=
  match getPointLocation EPSILON mesh end_ with
  | Throw msg => Some (Throw msg)
  | Ok endLocation =>
      let endPolygons := pl_polygons endLocation in
      if (len endPolygons =? 0)%Z then Some (Ok ([], 0))
      else
        match genInitNodes endPolygons [] with
        | Throw msg => Some (Throw msg)
        | Ok (Some _, _) => Some (Ok ([start; end_], distance EPSILON start end_))
        | Ok (None, openList) =>
            match search_loop fuel endPolygons [] openList with
            | None => None
            | Some (Throw msg) => Some (Throw msg)
            | Some (Ok None) => Some (Ok ([], 0))
            | Some (Ok (Some finalNode)) =>
                Some (Ok (getPath finalNode, node_f finalNode))
            end
        end
  end.

End Search.

(** ** [Mesh.read]

    The text of a mesh file is taken after it has been cut into lines and
    numbers: the first line, the two counts of the second line, the vertex
    lines [lat lon n p_0 ... p_(n-1)] and the polygon lines
    [n v_0 ... v_(n-1) nb_0 ... nb_(n-1)].  Counts and identifiers are
    integers. *)

Record VertexLine : Type := mkVertexLine {
  line_lat : R;
  line_lon : R;
  line_n : Z;
  line_polygons : list Z
}.

Record PolygonLine : Type := mkPolygonLine {
  line_size : Z;
  line_rest : list Z
}.

Record MeshFile : Type := mkMeshFile {
  firstLine : string;
  file_V : Z;
  file_P : Z;
  vertexLines : list VertexLine;
  polygonLines : list PolygonLine
}.

Definition lowerAscii (c : Ascii.ascii) : Ascii.ascii :=
  let n := Ascii.nat_of_ascii c in
  if (Nat.leb 65 n && Nat.leb n 90)%bool
  then Ascii.ascii_of_nat (n + 32)
  else c.

Fixpoint toLowerCase (s : string) : string :=
  match s with
  | EmptyString => EmptyString
  | String c rest => String (lowerAscii c) (toLowerCase rest)
  end.

(** [new Vertex(id, lat, lon, polygons)]. *)
Definition newVertex (id : Z) (la lo : R) (polygons : list Z)
  : result Vertex :=
  p <- newPoint la lo None ;;
  _ <- assert (1 <? len polygons)%Z "Vertices must have at least 2 polygons" ;;
  Ok (mkVertex p id false false polygons).

(** The loop of [Vertex.setPolygons] over the incident identifiers; only
    the number of polygons of the mesh matters to it. *)
Fixpoint setPolygons_loop (nPolygons : Z) (todo : list Z)
  (corner ambiguous : bool) : result (bool * bool) :=
  match todo with
  | [] => Ok (corner, ambiguous)
  | pIndex :: rest =>
      _ <- assert ((-1 <=? pIndex) && (pIndex <? nPolygons))%Z
             "Polygon index is out of bounds for the mesh polygons array." ;;
      if (pIndex =? -1)%Z then
        if corner then setPolygons_loop nPolygons rest corner true
        else setPolygons_loop nPolygons rest true ambiguous
      else setPolygons_loop nPolygons rest corner ambiguous
  end.

Definition setPolygons (nPolygons : Z) (v : Vertex) : result Vertex :=
  flags <- setPolygons_loop nPolygons (pIndices v)
             (isCorner v) (isAmbiguous v) ;;
  Ok (mkVertex (vpoint v) (Vertex_id v) (fst flags) (snd flags) (pIndices v)).

(** [new Polygon(id, vertices, neighbours)]. *)
Definition newPolygon (id : Z) (vs ns : list Z) : result Polygon :=
  _ <- (if (id =? -1)%Z then Ok tt
        else
          _ <- assert (3 <=? len vs)%Z
                 "A polygon must have at least 3 vertices" ;;
          assert (len vs =? len ns)%Z
            "Vertices and neighbours arrays must have the same length") ;;
  Ok (mkPolygon id vs ns [] true).

Definition setVertices (meshVertices : list Vertex) (p : Polygon)
  : result Polygon :=
  vs <- mapM (fun vIndex =>
                _ <- assert ((0 <=? vIndex) && (vIndex <? len meshVertices))%Z
                       "Vertex index is out of bounds for the mesh vertices array." ;;
                defined (index meshVertices vIndex))
          (vIndices p) ;;
  Ok (mkPolygon (Polygon_id p) (vIndices p) (nIndices p) vs (isOneWay p)).

(** The loop of [Polygon.setNeighbours]: the flag [isOneWay]. *)
Fixpoint setNeighbours_loop (nPolygons : Z) (todo : list Z)
  (foundTrav oneWay : bool) : result bool :=
  match todo with
  | [] => Ok oneWay
  | nIndex :: rest =>
      _ <- assert ((-1 <=? nIndex) && (nIndex <? nPolygons))%Z
             "Neighbour index is out of bounds for the mesh polygons array." ;;
      if (nIndex =? -1)%Z then
        setNeighbours_loop nPolygons rest foundTrav oneWay
      else if foundTrav then setNeighbours_loop nPolygons rest foundTrav false
      else setNeighbours_loop nPolygons rest true oneWay
  end.

Definition setNeighbours (nPolygons : Z) (p : Polygon) : result Polygon :=
  oneWay <- setNeighbours_loop nPolygons (nIndices p) false (isOneWay p) ;;
  Ok (mkPolygon (Polygon_id p) (vIndices p) (nIndices p) (vertices p) oneWay).

Definition readVertex (file : MeshFile) (i : Z) : result Vertex :=
  line <- defined (index (vertexLines file) i) ;;
  _ <- assert (len (line_polygons line) =? line_n line)%Z
         "Invalid vertex format" ;;
  newVertex i (line_lat line) (line_lon line) (line_polygons line).

Definition readPolygon (file : MeshFile) (i : Z) : result Polygon :=
  line <- defined (index (polygonLines file) i) ;;
  _ <- assert (len (line_rest line) =? 2 * line_size line)%Z
         "Invalid polygon format" ;;
  newPolygon i (firstn (Z.to_nat (line_size line)) (line_rest line))
    (skipn (Z.to_nat (line_size line)) (line_rest line)).

Definition read (file : MeshFile) : result Mesh :=
  _ <- assert (negb (String.eqb (firstLine file) ""))
         "File is empty or not readable" ;;
  _ <- assert (String.eqb (toLowerCase (firstLine file)) "sph")
         "Invalid file format: expected 'sph' header" ;;
  vs <- mapM (readVertex file) (indices 0 (Z.to_nat (file_V file))) ;;
  ps <- mapM (readPolygon file) (indices 0 (Z.to_nat (file_P file))) ;;
  vs' <- mapM (setPolygons (len ps)) vs ;;
  ps' <- mapM (fun p => q <- setVertices vs' p ;; setNeighbours (len ps) q) ps ;;
  Ok (mkMesh vs' ps').

(** ** The vertex lines in the earlier [Mesh.read]

    The earlier version of the reader asserts, for each vertex line, the
    position at which two neighbouring incident sectors are both
    obstacles. *)

Module Old.

Record Vertex : Type := mkVertex {
  point : Point;
  isCorner : bool;
  isAmbiguous : bool;
  polygons : list Z
}.

(** [polygons.findIndex((p, i) => p === -1 &&
    polygons[(i + 1) % polygons.length] === -1)]. *)
Fixpoint findIndex_from (polygons : list Z) (todo : list Z) (i : Z) : Z :=
  match todo with
  | [] => (-1)%Z
  | p :: rest =>
      if ((p =? -1)
          && match ring polygons (i + 1) with
             | Some q => q =? -1
             | None => false
             end)%Z
      then i
      else findIndex_from polygons rest (i + 1)%Z
  end.

Definition findAdjacentObstacles (polygons : list Z) : Z :=
  findIndex_from polygons polygons 0%Z.

(** A number used as a condition: every number but zero holds. *)
Definition truthy (n : Z) : bool := negb (n =? 0)%Z.

(** The loop that sets the corner flags of a vertex. *)
Fixpoint flags_loop (P : Z) (todo : list Z) (corner ambiguous : bool)
  : result (bool * bool) :=
  match todo with
  | [] => Ok (corner, ambiguous)
  | pIndex :: rest =>
      _ <- assert ((-1 <=? pIndex) && (pIndex <? P))%Z "Invalid polygon index" ;;
      if (pIndex =? -1)%Z then
        if corner then flags_loop P rest corner true
        else flags_loop P rest true ambiguous
      else flags_loop P rest corner ambiguous
  end.

(** The body of the loop "Read vertices" for one line. *)
Definition readVertex (P : Z) (line : VertexLine) : result Vertex :=
  _ <- assert (line_n line =? len (line_polygons line))%Z
         "Invalid vertex format" ;;
  p <- newPoint (line_lat line) (line_lon line) None ;;
  flags <- flags_loop P (line_polygons line) false false ;;
  _ <- assert (truthy (findAdjacentObstacles (line_polygons line)))
         "Vertex has adjacent obstacles" ;;
  Ok (mkVertex p (fst flags) (snd flags) (line_polygons line)).

(** *** Points in the earlier version

    There a point keeps its own coordinates, and [cross] and [subtract]
    bring their result to length one. *)

(** [Point.eq] of the earlier version. *)
Definition eq (EPSILON : R) (this other : Point) : bool :=
  if num_lt (Rabs (lat this - lat other)) EPSILON then
    if num_lt (Rabs (Rabs (lat this) - 90)) EPSILON
       && num_lt (Rabs (Rabs (lat other) - 90)) EPSILON
    then true
    else num_lt (Rabs (lon this - lon other)) EPSILON
  else false.

(** [Point.fromCartesian(x, y, z, normalise = true)] of the earlier
    version. *)
Definition fromCartesian (EPSILON : R) (x y z : R) (normalised : bool)
  : result Point :=
  let norm := sqrt (x * x + y * y + z * z) in
  _ <- assert (num_gt norm EPSILON) "Cannot create point from zero vector" ;;
  let la := asin (z / norm) * TO_DEG in
  let lo := Math_atan2 y x * TO_DEG in
  newPoint la lo
    (Some (if normalised then mkVector (x / norm) (y / norm) (z / norm)
           else mkVector x y z)).

Definition cross (EPSILON : R) (this other : Point) : result Point :=
  fromCartesian EPSILON
    (vy this * vz other - vz this * vy other)
    (vz this * vx other - vx this * vz other)
    (vx this * vy other - vy this * vx other) true.

Definition scale (EPSILON : R) (this : Point) (factor : R) : result Point :=
  fromCartesian EPSILON (vx this * factor) (vy this * factor)
    (vz this * factor) false.

Definition subtract (EPSILON : R) (this other : Point) : result Point :=
  fromCartesian EPSILON (vx this - vx other) (vy this - vy other)
    (vz this - vz other) true.

(** [Mesh.reflectPoint(p, right, left)] of the earlier version. *)
Definition reflectPoint (EPSILON : R) (p right left : Point) : result Point :=
  N <- cross EPSILON right left ;;
  let dot := Vec.dot p N in
  double <- scale EPSILON N (2 * dot) ;;
  subtract EPSILON p double.
End Old.

(** ** Statements of the specification and data for the examples *)

(** The point [new Point(lat, lon)] builds when the coordinates are in
    range. *)
Definition pointAt (la lo : R) : Point := mkPoint la lo (latLonVector la lo).

(** Equality of points as the specification words it: the latitudes agree
    within the tolerance and either both points are polar, [|lat| = 90], or
    the longitudes agree within the tolerance. *)
Definition equal_spec (EPSILON : R) (p q : Point) : Prop :=
  Rabs (lat p - lat q) < EPSILON
  /\ ((Rabs (lat p) = 90 /\ Rabs (lat q) = 90)
      \/ Rabs (lon p - lon q) < EPSILON).

(** A point within the tolerance of a pole. *)
Definition nearPole (EPSILON : R) (p : Point) : Prop :=
  Rabs (Rabs (lat p) - 90) < EPSILON.

(** The cosine and the sine of 45 degrees. *)
Definition half_sqrt : R := 1 / sqrt 2.

(** The point [end] of the constructor: what [reflectPoint] returns for
    the goal when the goal lies on the side of the root, the goal itself
    otherwise. *)
Definition foldedGoal (EPSILON : R) (goal right left goal' : Point) : Prop :=
  if Orientation_eqb (getOrientation EPSILON goal right left) ANTICLOCKWISE
  then reflectPoint EPSILON goal right left = Ok goal'
  else goal' = goal.

(** The heuristic as the specification words it (section 4.5, steps 1 and
    3), for the goal [goal'] that step 2 leaves. *)
Definition h_spec (EPSILON : R) (root right left goal goal' : Point) : R :=
  if equals EPSILON root right || equals EPSILON root left
  then distance EPSILON root goal
  else
    match getOrientation EPSILON root right goal' with
    | CLOCKWISE =>
        distance EPSILON root right + distance EPSILON right goal'
    | _ =>
        match getOrientation EPSILON root left goal' with
        | ANTICLOCKWISE =>
            distance EPSILON root left + distance EPSILON left goal'
        | _ => distance EPSILON root goal'
        end
    end.

(** The goal reflected across the great circle through [right] and [left],
    as step 2 of section 4.5 words it: the mirror image of the point in the
    plane of that circle, [p - 2 (p . n) n] for the normal [n] of length
    one. *)
Definition mirrorImage (p right left : Point) : Vector :=
  let n := Vec.scale (Vec.cross right left)
             (1 / Vec.norm (Vec.cross right left)) in
  Vec.subtract p (Vec.scale n (2 * Vec.dot p n)).

(** The turn of the terminal node as the specification words it (section
    4.8): the new root and the cost to reach it. *)
Definition terminalTurn (EPSILON : R) (this : SearchNode) : Point * R :=
  match getOrientation EPSILON (node_root this) (node_right this)
          (node_goal this) with
  | ANTICLOCKWISE =>
      match getOrientation EPSILON (node_root this) (node_left this)
              (node_goal this) with
      | CLOCKWISE => (node_root this, node_g this)
      | _ => (node_left this,
              node_g this
              + distance EPSILON (node_root this) (node_left this))
      end
  | _ => (node_right this,
          node_g this + distance EPSILON (node_root this) (node_right this))
  end.

(** A polygon of a well-formed mesh, with the margin that the tolerance
    asks for: at least three vertices, all on the unit sphere, no one equal
    to another; every vertex lies to the left of each edge it is not an end
    of, by more than the tolerance (a convex ring in anticlockwise order),
    or within the tolerance of the great circle of that edge and beyond
    one of its ends by more than the tolerance. *)
Definition wellFormedPolygon (EPSILON : R) (P : Polygon) : Prop :=
  (3 <= length (vertices P))%nat
  /\ (forall (i : nat) (vi : Vertex),
        nth_error (vertices P) i = Some vi -> Vec.norm vi = 1)
  /\ (forall (i j : nat) (vi vj : Vertex),
        nth_error (vertices P) i = Some vi ->
        nth_error (vertices P) j = Some vj ->
        i <> j -> equals EPSILON vi vj = false)
  /\ forall (i j : nat) (vi vi' vj : Vertex),
       nth_error (vertices P) i = Some vi ->
       nth_error (vertices P) ((i + 1) mod length (vertices P)) = Some vi' ->
       nth_error (vertices P) j = Some vj ->
       j <> i -> j <> ((i + 1) mod length (vertices P))%nat ->
       EPSILON < Vec.dot (Vec.cross vi vi') vj
       \/ (- EPSILON <= Vec.dot (Vec.cross vi vi') vj
           /\ (Vec.dot (Vec.cross vi vj) (Vec.cross vi vi') < - EPSILON
               \/ Vec.dot (Vec.cross vi' vj) (Vec.cross vi' vi) < - EPSILON)).

Definition wellFormedMesh (EPSILON : R) (mesh : Mesh) : Prop :=
  Forall (wellFormedPolygon EPSILON) (Mesh_polygons mesh).

(** [n] turns of the loop of [search], none of which meets an end
    polygon: from a history and an open list to those they leave. *)
Inductive expands (EPSILON : R) (mesh : Mesh) (endPolygons : list Polygon)
  : nat -> History -> list SearchNode -> History -> list SearchNode -> Prop :=
| expands_none (history : History) (openList : list SearchNode) :
    expands EPSILON mesh endPolygons 0 history openList history openList
| expands_turn (n : nat) (history history1 history2 : History)
    (openList openList1 openList2 : list SearchNode) :
    PriorityQueue.isEmpty SearchNode openList = false ->
    search_turn EPSILON mesh endPolygons history openList
    = Ok (Expanded history1 openList1) ->
    expands EPSILON mesh endPolygons n history1 openList1 history2 openList2 ->
    expands EPSILON mesh endPolygons (S n) history openList history2 openList2.

(** *** A mesh with a turn

    Six vertices, [A = (0, 0)], [B = (0, 45)], [C = (45, 0)], the north
    pole, [W = (0, -90)] and the south pole, and three polygons: the
    triangle [(C, A, B)], the polygon [(N, W, A, C)] to its west and the
    triangle [(B, A, S)] to its south. *)

Definition pA : Point := pointAt 0 0.
Definition pB : Point := pointAt 0 45.
Definition pC : Point := pointAt 45 0.
Definition pN : Point := pointAt 90 0.
Definition pW : Point := pointAt 0 (-90).
Definition pS : Point := pointAt (-90) 0.

Definition turnFile : MeshFile :=
  mkMeshFile "sph" 6 3
    [ mkVertexLine 0 0 4 [0; 1; -1; 2]%Z;
      mkVertexLine 0 45 3 [2; 0; -1]%Z;
      mkVertexLine 45 0 3 [0; -1; 1]%Z;
      mkVertexLine 90 0 2 [1; -1]%Z;
      mkVertexLine 0 (-90) 2 [1; -1]%Z;
      mkVertexLine (-90) 0 2 [2; -1]%Z ]
    [ mkPolygonLine 3 [2; 0; 1; -1; 1; 2]%Z;
      mkPolygonLine 4 [3; 4; 0; 2; -1; -1; -1; 0]%Z;
      mkPolygonLine 3 [1; 0; 5; -1; 0; -1]%Z ].

Definition vA : Vertex := mkVertex pA 0 true false [0; 1; -1; 2]%Z.
Definition vB : Vertex := mkVertex pB 1 true false [2; 0; -1]%Z.
Definition vC : Vertex := mkVertex pC 2 true false [0; -1; 1]%Z.
Definition vN : Vertex := mkVertex pN 3 true false [1; -1]%Z.
Definition vW : Vertex := mkVertex pW 4 true false [1; -1]%Z.
Definition vS : Vertex := mkVertex pS 5 true false [2; -1]%Z.

Definition polyCAB : Polygon :=
  mkPolygon 0 [2; 0; 1]%Z [-1; 1; 2]%Z [vC; vA; vB] false.
Definition polyNWAC : Polygon :=
  mkPolygon 1 [3; 4; 0; 2]%Z [-1; -1; -1; 0]%Z [vN; vW; vA; vC] true.
Definition polyBAS : Polygon :=
  mkPolygon 2 [1; 0; 5]%Z [-1; 0; -1]%Z [vB; vA; vS] true.

Definition turnMesh : Mesh :=
  mkMesh [vA; vB; vC; vN; vW; vS] [polyCAB; polyNWAC; polyBAS].

(** *** A mesh of one triangle, [(C, A, B)], with obstacles all around *)

Definition faceFile : MeshFile :=
  mkMeshFile "sph" 3 1
    [ mkVertexLine 45 0 2 [0; -1]%Z;
      mkVertexLine 0 0 2 [0; -1]%Z;
      mkVertexLine 0 45 2 [0; -1]%Z ]
    [ mkPolygonLine 3 [0; 1; 2; -1; -1; -1]%Z ].

Definition fC : Vertex := mkVertex pC 0 true false [0; -1]%Z.
Definition fA : Vertex := mkVertex pA 1 true false [0; -1]%Z.
Definition fB : Vertex := mkVertex pB 2 true false [0; -1]%Z.

Definition faceCAB : Polygon :=
  mkPolygon 0 [0; 1; 2]%Z [-1; -1; -1]%Z [fC; fA; fB] true.

Definition faceMesh : Mesh := mkMesh [fC; fA; fB] [faceCAB].

(** *** A mesh of one triangle of one degree, [(0, 0), (0, 1), (1, 0)],
    with obstacles all around *)

Definition thinFile : MeshFile :=
  mkMeshFile "sph" 3 1
    [ mkVertexLine 0 0 2 [0; -1]%Z;
      mkVertexLine 0 1 2 [0; -1]%Z;
      mkVertexLine 1 0 2 [0; -1]%Z ]
    [ mkPolygonLine 3 [0; 1; 2; -1; -1; -1]%Z ].

Definition tA : Vertex := mkVertex (pointAt 0 0) 0 true false [0; -1]%Z.
Definition tB : Vertex := mkVertex (pointAt 0 1) 1 true false [0; -1]%Z.
Definition tC : Vertex := mkVertex (pointAt 1 0) 2 true false [0; -1]%Z.

Definition thinABC : Polygon :=
  mkPolygon 0 [0; 1; 2]%Z [-1; -1; -1]%Z [tA; tB; tC] true.

Definition thinMesh : Mesh := mkMesh [tA; tB; tC] [thinABC].

(** The order of the open list as the specification words it (section
    4.4): [a] precedes [b] iff [a.f < b.f], ties being broken in favour of
    the larger [g]. *)
Definition precedes (a b : SearchNode) : Prop :=
  node_f a < node_f b \/ (node_f a = node_f b /\ node_g a > node_g b).

(** Two nodes with the same [f]. *)
Definition nodeOne : SearchNode :=
  mkSearchNode None pA pC pB None None polyCAB 0 2 pN.
Definition nodeTwo : SearchNode :=
  mkSearchNode None pC pA pB None None polyCAB 1 1 pN.

(** A node of the turn mesh seen from [B] through the edge from [C] to
    [A], on the way to the north pole. *)
Definition nodeThroughCA : SearchNode :=
  mkSearchNode None pB pC pA (Some vC) (Some vA) polyNWAC 0
    (h_spec (/ 1000) pB pC pA pN pN) pN.

(** *** A vertex between two obstacle sectors

    Two neighbouring entries of an incident list that are both [-1]; the
    list is read as a ring. *)
Definition adjacentObstacles (polygons : list Z) : Prop :=
  exists i : nat,
    nth_error polygons i = Some (-1)%Z
    /\ nth_error polygons ((i + 1) mod length polygons) = Some (-1)%Z.

Definition adjacentFile : MeshFile :=
  mkMeshFile "sph" 3 1
    [ mkVertexLine 45 0 3 [0; -1; -1]%Z;
      mkVertexLine 0 0 2 [0; -1]%Z;
      mkVertexLine 0 45 2 [0; -1]%Z ]
    [ mkPolygonLine 3 [0; 1; 2; -1; -1; -1]%Z ].

Definition gC : Vertex := mkVertex pC 0 true true [0; -1; -1]%Z.

Definition adjacentMesh : Mesh :=
  mkMesh [gC; fA; fB]
    [mkPolygon 0 [0; 1; 2]%Z [-1; -1; -1]%Z [gC; fA; fB] true].


(** ** Vocabulary of the statements about the mesh and the search *)

(** The shape of a result of [containsPoint], by its type, as [types.ts]
    documents it: the obstacle and no vertex for [OUTSIDE] and [INSIDE];
    the obstacle and one vertex of the polygon, which the point equals,
    for [ON_VERTEX]; two vertices of the polygon and one of its
    neighbours for [ON_EDGE]. *)
Definition shaped (EPSILON : R) (mesh : Mesh) (this : Polygon)
  (point : Point) (c : PolyContainment) : Prop :=
  match pc_type c with
  | OUTSIDE | INSIDE => adjPoly c = Obstacle /\ verts c = []
  | ON_VERTEX =>
      adjPoly c = Obstacle
      /\ exists v, verts c = [v] /\ In v (vertices this)
                   /\ equals EPSILON point v = true
  | ON_EDGE =>
      (exists a b, verts c = [a; b] /\ In a (vertices this)
                   /\ In b (vertices this))
      /\ exists i, neighbour mesh this i = Some (adjPoly c)
  end.

(** The point is not the vertex at position [j] of the polygon, not to
    the right of the edge that starts there and not on that edge. *)
Definition clearOf (EPSILON : R) (this : Polygon) (point : Point) (j : nat)
  : Prop :=
  forall vj vj',
    nth_error (vertices this) j = Some vj ->
    nth_error (vertices this) ((j + 1) mod length (vertices this)) = Some vj' ->
    equals EPSILON point vj = false
    /\ getOrientation EPSILON vj vj' point <> CLOCKWISE
    /\ ~ (getOrientation EPSILON vj vj' point = COLLINEAR
          /\ isBounded EPSILON point vj vj' = Ok true).

(** The point is to the right of the edge that starts at position [j]. *)
Definition rightOf (EPSILON : R) (this : Polygon) (point : Point) (j : nat)
  : Prop :=
  exists vj vj',
    nth_error (vertices this) j = Some vj
    /\ nth_error (vertices this) ((j + 1) mod length (vertices this)) = Some vj'
    /\ equals EPSILON point vj = false
    /\ getOrientation EPSILON vj vj' point = CLOCKWISE.

(** The shape of a result of [getPointLocation] among [polygons], by its
    type, as [types.ts] documents it. *)
Definition located (EPSILON : R) (p : Point) (polygons : list Polygon)
  (pl : PointLocation) : Prop :=
  match pl_type pl with
  | IN_OBSTACLE => pl_polygons pl = [] /\ pl_vertices pl = []
  | IN_POLYGON =>
      (exists P, pl_polygons pl = [P] /\ In P polygons)
      /\ pl_vertices pl = []
  | ON_BORDER =>
      (exists P, pl_polygons pl = [P] /\ In P polygons)
      /\ exists a b, pl_vertices pl = [a; b]
  | ON_EDGE_LOC =>
      (exists P Q, pl_polygons pl = [P; Q] /\ In P polygons
                   /\ Polygon_id Q <> (-1)%Z)
      /\ exists a b, pl_vertices pl = [a; b]
  | ON_AMBIG_CORNER_VERTEX =>
      Forall (fun q => Polygon_id q <> (-1)%Z) (pl_polygons pl)
      /\ exists v, pl_vertices pl = [v] /\ equals EPSILON p v = true
                   /\ isCorner v = true /\ isAmbiguous v = true
  | ON_UNAMBIG_CORNER_VERTEX =>
      Forall (fun q => Polygon_id q <> (-1)%Z) (pl_polygons pl)
      /\ exists v, pl_vertices pl = [v] /\ equals EPSILON p v = true
                   /\ isCorner v = true /\ isAmbiguous v = false
  | ON_NON_CORNER_VERTEX =>
      Forall (fun q => Polygon_id q <> (-1)%Z) (pl_polygons pl)
      /\ exists v, pl_vertices pl = [v] /\ equals EPSILON p v = true
                   /\ isCorner v = false
  end.

(** A polygon whose ring is not empty and all of whose sides have a
    neighbour in the mesh. *)
Definition resolved (mesh : Mesh) (this : Polygon) : Prop :=
  vertices this <> []
  /\ forall i, (0 <= i < len (vertices this))%Z ->
               exists q, neighbour mesh this i = Some q.

(** A successor of [this] with the root [newRoot]: beyond an edge of the
    next polygon of [this], between two consecutive vertices of it. *)
Definition successorOf (EPSILON : R) (mesh : Mesh) (this : SearchNode)
  (newRoot : Point) (s : SearchNode) : Prop :=
  node_parent s = Some this
  /\ node_root s = newRoot
  /\ node_goal s = node_goal this
  /\ node_g s = node_g this + distance EPSILON (node_root this) newRoot
  /\ 0 <= node_h s
  /\ Polygon_id (nextPolygon s) <> (-1)%Z
  /\ getOrientation EPSILON (node_root s) (node_right s) (node_left s)
     <> CLOCKWISE
  /\ exists i v w,
      ring (vertices (nextPolygon this)) i = Some v
      /\ ring (vertices (nextPolygon this)) (i + 1) = Some w
      /\ rightVertex s = Some v /\ leftVertex s = Some w
      /\ neighbourRing mesh (nextPolygon this) (i + 1) = Some (nextPolygon s).

(** The root of the oldest ancestor of a node. *)
Fixpoint origin (n : SearchNode) : Point :=
  match node_parent n with
  | None => node_root n
  | Some p => origin p
  end.

(** No two consecutive points of the path are equal. *)
Definition distinctNeighbours (EPSILON : R) (path : list Point) : Prop :=
  forall i a b,
    nth_error path i = Some a -> nth_error path (S i) = Some b ->
    equals EPSILON a b = false.

(** A node of the search from [start]: its costs are not negative and its
    oldest ancestor has the start as its root. *)
Definition fromStart (start : Point) (n : SearchNode) : Prop :=
  0 <= node_g n /\ 0 <= node_h n /\ origin n = start.

(** *** A walk through the turn mesh, from [W] to the south pole *)

(** The point (0, 90), the antipode of [W]. *)
Definition pE : Point := pointAt 0 90.

(** The two points where the great circle through [W] and [C] meets the
    equator, and the two where it meets the great circle through [B] and
    [C], as [getIntersection] builds them. *)
Definition crossEast : Point := mkPoint 0 90 (mkVector 0 (1 / 2) 0).
Definition crossWest : Point := mkPoint 0 (-90) (mkVector 0 (- (1 / 2)) 0).
Definition crossC : Point :=
  mkPoint 45 0 (mkVector (half_sqrt / 2) 0 (half_sqrt / 2)).
Definition crossAntiC : Point :=
  mkPoint (-45) 180 (mkVector (- (half_sqrt / 2)) 0 (- (half_sqrt / 2))).

(** The node seen from [W] through the edge from [A] to [C], on the way to
    the south pole; its successor through the edge from [A] to [B]; and
    the terminal node, which turns at [A]. *)
Definition nodeThroughAC (EPSILON : R) : SearchNode :=
  mkSearchNode None pW pA pC (Some vA) (Some vC) polyCAB 0
    (h_spec EPSILON pW pA pC pS pS) pS.

Definition successorThroughAB (EPSILON : R) : SearchNode :=
  mkSearchNode (Some (nodeThroughAC EPSILON)) pW pA pB (Some vA) (Some vB)
    polyBAS (node_g (nodeThroughAC EPSILON) + distance EPSILON pW pW)
    (h_spec EPSILON pW pA pB pS pS) pS.

Definition finalThroughA (EPSILON : R) : SearchNode :=
  mkSearchNode (Some (successorThroughAB EPSILON)) pA pS pS None None polyBAS
    (node_g (successorThroughAB EPSILON) + distance EPSILON pW pA)
    (distance EPSILON pA pS) pS.


(** * Properties *)

(** ** Numbers and the tolerance *)

Lemma num_lt_true (a b : R) : a < b -> num_lt a b = true.
Proof. intros H. unfold num_lt. destruct (Rlt_dec a b); [reflexivity | contradiction]. Qed.

Lemma num_lt_false (a b : R) : b <= a -> num_lt a b = false.
Proof. intros H. unfold num_lt. destruct (Rlt_dec a b); [lra | reflexivity]. Qed.

Lemma num_le_true (a b : R) : a <= b -> num_le a b = true.
Proof. intros H. unfold num_le. destruct (Rle_dec a b); [reflexivity | contradiction]. Qed.

Lemma num_le_false (a b : R) : b < a -> num_le a b = false.
Proof. intros H. unfold num_le. destruct (Rle_dec a b); [lra | reflexivity]. Qed.

Lemma num_lt_iff (a b : R) : num_lt a b = true <-> a < b.
Proof.
  unfold num_lt. destruct (Rlt_dec a b); split; intros; try easy.
Qed.

Lemma num_le_iff (a b : R) : num_le a b = true <-> a <= b.
Proof.
  unfold num_le. destruct (Rle_dec a b); split; intros; try easy.
Qed.

Lemma num_eq_iff (a b : R) : num_eq a b = true <-> a = b.
Proof.
  unfold num_eq. destruct (Req_dec_T a b); split; intros; try easy.
Qed.

Lemma isZero_iff (EPSILON x : R) : isZero EPSILON x = true <-> Rabs x < EPSILON.
Proof. apply num_lt_iff. Qed.

Lemma isZero_0 (EPSILON : R) : 0 < EPSILON -> isZero EPSILON 0 = true.
Proof. intros H. apply isZero_iff. rewrite Rabs_R0. exact H. Qed.

(** ** Equality of points *)

(** What [equals] computes. *)
Lemma equals_iff (EPSILON : R) (p q : Point) :
  equals EPSILON p q = true <->
  Rabs (lat p - lat q) < EPSILON
  /\ (nearPole EPSILON p \/ Rabs (lon p - lon q) < EPSILON).
Proof.
  unfold equals, isPolar, isEqual, nearPole.
  destruct (isZero EPSILON (lat p - lat q)) eqn:Hlat.
  - rewrite orb_true_iff, !isZero_iff. apply isZero_iff in Hlat. tauto.
  - split; [discriminate |].
    intros [H _]. apply isZero_iff in H. congruence.
Qed.

Lemma equals_refl (EPSILON : R) (p : Point) :
  0 < EPSILON -> equals EPSILON p p = true.
Proof.
  intros H. apply equals_iff. unfold Rminus. rewrite !Rplus_opp_r, Rabs_R0.
  auto.
Qed.

(** C6, as amended: the test for a pole is made within the tolerance.  If
    the latitudes agree within EPSILON and either both points are within
    EPSILON of a pole or the longitudes agree within EPSILON, the points are
    equal; and if [p] equals [q], the latitudes agree within EPSILON and
    either [p] is within EPSILON of a pole or the longitudes agree within
    EPSILON. *)
Theorem equals_within_tolerance (EPSILON : R) (p q : Point) :
  (Rabs (lat p - lat q) < EPSILON
   /\ ((nearPole EPSILON p /\ nearPole EPSILON q)
       \/ Rabs (lon p - lon q) < EPSILON)
   -> equals EPSILON p q = true)
  /\ (equals EPSILON p q = true
      -> Rabs (lat p - lat q) < EPSILON
         /\ (nearPole EPSILON p \/ Rabs (lon p - lon q) < EPSILON)).
Proof.
  split; intros H.
  - apply equals_iff. tauto.
  - apply equals_iff. exact H.
Qed.

(** C6 fails as it is stated: with the tolerance 1/1000, the pole (90, 0)
    equals the point (90 - 1/2000, 100), which is not polar and whose
    longitude is far from 0. *)
Lemma equals_not_equal_spec :
  equals (/ 1000) (pointAt 90 0) (pointAt (90 - / 2000) 100) = true
  /\ ~ equal_spec (/ 1000) (pointAt 90 0) (pointAt (90 - / 2000) 100).
Proof.
  split.
  - apply equals_iff. unfold nearPole. simpl. split.
    + replace (90 - (90 - / 2000)) with (/ 2000) by lra.
      rewrite Rabs_pos_eq; lra.
    + left. rewrite (Rabs_pos_eq 90) by lra.
      replace (90 - 90) with 0 by lra. rewrite Rabs_R0. lra.
  - unfold equal_spec. simpl. intros [_ [[_ H] | H]].
    + rewrite Rabs_pos_eq in H; lra.
    + replace (0 - 100) with (- (100)) in H by lra.
      rewrite Rabs_Ropp, Rabs_pos_eq in H; lra.
Qed.

(** The test is made on the receiver only, so [equals] is not symmetric
    next to a pole. *)
Lemma equals_not_symmetric :
  equals 1 (pointAt (90 - 3 / 4) 0) (pointAt (90 - 3 / 2) 100) = true
  /\ equals 1 (pointAt (90 - 3 / 2) 100) (pointAt (90 - 3 / 4) 0) = false.
Proof.
  split.
  - apply equals_iff. unfold nearPole. simpl. split.
    + replace (90 - 3 / 4 - (90 - 3 / 2)) with (3 / 4) by lra.
      rewrite Rabs_pos_eq; lra.
    + left. rewrite (Rabs_pos_eq (90 - 3 / 4)) by lra.
      replace (90 - 3 / 4 - 90) with (- (3 / 4)) by lra.
      rewrite Rabs_Ropp, Rabs_pos_eq; lra.
  - destruct (equals 1 (pointAt (90 - 3 / 2) 100) (pointAt (90 - 3 / 4) 0))
      eqn:E; [| reflexivity].
    apply equals_iff in E. unfold nearPole in E. simpl in E.
    destruct E as [_ [H | H]].
    + rewrite (Rabs_pos_eq (90 - 3 / 2)) in H by lra.
      replace (90 - 3 / 2 - 90) with (- (3 / 2)) in H by lra.
      rewrite Rabs_Ropp, Rabs_pos_eq in H; lra.
    + replace (100 - 0) with 100 in H by lra.
      rewrite Rabs_pos_eq in H; lra.
Qed.

(** ** Angles of the examples *)

Lemma half_sqrt_pos : 0 < half_sqrt.
Proof.
  unfold half_sqrt. apply Rdiv_lt_0_compat; [lra |].
  apply sqrt_lt_R0. lra.
Qed.

Lemma half_sqrt_sqr : half_sqrt * half_sqrt = 1 / 2.
Proof.
  unfold half_sqrt.
  assert (H : sqrt 2 * sqrt 2 = 2) by (apply sqrt_sqrt; lra).
  assert (H0 : sqrt 2 <> 0) by (intros E; rewrite E in H; lra).
  replace (1 / sqrt 2 * (1 / sqrt 2)) with (1 / (sqrt 2 * sqrt 2))
    by (field; exact H0).
  rewrite H. reflexivity.
Qed.

Lemma half_sqrt_bounds : 7 / 10 < half_sqrt < 8 / 10.
Proof.
  pose proof half_sqrt_pos. pose proof half_sqrt_sqr. split; nra.
Qed.

Lemma latLonVector_0_0 : latLonVector 0 0 = mkVector 1 0 0.
Proof.
  unfold latLonVector. rewrite !Rmult_0_l, cos_0, sin_0.
  f_equal; lra.
Qed.

Lemma latLonVector_0_45 : latLonVector 0 45 = mkVector half_sqrt half_sqrt 0.
Proof.
  unfold latLonVector, TO_RAD. rewrite !Rmult_0_l, cos_0, sin_0.
  replace (45 * (PI / 180)) with (PI / 4) by lra.
  rewrite cos_PI4, sin_PI4. fold half_sqrt. f_equal; lra.
Qed.

Lemma latLonVector_45_0 : latLonVector 45 0 = mkVector half_sqrt 0 half_sqrt.
Proof.
  unfold latLonVector, TO_RAD. rewrite !Rmult_0_l, cos_0, sin_0.
  replace (45 * (PI / 180)) with (PI / 4) by lra.
  rewrite cos_PI4, sin_PI4. fold half_sqrt. f_equal; lra.
Qed.

Lemma latLonVector_90_0 : latLonVector 90 0 = mkVector 0 0 1.
Proof.
  unfold latLonVector, TO_RAD. rewrite !Rmult_0_l, cos_0, sin_0.
  replace (90 * (PI / 180)) with (PI / 2) by lra.
  rewrite cos_PI2, sin_PI2. f_equal; lra.
Qed.

(** ** Points from vectors *)

Lemma Math_atan2_0_pos (x : R) : 0 < x -> Math_atan2 0 x = 0.
Proof.
  intros H. unfold Math_atan2. destruct (Rlt_dec 0 x); [| contradiction].
  unfold Rdiv. rewrite Rmult_0_l. apply atan_0.
Qed.

Lemma Math_atan2_0_0 : Math_atan2 0 0 = 0.
Proof.
  unfold Math_atan2.
  destruct (Rlt_dec 0 0); [lra |]. reflexivity.
Qed.

Lemma newPoint_ok (la lo : R) (vector : option Vector) :
  -90 <= la <= 90 -> -180 <= lo <= 180 ->
  newPoint la lo vector =
  Ok (mkPoint la lo (match vector with
                     | Some v => v
                     | None => latLonVector la lo
                     end)).
Proof.
  intros [H1 H2] [H3 H4]. unfold newPoint, num_ge.
  rewrite !num_le_true by assumption. reflexivity.
Qed.

Lemma newPoint_pointAt (la lo : R) :
  -90 <= la <= 90 -> -180 <= lo <= 180 ->
  newPoint la lo None = Ok (pointAt la lo).
Proof. intros. now apply newPoint_ok. Qed.

(** [fromVector] on a vector whose norm is known and is not within the
    tolerance of zero. *)
Lemma fromVector_ok (EPSILON : R) (v : Vector) (normalised : bool)
  (n la lo : R) :
  Vec.norm v = n -> 0 <= n -> EPSILON <= n ->
  asin (vz v / n) * TO_DEG = la ->
  Math_atan2 (vy v) (vx v) * TO_DEG = lo ->
  -90 <= la <= 90 -> -180 <= lo <= 180 ->
  fromVector EPSILON v normalised =
  Ok (mkPoint la lo (if normalised then Vec.scale v (1 / n) else v)).
Proof.
  intros Hn Hpos Heps Hla Hlo Rla Rlo.
  unfold fromVector, normalise. rewrite Hn.
  assert (Z : isZero EPSILON n = false).
  { apply num_lt_false. rewrite Rabs_pos_eq; assumption. }
  rewrite Z. simpl. rewrite Hla, Hlo.
  destruct normalised; simpl; now rewrite newPoint_ok.
Qed.

(** [fromVector] refuses a vector within the tolerance of zero. *)
Lemma fromVector_zero (EPSILON : R) (v : Vector) (normalised : bool) :
  Rabs (Vec.norm v) < EPSILON ->
  fromVector EPSILON v normalised =
  Throw "Cannot create a point from a zero vector".
Proof.
  intros H. unfold fromVector.
  assert (Z : isZero EPSILON (Vec.norm v) = true) by now apply isZero_iff.
  rewrite Z. reflexivity.
Qed.

Lemma norm_x_axis (s : R) : 0 <= s -> Vec.norm (mkVector s 0 0) = s.
Proof.
  intros H. unfold Vec.norm. simpl.
  replace (s * s + 0 * 0 + 0 * 0) with (s * s) by lra.
  now apply sqrt_square.
Qed.

(** ** Reflection *)

(** C7 fails on the code: [reflectPoint] takes the normal [cross(r, l)] as it
    is, without bringing it to length one.  For [r = (0, 0)] and
    [l = (0, 45)] the point [(45, 0)] is sent onto the equator, to
    [(0, 0)], and reflecting again leaves it there: the point that comes
    back does not equal [(45, 0)]. *)
Theorem reflectPoint_twice_differs (EPSILON : R) :
  0 < EPSILON <= 1 / 2 ->
  reflectPoint EPSILON (pointAt 45 0) (pointAt 0 0) (pointAt 0 45)
  = Ok (mkPoint 0 0 (mkVector 1 0 0))
  /\ reflectPoint EPSILON (mkPoint 0 0 (mkVector 1 0 0))
       (pointAt 0 0) (pointAt 0 45)
     = Ok (mkPoint 0 0 (mkVector 1 0 0))
  /\ equals EPSILON (mkPoint 0 0 (mkVector 1 0 0)) (pointAt 45 0) = false.
Proof.
  intros [Hpos Hle].
  pose proof half_sqrt_pos as Hs. pose proof half_sqrt_sqr as Hss.
  pose proof half_sqrt_bounds as Hb.
  assert (Hs0 : half_sqrt <> 0) by lra.
  unfold reflectPoint, pointAt. simpl vec.
  rewrite latLonVector_0_0, latLonVector_0_45, latLonVector_45_0.
  repeat split.
  - replace (Vec.subtract _ _) with (mkVector half_sqrt 0 0).
    2:{ unfold Vec.subtract, Vec.scale, Vec.cross, Vec.dot. simpl.
        f_equal; nra. }
    rewrite (fromVector_ok EPSILON _ true half_sqrt 0 0).
    + simpl. do 2 f_equal. unfold Vec.scale. simpl. f_equal; try lra.
      field. exact Hs0.
    + apply norm_x_axis. lra.
    + lra.
    + lra.
    + simpl. unfold Rdiv. rewrite Rmult_0_l, asin_0. lra.
    + simpl. rewrite Math_atan2_0_pos by exact Hs. lra.
    + lra.
    + lra.
  - replace (Vec.subtract _ _) with (mkVector 1 0 0).
    2:{ unfold Vec.subtract, Vec.scale, Vec.cross, Vec.dot. simpl.
        f_equal; nra. }
    rewrite (fromVector_ok EPSILON _ true 1 0 0).
    + simpl. do 2 f_equal. unfold Vec.scale. simpl. f_equal; lra.
    + apply norm_x_axis. lra.
    + lra.
    + lra.
    + simpl. unfold Rdiv. rewrite Rmult_0_l, asin_0. lra.
    + simpl. rewrite Math_atan2_0_pos by lra. lra.
    + lra.
    + lra.
  - destruct (equals EPSILON _ _) eqn:E; [| reflexivity].
    apply equals_iff in E. simpl in E. destruct E as [E _].
    replace (0 - 45) with (- (45)) in E by lra.
    rewrite Rabs_Ropp, Rabs_pos_eq in E; lra.
Qed.

(** The theorem at the tolerance 1/1000. *)
Lemma reflectPoint_twice_differs_witness :
  0 < / 1000 <= 1 / 2
  /\ equals (/ 1000) (mkPoint 0 0 (mkVector 1 0 0)) (pointAt 45 0) = false.
Proof.
  assert (H : 0 < / 1000 <= 1 / 2) by lra.
  split; [exact H |].
  exact (proj2 (proj2 (reflectPoint_twice_differs (/ 1000) H))).
Defined.

(** ** Search nodes *)

Lemma Orientation_eqb_eq (a b : Orientation) :
  Orientation_eqb a b = true <-> a = b.
Proof. destruct a, b; simpl; split; intros; congruence. Qed.

Lemma getOrientation_same_23 (EPSILON : R) (p q : Point) :
  0 < EPSILON -> getOrientation EPSILON p q q = COLLINEAR.
Proof.
  intros H. unfold getOrientation. rewrite (equals_refl EPSILON q H).
  now rewrite !orb_true_r.
Qed.

Lemma getOrientation_same_12 (EPSILON : R) (p q : Point) :
  0 < EPSILON -> getOrientation EPSILON p p q = COLLINEAR.
Proof.
  intros H. unfold getOrientation. now rewrite (equals_refl EPSILON p H).
Qed.

(** What a call of the constructor that returns has checked and stored. *)
Lemma newSearchNode_inv (EPSILON : R) (parent : option SearchNode)
  (root right left : Point) (rightV leftV : option Vertex)
  (nextPoly : Polygon) (g : R) (goal : Point) (node : SearchNode) :
  newSearchNode EPSILON parent root right left rightV leftV nextPoly g goal
  = Ok node ->
  getOrientation EPSILON root right left <> CLOCKWISE
  /\ Polygon_id nextPoly <> (-1)%Z
  /\ node = mkSearchNode parent root right left rightV leftV nextPoly g
              (node_h node) goal.
Proof.
  unfold newSearchNode. intros H.
  destruct (Orientation_eqb (getOrientation EPSILON root right left) CLOCKWISE)
    eqn:Ho; simpl in H; [discriminate |].
  destruct (Polygon_id nextPoly =? -1)%Z eqn:Hid; simpl in H; [discriminate |].
  split.
  { intros E. rewrite E in Ho. discriminate. }
  split.
  { now apply Z.eqb_neq. }
  destruct (equals EPSILON root left || equals EPSILON root right).
  { injection H as <-. reflexivity. }
  destruct (if Orientation_eqb (getOrientation EPSILON goal right left)
                 ANTICLOCKWISE
            then reflectPoint EPSILON goal right left else Ok goal)
    as [e | msg]; simpl in H; [| discriminate].
  destruct (Orientation_eqb (getOrientation EPSILON root right e) CLOCKWISE).
  { injection H as <-. reflexivity. }
  destruct (Orientation_eqb (getOrientation EPSILON root left e) ANTICLOCKWISE);
    injection H as <-; reflexivity.
Qed.

(** When the constructor returns: the two checks hold and, where the goal
    has to be folded, the reflection is defined. *)
Lemma newSearchNode_total (EPSILON : R) (parent : option SearchNode)
  (root right left : Point) (rightV leftV : option Vertex)
  (nextPoly : Polygon) (g : R) (goal goal' : Point) :
  getOrientation EPSILON root right left <> CLOCKWISE ->
  Polygon_id nextPoly <> (-1)%Z ->
  foldedGoal EPSILON goal right left goal' ->
  newSearchNode EPSILON parent root right left rightV leftV nextPoly g goal
  = Ok (mkSearchNode parent root right left rightV leftV nextPoly g
          (h_spec EPSILON root right left goal goal') goal).
Proof.
  intros Ho Hid Hfold. unfold newSearchNode.
  assert (H1 : Orientation_eqb (getOrientation EPSILON root right left)
                 CLOCKWISE = false).
  { destruct (getOrientation EPSILON root right left);
      try reflexivity; congruence. }
  rewrite H1. apply Z.eqb_neq in Hid. rewrite Hid. simpl.
  unfold h_spec. rewrite (orb_comm (equals EPSILON root right)).
  destruct (equals EPSILON root left || equals EPSILON root right);
    [reflexivity |].
  unfold foldedGoal in Hfold.
  destruct (Orientation_eqb (getOrientation EPSILON goal right left)
              ANTICLOCKWISE).
  - rewrite Hfold. simpl.
    destruct (getOrientation EPSILON root right goal'); simpl;
      try reflexivity;
      destruct (getOrientation EPSILON root left goal'); reflexivity.
  - subst goal'. simpl.
    destruct (getOrientation EPSILON root right goal); simpl;
      try reflexivity;
      destruct (getOrientation EPSILON root left goal); reflexivity.
Qed.

(** C5: a node the constructor returns has its root not clockwise of its
    interval and a next polygon that is not the obstacle; and the
    constructor throws when either condition fails. *)
Theorem newSearchNode_invariants (EPSILON : R) (parent : option SearchNode)
  (root right left : Point) (rightV leftV : option Vertex)
  (nextPoly : Polygon) (g : R) (goal : Point) :
  (forall node,
      newSearchNode EPSILON parent root right left rightV leftV nextPoly g goal
      = Ok node ->
      getOrientation EPSILON (node_root node) (node_right node) (node_left node)
      <> CLOCKWISE
      /\ Polygon_id (nextPolygon node) <> (-1)%Z)
  /\ (getOrientation EPSILON root right left = CLOCKWISE
      \/ Polygon_id nextPoly = (-1)%Z ->
      exists msg,
        newSearchNode EPSILON parent root right left rightV leftV nextPoly g goal
        = Throw msg).
Proof.
  split.
  - intros node H. apply newSearchNode_inv in H.
    destruct H as (Ho & Hid & ->). simpl. auto.
  - intros [Ho | Hid]; unfold newSearchNode.
    + rewrite Ho. simpl. eauto.
    + destruct (Orientation_eqb _ _); simpl; [eauto |].
      rewrite Hid. simpl. eauto.
Qed.

(** A node whose interval is the goal itself: the trivial final node and
    the terminal nodes are built this way. *)
Lemma newSearchNode_at_goal (EPSILON : R) (parent : option SearchNode)
  (root goal : Point) (nextPoly : Polygon) (g : R) :
  0 < EPSILON ->
  Polygon_id nextPoly <> (-1)%Z ->
  newSearchNode EPSILON parent root goal goal None None nextPoly g goal
  = Ok (mkSearchNode parent root goal goal None None nextPoly g
          (distance EPSILON root goal) goal).
Proof.
  intros Hpos Hid.
  rewrite (newSearchNode_total EPSILON parent root goal goal None None
             nextPoly g goal goal).
  - do 2 f_equal. unfold h_spec.
    destruct (equals EPSILON root goal || equals EPSILON root goal);
      [reflexivity |].
    rewrite (getOrientation_same_23 EPSILON root goal Hpos). reflexivity.
  - rewrite (getOrientation_same_23 EPSILON root goal Hpos). discriminate.
  - exact Hid.
  - unfold foldedGoal.
    rewrite (getOrientation_same_23 EPSILON goal goal Hpos). reflexivity.
Qed.

(** C3: the terminal node.  When the next polygon of a node contains the
    goal, [genFinalNode] turns at [right] if the goal is not anticlockwise
    of (root, right), else at [left] if it is not clockwise of
    (root, left), else it keeps the root; the cost grows by the distance
    from the root to the turning point. *)
Theorem genFinalNode_turn (EPSILON : R) (mesh : Mesh) (this : SearchNode)
  (c : PolyContainment) :
  0 < EPSILON ->
  Polygon_id (nextPolygon this) <> (-1)%Z ->
  containsPoint EPSILON mesh (nextPolygon this) (node_goal this) = Ok c ->
  pc_type c <> OUTSIDE ->
  genFinalNode EPSILON mesh this
  = Ok (mkSearchNode (Some this)
          (fst (terminalTurn EPSILON this)) (node_goal this) (node_goal this)
          None None (nextPolygon this)
          (snd (terminalTurn EPSILON this))
          (distance EPSILON (fst (terminalTurn EPSILON this)) (node_goal this))
          (node_goal this)).
Proof.
  intros Hpos Hid Hc Hin. unfold genFinalNode, terminalTurn.
  rewrite Hc. simpl.
  assert (E : PolyContainmentType_eqb (pc_type c) OUTSIDE = false).
  { destruct (pc_type c); try reflexivity. congruence. }
  rewrite E. simpl.
  destruct (getOrientation EPSILON (node_root this) (node_right this)
              (node_goal this)); simpl;
    try (now apply newSearchNode_at_goal).
  destruct (getOrientation EPSILON (node_root this) (node_left this)
              (node_goal this)); simpl;
    now apply newSearchNode_at_goal.
Qed.

(** ** Evaluating the kernel on given points *)

Lemma equals_false_lat (EPSILON : R) (p q : Point) :
  EPSILON <= Rabs (lat p - lat q) -> equals EPSILON p q = false.
Proof.
  intros H. destruct (equals EPSILON p q) eqn:E; [| reflexivity].
  apply equals_iff in E. lra.
Qed.

Lemma equals_false_lon (EPSILON : R) (p q : Point) :
  EPSILON <= Rabs (Rabs (lat p) - 90) ->
  EPSILON <= Rabs (lon p - lon q) ->
  equals EPSILON p q = false.
Proof.
  intros H1 H2. destruct (equals EPSILON p q) eqn:E; [| reflexivity].
  apply equals_iff in E. unfold nearPole in E. lra.
Qed.

Lemma getOrientation_anticlockwise (EPSILON : R) (p1 p2 p3 : Point) :
  equals EPSILON p1 p2 = false -> equals EPSILON p1 p3 = false ->
  equals EPSILON p2 p3 = false ->
  EPSILON < Vec.dot (Vec.cross p1 p2) p3 ->
  getOrientation EPSILON p1 p2 p3 = ANTICLOCKWISE.
Proof.
  intros E1 E2 E3 H. unfold getOrientation. rewrite E1, E2, E3. simpl.
  unfold num_gt. now rewrite num_lt_true.
Qed.

Lemma getOrientation_clockwise (EPSILON : R) (p1 p2 p3 : Point) :
  0 < EPSILON ->
  equals EPSILON p1 p2 = false -> equals EPSILON p1 p3 = false ->
  equals EPSILON p2 p3 = false ->
  Vec.dot (Vec.cross p1 p2) p3 < - EPSILON ->
  getOrientation EPSILON p1 p2 p3 = CLOCKWISE.
Proof.
  intros Hpos E1 E2 E3 H. unfold getOrientation. rewrite E1, E2, E3. simpl.
  unfold num_gt. rewrite num_lt_false by lra. now rewrite num_lt_true.
Qed.

Lemma getOrientation_collinear (EPSILON : R) (p1 p2 p3 : Point) :
  - EPSILON <= Vec.dot (Vec.cross p1 p2) p3 <= EPSILON ->
  getOrientation EPSILON p1 p2 p3 = COLLINEAR.
Proof.
  intros H. unfold getOrientation.
  destruct (equals EPSILON p1 p2 || equals EPSILON p1 p3
            || equals EPSILON p2 p3); [reflexivity |].
  unfold num_gt. rewrite !num_lt_false by lra. reflexivity.
Qed.

Lemma vec_pA : vec pA = mkVector 1 0 0.
Proof. exact latLonVector_0_0. Qed.

Lemma vec_pB : vec pB = mkVector half_sqrt half_sqrt 0.
Proof. exact latLonVector_0_45. Qed.

Lemma vec_pC : vec pC = mkVector half_sqrt 0 half_sqrt.
Proof. exact latLonVector_45_0. Qed.

Lemma vec_pN : vec pN = mkVector 0 0 1.
Proof. exact latLonVector_90_0. Qed.

(** The triple product [dot(cross(p, q), r)] and the products of [isBounded] on
    vectors given by their coordinates. *)
Ltac coordinates :=
  rewrite ?vec_pA, ?vec_pB, ?vec_pC, ?vec_pN;
  unfold Vec.dot, Vec.cross, Vec.subtract, Vec.scale, Vec.negate;
  cbn [vx vy vz];
  pose proof half_sqrt_pos; pose proof half_sqrt_sqr;
  pose proof half_sqrt_bounds.

Ltac abs_const :=
  repeat match goal with
  | |- context [Rabs ?x] =>
      first [ rewrite (Rabs_pos_eq x) by lra
            | rewrite (Rabs_left1 x) by lra ]
  end.

Section ExamplePoints.

Variable EPSILON : R.
Hypothesis EPSILON_pos : 0 < EPSILON.
Hypothesis EPSILON_small : EPSILON < 1 / 2.

Ltac differ_lat :=
  apply equals_false_lat; cbn [lat lon pA pB pC pN pW pS pointAt];
  abs_const; lra.

Lemma equals_N_C : equals EPSILON pN pC = false.
Proof. differ_lat. Qed.
Lemma equals_N_A : equals EPSILON pN pA = false.
Proof. differ_lat. Qed.
Lemma equals_N_B : equals EPSILON pN pB = false.
Proof. differ_lat. Qed.
Lemma equals_C_A : equals EPSILON pC pA = false.
Proof. differ_lat. Qed.
Lemma equals_C_B : equals EPSILON pC pB = false.
Proof. differ_lat. Qed.
Lemma equals_C_N : equals EPSILON pC pN = false.
Proof. differ_lat. Qed.
Lemma equals_A_C : equals EPSILON pA pC = false.
Proof. differ_lat. Qed.
Lemma equals_A_N : equals EPSILON pA pN = false.
Proof. differ_lat. Qed.
Lemma equals_B_C : equals EPSILON pB pC = false.
Proof. differ_lat. Qed.
Lemma equals_B_N : equals EPSILON pB pN = false.
Proof. differ_lat. Qed.

Lemma equals_A_B : equals EPSILON pA pB = false.
Proof.
  apply equals_false_lon; cbn [lat lon pA pB pointAt]; abs_const; lra.
Qed.

Lemma equals_B_A : equals EPSILON pB pA = false.
Proof.
  apply equals_false_lon; cbn [lat lon pA pB pointAt]; abs_const; lra.
Qed.

Lemma orientation_C_A_B : getOrientation EPSILON pC pA pB = ANTICLOCKWISE.
Proof.
  apply getOrientation_anticlockwise;
    auto using equals_C_A, equals_C_B, equals_A_B.
  coordinates. nra.
Qed.

Lemma orientation_A_B_C : getOrientation EPSILON pA pB pC = ANTICLOCKWISE.
Proof.
  apply getOrientation_anticlockwise;
    auto using equals_A_B, equals_A_C, equals_B_C.
  coordinates. nra.
Qed.

Lemma orientation_B_C_A : getOrientation EPSILON pB pC pA = ANTICLOCKWISE.
Proof.
  apply getOrientation_anticlockwise;
    auto using equals_B_C, equals_B_A, equals_C_A.
  coordinates. nra.
Qed.

Lemma orientation_C_A_N : getOrientation EPSILON pC pA pN = COLLINEAR.
Proof. apply getOrientation_collinear. coordinates. nra. Qed.

Lemma orientation_A_B_N : getOrientation EPSILON pA pB pN = ANTICLOCKWISE.
Proof.
  apply getOrientation_anticlockwise;
    auto using equals_A_B, equals_A_N, equals_B_N.
  coordinates. nra.
Qed.

Lemma orientation_B_C_N : getOrientation EPSILON pB pC pN = CLOCKWISE.
Proof.
  apply getOrientation_clockwise;
    auto using equals_B_C, equals_B_N, equals_C_N.
  coordinates. nra.
Qed.

Lemma orientation_N_A_B : getOrientation EPSILON pN pA pB = ANTICLOCKWISE.
Proof.
  apply getOrientation_anticlockwise;
    auto using equals_N_A, equals_N_B, equals_A_B.
  coordinates. nra.
Qed.

End ExamplePoints.

(** ** One turn of the loop of [containsPoint] *)

Section ContainsPointSteps.

Variable EPSILON : R.
Variable mesh : Mesh.
Variables (this : Polygon) (point : Point) (k : nat) (i : Z).
Variables (vertex nextVertex : Vertex).
Hypothesis at_i : ring (vertices this) i = Some vertex.
Hypothesis at_next : ring (vertices this) (i + 1) = Some nextVertex.

Lemma containsPoint_loop_vertex (onEdge : bool) :
  equals EPSILON point vertex = true ->
  containsPoint_loop EPSILON mesh this point (S k) i onEdge
  = Ok (mkPolyContainment ON_VERTEX Obstacle [vertex]).
Proof.
  intros E. cbn [containsPoint_loop]. rewrite at_i, at_next. cbn [defined bind].
  now rewrite E.
Qed.

Lemma containsPoint_loop_left :
  equals EPSILON point vertex = false ->
  getOrientation EPSILON vertex nextVertex point = ANTICLOCKWISE ->
  containsPoint_loop EPSILON mesh this point (S k) i false
  = containsPoint_loop EPSILON mesh this point k (i + 1) false.
Proof.
  intros E O. cbn [containsPoint_loop]. rewrite at_i, at_next. cbn [defined bind].
  rewrite E, O. reflexivity.
Qed.

Lemma containsPoint_loop_right :
  equals EPSILON point vertex = false ->
  getOrientation EPSILON vertex nextVertex point = CLOCKWISE ->
  containsPoint_loop EPSILON mesh this point (S k) i false
  = Ok (mkPolyContainment OUTSIDE Obstacle []).
Proof.
  intros E O. cbn [containsPoint_loop]. rewrite at_i, at_next. cbn [defined bind].
  rewrite E, O. reflexivity.
Qed.

Lemma containsPoint_loop_aligned :
  equals EPSILON point vertex = false ->
  getOrientation EPSILON vertex nextVertex point = COLLINEAR ->
  isBounded EPSILON point vertex nextVertex = Ok false ->
  containsPoint_loop EPSILON mesh this point (S k) i false
  = containsPoint_loop EPSILON mesh this point k (i + 1) false.
Proof.
  intros E O B. cbn [containsPoint_loop]. rewrite at_i, at_next. cbn [defined bind].
  rewrite E, O. cbn [Orientation_eqb]. rewrite B. reflexivity.
Qed.

Lemma containsPoint_loop_bounded :
  equals EPSILON point vertex = false ->
  getOrientation EPSILON vertex nextVertex point = COLLINEAR ->
  isBounded EPSILON point vertex nextVertex = Ok true ->
  containsPoint_loop EPSILON mesh this point (S k) i false
  = containsPoint_loop EPSILON mesh this point k (i + 1) true.
Proof.
  intros E O B. cbn [containsPoint_loop]. rewrite at_i, at_next. cbn [defined bind].
  rewrite E, O. cbn [Orientation_eqb]. rewrite B. reflexivity.
Qed.

End ContainsPointSteps.

Section ExampleContainment.

Variable EPSILON : R.
Hypothesis EPSILON_pos : 0 < EPSILON.
Hypothesis EPSILON_small : EPSILON < 1 / 2.

Lemma negate_pN :
  exists q, negate EPSILON pN = Ok q /\ lat q = -90 /\ lon q = 0.
Proof.
  unfold negate. rewrite vec_pN.
  eexists. split.
  - apply fromVector_ok with (n := 1).
    + unfold Vec.norm, Vec.negate. cbn [vx vy vz].
      replace (- 0 * - 0 + - 0 * - 0 + - (1) * - (1)) with 1 by lra.
      apply sqrt_1.
    + lra.
    + lra.
    + reflexivity.
    + reflexivity.
    + unfold Vec.negate. cbn [vx vy vz].
      replace (- (1) / 1) with (- (1)) by lra.
      rewrite asin_opp, asin_1. unfold TO_DEG.
      replace (- (PI / 2) * (180 / PI)) with (- 90) by (field; apply PI_neq0).
      lra.
    + unfold Vec.negate. cbn [vx vy vz]. rewrite Ropp_0, Math_atan2_0_0. lra.
  - cbn [lat lon]. unfold Vec.negate. cbn [vx vy vz]. split.
    + replace (- (1) / 1) with (- (1)) by lra.
      rewrite asin_opp, asin_1. unfold TO_DEG. field. apply PI_neq0.
    + rewrite Ropp_0, Math_atan2_0_0. lra.
Qed.

Lemma isBounded_N_C_A : isBounded EPSILON pN pC pA = Ok false.
Proof.
  unfold isBounded.
  rewrite equals_N_C, equals_N_A by assumption. cbn [orb].
  destruct negate_pN as (q & -> & Hlat & Hlon). cbn [bind].
  assert (E1 : equals EPSILON q pC = false).
  { apply equals_false_lat. rewrite Hlat. cbn [lat pC pointAt]. abs_const. lra. }
  assert (E2 : equals EPSILON q pA = false).
  { apply equals_false_lat. rewrite Hlat. cbn [lat pA pointAt]. abs_const. lra. }
  rewrite E1, E2. cbn [orb]. unfold num_ge.
  rewrite num_le_false; [reflexivity |].
  coordinates. nra.
Qed.

Lemma reflectPoint_N_A_B :
  reflectPoint EPSILON pN pA pB
  = Throw "Cannot create a point from a zero vector".
Proof.
  unfold reflectPoint.
  replace (Vec.subtract pN _) with (mkVector 0 0 0).
  2:{ coordinates. f_equal; nra. }
  apply fromVector_zero. unfold Vec.norm. cbn [vx vy vz].
  replace (0 * 0 + 0 * 0 + 0 * 0) with 0 by lra.
  rewrite sqrt_0, Rabs_R0. exact EPSILON_pos.
Qed.

End ExampleContainment.

(** ** Rings of vertices *)

Lemma index_of_nat {A : Type} (a : list A) (i : nat) :
  index a (Z.of_nat i) = nth_error a i.
Proof.
  unfold index. destruct (Z.of_nat i <? 0)%Z eqn:E.
  - apply Z.ltb_lt in E. lia.
  - now rewrite Nat2Z.id.
Qed.

Lemma ring_of_nat {A : Type} (a : list A) (i : nat) :
  a <> [] -> ring a (Z.of_nat i) = nth_error a (i mod length a).
Proof.
  intros Hne. unfold ring, len.
  assert (Hlen : (0 < length a)%nat).
  { destruct a; [congruence | simpl; lia]. }
  destruct (Z.of_nat (length a) =? 0)%Z eqn:E.
  - apply Z.eqb_eq in E. lia.
  - rewrite Z.rem_mod_nonneg by lia.
    rewrite <- Nat2Z.inj_mod. apply index_of_nat.
Qed.

Lemma ring_inside {A : Type} (a : list A) (i : nat) :
  (i < length a)%nat -> ring a (Z.of_nat i) = nth_error a i.
Proof.
  intros H. rewrite ring_of_nat.
  - now rewrite Nat.mod_small.
  - intros ->. simpl in H. lia.
Qed.

(** ** Reading the meshes of the examples *)

Lemma readVertex_ok (file : MeshFile) (i : Z) (line : VertexLine) :
  index (vertexLines file) i = Some line ->
  len (line_polygons line) = line_n line ->
  (1 < len (line_polygons line))%Z ->
  -90 <= line_lat line <= 90 -> -180 <= line_lon line <= 180 ->
  readVertex file i =
  Ok (mkVertex (pointAt (line_lat line) (line_lon line)) i false false
        (line_polygons line)).
Proof.
  intros Hi Hn Hl Hla Hlo. unfold readVertex, newVertex.
  rewrite Hi. simpl. rewrite Hn, Z.eqb_refl. simpl.
  rewrite newPoint_pointAt by assumption. simpl.
  apply Z.ltb_lt in Hl. rewrite <- Hn. rewrite Hl. reflexivity.
Qed.

Lemma read_turnFile : read turnFile = Ok turnMesh.
Proof.
  unfold read. 
  change (mapM (readVertex turnFile) (indices 0 (Z.to_nat (file_V turnFile))))
    with (mapM (readVertex turnFile) [0;1;2;3;4;5]%Z).
  cbn [mapM].
  repeat (erewrite readVertex_ok; [ | reflexivity | reflexivity | reflexivity | simpl; lra | simpl; lra ]; cbn [bind]).
  reflexivity.
Qed.

Lemma read_faceFile : read faceFile = Ok faceMesh.
Proof.
  unfold read.
  change (mapM (readVertex faceFile) (indices 0 (Z.to_nat (file_V faceFile))))
    with (mapM (readVertex faceFile) [0;1;2]%Z).
  cbn [mapM].
  repeat (erewrite readVertex_ok; [ | reflexivity | reflexivity | reflexivity | simpl; lra | simpl; lra ]; cbn [bind]).
  reflexivity.
Qed.

Section TurnMesh.

Variable EPSILON : R.
Hypothesis EPSILON_pos : 0 < EPSILON.
Hypothesis EPSILON_small : EPSILON < 1 / 2.

Lemma containsPoint_CAB_N (mesh : Mesh) (this : Polygon) (v0 v1 v2 : Vertex) :
  vertices this = [v0; v1; v2] ->
  vpoint v0 = pC -> vpoint v1 = pA -> vpoint v2 = pB ->
  containsPoint EPSILON mesh this pN
  = Ok (mkPolyContainment OUTSIDE Obstacle []).
Proof.
  intros Hv H0 H1 H2. unfold containsPoint. rewrite Hv.
  change (length [v0; v1; v2]) with 3%nat.
  rewrite (containsPoint_loop_aligned EPSILON mesh this pN 2 0 v0 v1).
  2: now rewrite Hv.
  2: now rewrite Hv.
  2: rewrite H0; now apply equals_N_C.
  2: rewrite H0, H1; now apply orientation_C_A_N.
  2: rewrite H0, H1; now apply isBounded_N_C_A.
  rewrite (containsPoint_loop_left EPSILON mesh this pN 1 (0 + 1) v1 v2).
  2: now rewrite Hv.
  2: now rewrite Hv.
  2: rewrite H1; now apply equals_N_A.
  2: rewrite H1, H2; now apply orientation_A_B_N.
  rewrite (containsPoint_loop_right EPSILON mesh this pN 0 (0 + 1 + 1) v2 v0).
  - reflexivity.
  - now rewrite Hv.
  - now rewrite Hv.
  - rewrite H2; now apply equals_N_B.
  - rewrite H2, H0; now apply orientation_B_C_N.
Qed.

Lemma getPointLocation_turnMesh_N :
  getPointLocation EPSILON turnMesh pN
  = Ok (mkPointLocation ON_UNAMBIG_CORNER_VERTEX [polyNWAC] [vN]).
Proof.
  unfold getPointLocation.
  cbn [Mesh_polygons turnMesh getPointLocation_loop].
  rewrite (containsPoint_CAB_N turnMesh polyCAB vC vA vB) by reflexivity.
  cbn [bind pc_type].
  unfold containsPoint at 1. change (length (vertices polyNWAC)) with 4%nat.
  rewrite (containsPoint_loop_vertex EPSILON turnMesh polyNWAC pN 3 0 vN vW)
    by (reflexivity || apply equals_refl; assumption).
  reflexivity.
Qed.

Lemma getPointLocation_turnMesh_C :
  getPointLocation EPSILON turnMesh pC
  = Ok (mkPointLocation ON_UNAMBIG_CORNER_VERTEX [polyCAB; polyNWAC] [vC]).
Proof.
  unfold getPointLocation.
  cbn [Mesh_polygons turnMesh getPointLocation_loop].
  unfold containsPoint at 1. change (length (vertices polyCAB)) with 3%nat.
  rewrite (containsPoint_loop_vertex EPSILON turnMesh polyCAB pC 2 0 vC vA)
    by (reflexivity || apply equals_refl; assumption).
  reflexivity.
Qed.

Lemma isBounded_self (this l : Point) :
  isBounded EPSILON this this l = Ok true.
Proof.
  unfold isBounded. now rewrite (equals_refl EPSILON this EPSILON_pos).
Qed.

Lemma newSearchNode_C_A_B (parent : option SearchNode)
  (rightV leftV : option Vertex) (nextPoly : Polygon) (g : R) :
  Polygon_id nextPoly <> (-1)%Z ->
  newSearchNode EPSILON parent pC pA pB rightV leftV nextPoly g pN
  = Throw "Cannot create a point from a zero vector".
Proof.
  intros Hid. unfold newSearchNode.
  rewrite orientation_C_A_B by assumption.
  apply Z.eqb_neq in Hid. rewrite Hid.
  cbn [Orientation_eqb negb assert bind].
  rewrite equals_C_B, equals_C_A by assumption. cbn [orb].
  rewrite orientation_N_A_B by assumption. cbn [Orientation_eqb].
  rewrite reflectPoint_N_A_B by assumption. reflexivity.
Qed.

Theorem search_turnMesh_throws (fuel : nat) :
  search EPSILON turnMesh pC pN fuel
  = Some (Throw "Cannot create a point from a zero vector").
Proof.
  unfold search. rewrite getPointLocation_turnMesh_N.
  cbn [pl_polygons len length Z.of_nat Z.eqb Pos.of_succ_nat].
  unfold genInitNodes. rewrite getPointLocation_turnMesh_C.
  cbn [pl_type pl_polygons bind genInitNodes_polygons].
  change (isEndPolygon [polyNWAC] polyCAB) with false.
  cbn iota.
  change (indices 0 (length (vertices polyCAB))) with [0; 1; 2]%Z.
  cbn [genInitNodes_edges].
  change (index (vertices polyCAB) 0) with (Some vC).
  change (ring (vertices polyCAB) (0 + 1)) with (Some vA).
  cbn [defined bind].
  change (vpoint vC) with pC.
  rewrite (getOrientation_same_12 EPSILON pC vA EPSILON_pos).
  cbn [Orientation_eqb]. rewrite isBounded_self. cbn [bind].
  change (index (vertices polyCAB) 1) with (Some vA).
  change (ring (vertices polyCAB) (1 + 1)) with (Some vB).
  cbn [defined bind].
  change (vpoint vA) with pA. change (vpoint vB) with pB.
  rewrite orientation_C_A_B by assumption. cbn [Orientation_eqb bind].
  change (neighbourRing turnMesh polyCAB (1 + 1)) with (Some polyBAS).
  cbn [defined bind].
  change (Polygon_id polyBAS =? -1)%Z with false. cbn iota.
  rewrite newSearchNode_C_A_B by discriminate.
  reflexivity.
Qed.

End TurnMesh.

(** ** The search *)

Section SearchFacts.

Variable EPSILON : R.
Variable mesh : Mesh.
Variables start end_ : Point.

(** A point located in an obstacle is in no polygon. *)
Lemma getPointLocation_loop_obstacle (polygons : list Polygon) (p : Point)
  (pl : PointLocation) :
  getPointLocation_loop EPSILON mesh polygons p = Ok pl ->
  pl_type pl = IN_OBSTACLE -> pl_polygons pl = [].
Proof.
  induction polygons as [| polygon rest IH]; cbn [getPointLocation_loop].
  - intros [= <-] _. reflexivity.
  - destruct (containsPoint EPSILON mesh polygon p) as [res | msg];
      cbn [bind]; [| discriminate].
    destruct (pc_type res).
    + exact IH.
    + intros [= <-]. discriminate.
    + destruct (Polygon_id (adjPoly res) =? -1)%Z; intros [= <-]; discriminate.
    + destruct (defined (index (verts res) 0)) as [v0 | msg];
        cbn [bind]; [| discriminate].
      destruct (Vertex_polygons mesh v0) as [ps | msg];
        cbn [bind]; [| discriminate].
      intros [= <-]. cbn [pl_type].
      destruct (isCorner v0); [destruct (isAmbiguous v0) |]; discriminate.
Qed.

Lemma len_nil_iff {A : Type} (a : list A) : (len a =? 0)%Z = true <-> a = [].
Proof.
  unfold len. destruct a; simpl; split; intros; try easy.
Qed.

(** The loop stops at once on an empty open list. *)
Lemma search_loop_empty (fuel : nat) (endPolygons : list Polygon)
  (history : History) :
  search_loop EPSILON mesh fuel endPolygons history [] = Some (Ok None).
Proof. destruct fuel; reflexivity. Qed.

(** Turns that expand nodes use up one unit of fuel each. *)
Lemma search_loop_expands (endPolygons : list Polygon) (n : nat)
  (history history' : History) (openList openList' : list SearchNode) :
  expands EPSILON mesh endPolygons n history openList history' openList' ->
  forall fuel,
    search_loop EPSILON mesh (n + fuel) endPolygons history openList
    = search_loop EPSILON mesh fuel endPolygons history' openList'.
Proof.
  induction 1 as [| n h h1 h2 q q1 q2 Hne Hturn _ IH]; intros fuel.
  - reflexivity.
  - cbn [Nat.add search_loop]. rewrite Hne, Hturn. apply IH.
Qed.

(** C2: when there is no path, [search] returns the empty path and the
    length 0.  There is no path when the end is located in an obstacle,
    when the start is, or when the open list becomes empty after some
    turns that met no end polygon. *)
Theorem search_no_path :
  (exists endLocation,
      getPointLocation EPSILON mesh end_ = Ok endLocation
      /\ pl_type endLocation = IN_OBSTACLE)
  \/ (exists endLocation startLocation,
         getPointLocation EPSILON mesh end_ = Ok endLocation
         /\ getPointLocation EPSILON mesh start = Ok startLocation
         /\ pl_type startLocation = IN_OBSTACLE)
  \/ (exists endLocation openList n history,
         getPointLocation EPSILON mesh end_ = Ok endLocation
         /\ genInitNodes EPSILON mesh start end_ (pl_polygons endLocation) []
            = Ok (None, openList)
         /\ expands EPSILON mesh (pl_polygons endLocation) n [] openList
              history []) ->
  exists fuel0, forall fuel, (fuel0 <= fuel)%nat ->
    search EPSILON mesh start end_ fuel = Some (Ok ([], 0)).
Proof.
  intros [(ple & Hend & Htype) | [(ple & pls & Hend & Hstart & Htype)
                                 | (ple & q0 & n & h & Hend & Hinit & Hexp)]].
  - exists 0%nat. intros fuel _. unfold search. rewrite Hend.
    unfold getPointLocation in Hend.
    rewrite (getPointLocation_loop_obstacle _ _ _ Hend Htype). reflexivity.
  - exists 0%nat. intros fuel _. unfold search. rewrite Hend.
    destruct (len (pl_polygons ple) =? 0)%Z; [reflexivity |].
    unfold genInitNodes. rewrite Hstart. cbn [bind]. rewrite Htype.
    now rewrite search_loop_empty.
  - exists n. intros fuel Hfuel. unfold search. rewrite Hend.
    destruct (len (pl_polygons ple) =? 0)%Z; [reflexivity |].
    rewrite Hinit.
    replace fuel with (n + (fuel - n))%nat by lia.
    rewrite (search_loop_expands _ _ _ _ _ _ Hexp).
    now rewrite search_loop_empty.
Qed.

(** *** Start and end in one polygon *)

Hypothesis EPSILON_pos : 0 < EPSILON.

Lemma isEndPolygon_nonempty (endPolygons : list Polygon) (polygon : Polygon) :
  isEndPolygon endPolygons polygon = true -> (len endPolygons =? 0)%Z = false.
Proof.
  destruct endPolygons; [discriminate | reflexivity].
Qed.

(** Seeding reaches the first end polygon among the polygons of the start
    when it fails at none of the polygons before it. *)
Lemma genInitNodes_polygons_trivial (endPolygons before after : list Polygon)
  (polygon : Polygon) :
  Forall (fun q => isEndPolygon endPolygons q = false) before ->
  Forall (fun q => forall openList, exists openList',
              genInitNodes_edges EPSILON mesh start end_ q
                (indices 0 (length (vertices q))) openList = Ok openList')
    before ->
  isEndPolygon endPolygons polygon = true ->
  Polygon_id polygon <> (-1)%Z ->
  forall openList, exists finalNode openList',
    genInitNodes_polygons EPSILON mesh start end_ endPolygons
      (before ++ polygon :: after) openList
    = Ok (Some finalNode, openList').
Proof.
  intros Hnot Hok Hend Hid.
  induction before as [| q before IH]; intros openList.
  - cbn [app genInitNodes_polygons]. rewrite Hend.
    rewrite newSearchNode_at_goal by assumption. cbn [bind]. eauto.
  - inversion Hnot as [| ? ? Hq Hnot']; subst.
    inversion Hok as [| ? ? Hq' Hok']; subst.
    cbn [app genInitNodes_polygons]. rewrite Hq.
    destruct (Hq' openList) as [openList' ->]. cbn [bind].
    now apply IH.
Qed.

(** When the start and the end lie in one polygon, and seeding fails at no
    polygon of the start that comes before it, the path goes straight
    from the start to the end. *)
Lemma search_same_polygon (endLocation startLocation : PointLocation)
  (before after : list Polygon) (polygon : Polygon) :
  getPointLocation EPSILON mesh end_ = Ok endLocation ->
  getPointLocation EPSILON mesh start = Ok startLocation ->
  pl_type startLocation <> IN_OBSTACLE ->
  pl_polygons startLocation = before ++ polygon :: after ->
  isEndPolygon (pl_polygons endLocation) polygon = true ->
  Polygon_id polygon <> (-1)%Z ->
  Forall (fun q => isEndPolygon (pl_polygons endLocation) q = false) before ->
  Forall (fun q => forall openList, exists openList',
              genInitNodes_edges EPSILON mesh start end_ q
                (indices 0 (length (vertices q))) openList = Ok openList')
    before ->
  forall fuel,
    search EPSILON mesh start end_ fuel
    = Some (Ok ([start; end_], distance EPSILON start end_)).
Proof.
  intros Hend Hstart Htype Hpolys Hshared Hid Hnot Hok fuel.
  unfold search. rewrite Hend.
  rewrite (isEndPolygon_nonempty _ _ Hshared).
  unfold genInitNodes. rewrite Hstart. cbn [bind].
  destruct (genInitNodes_polygons_trivial (pl_polygons endLocation)
              before after polygon Hnot Hok Hshared Hid [])
    as (finalNode & openList' & Hgen).
  rewrite Hpolys.
  destruct (pl_type startLocation); try congruence; now rewrite Hgen.
Qed.

End SearchFacts.

(** ** The priority queue *)

Module HeapFacts.

Import PriorityQueue.
Local Open Scope nat_scope.

Section Ordered.

Variable T : Type.
Variable comparator : T -> T -> bool.

Hypothesis comparator_asym :
  forall a b, comparator a b = true -> comparator b a = false.
Hypothesis comparator_negtrans :
  forall a b c,
    comparator a b = false -> comparator b c = false -> comparator a c = false.

Lemma comparator_irrefl (a : T) : comparator a a = false.
Proof.
  destruct (comparator a a) eqn:E; [| reflexivity].
  now rewrite (comparator_asym a a E) in E.
Qed.

Lemma comparator_trans (a b c : T) :
  comparator a b = true -> comparator b c = true -> comparator a c = true.
Proof.
  intros Hab Hbc. destruct (comparator a c) eqn:E; [reflexivity |].
  pose proof (comparator_negtrans a c b E (comparator_asym b c Hbc)).
  congruence.
Qed.

(** *** Positions *)

Lemma parent_lt (i : nat) : 0 < i -> parent i < i.
Proof.
  intros H. unfold parent.
  pose proof (Nat.div_mod_eq (i + 1) 2).
  pose proof (Nat.mod_upper_bound (i + 1) 2). lia.
Qed.

Lemma parent_left (i : nat) : parent (left i) = i.
Proof.
  unfold parent, left.
  pose proof (Nat.div_mod_eq (2 * i + 1 + 1) 2).
  pose proof (Nat.mod_upper_bound (2 * i + 1 + 1) 2). lia.
Qed.

Lemma parent_right (i : nat) : parent (right i) = i.
Proof.
  unfold parent, right.
  pose proof (Nat.div_mod_eq (2 * (i + 1) + 1) 2).
  pose proof (Nat.mod_upper_bound (2 * (i + 1) + 1) 2). lia.
Qed.

Lemma parent_children (c n : nat) :
  0 < c -> parent c = n -> c = left n \/ c = right n.
Proof.
  unfold parent, left, right. intros Hc H.
  pose proof (Nat.div_mod_eq (c + 1) 2).
  pose proof (Nat.mod_upper_bound (c + 1) 2). lia.
Qed.

(** *** [update] and [swap] *)

Lemma length_update (heap : list T) (i : nat) (x : T) :
  length (update T heap i x) = length heap.
Proof.
  revert i. induction heap as [| y rest IH]; intros [| i]; simpl; auto.
Qed.

Lemma nth_error_update_eq (heap : list T) (i : nat) (x : T) :
  i < length heap -> nth_error (update T heap i x) i = Some x.
Proof.
  revert i. induction heap as [| y rest IH]; intros [| i] H; simpl in *;
    try lia; auto. apply IH. lia.
Qed.

Lemma nth_error_update_neq (heap : list T) (i j : nat) (x : T) :
  i <> j -> nth_error (update T heap i x) j = nth_error heap j.
Proof.
  revert i j. induction heap as [| y rest IH]; intros [| i] [| j] H;
    simpl; auto; try lia. 
Qed.

Lemma update_perm (heap : list T) (i : nat) (a b : T) :
  nth_error heap i = Some a ->
  Permutation (b :: heap) (a :: update T heap i b).
Proof.
  revert i. induction heap as [| y rest IH]; intros [| i] H; simpl in *;
    try discriminate.
  - injection H as ->. apply perm_swap.
  - apply perm_trans with (y :: b :: rest); [apply perm_swap |].
    apply perm_trans with (y :: a :: update T rest i b);
      [apply perm_skip; now apply IH | apply perm_swap].
Qed.

Lemma length_swap (heap : list T) (i j : nat) :
  length (swap T heap i j) = length heap.
Proof.
  unfold swap. destruct (nth_error heap i), (nth_error heap j); auto.
  now rewrite !length_update.
Qed.

Lemma nth_error_swap (heap : list T) (i j k : nat) :
  i < length heap -> j < length heap ->
  nth_error (swap T heap i j) k =
  if Nat.eqb k j then nth_error heap i
  else if Nat.eqb k i then nth_error heap j
       else nth_error heap k.
Proof.
  intros Hi Hj. unfold swap.
  destruct (nth_error heap i) as [a |] eqn:Ea.
  2:{ apply nth_error_None in Ea. lia. }
  destruct (nth_error heap j) as [b |] eqn:Eb.
  2:{ apply nth_error_None in Eb. lia. }
  destruct (Nat.eqb_spec k j) as [-> | Hkj].
  - apply nth_error_update_eq. now rewrite length_update.
  - rewrite nth_error_update_neq by congruence.
    destruct (Nat.eqb_spec k i) as [-> | Hki].
    + now apply nth_error_update_eq.
    + apply nth_error_update_neq. congruence.
Qed.

Lemma swap_perm (heap : list T) (i j : nat) :
  Permutation (swap T heap i j) heap.
Proof.
  unfold swap.
  destruct (nth_error heap i) as [a |] eqn:Ea; [| reflexivity].
  destruct (nth_error heap j) as [b |] eqn:Eb; [| reflexivity].
  assert (Hi : i < length heap) by (apply nth_error_Some; congruence).
  assert (Hj : j < length heap) by (apply nth_error_Some; congruence).
  pose proof (update_perm heap i a b Ea) as P1.
  assert (E : nth_error (update T heap i b) j = Some b).
  { destruct (Nat.eq_dec i j) as [-> | Hij].
    - now apply nth_error_update_eq.
    - now rewrite nth_error_update_neq. }
  pose proof (update_perm (update T heap i b) j b a E) as P2.
  apply Permutation_cons_inv with (a := b).
  apply perm_trans with (a :: update T heap i b).
  - now apply Permutation_sym.
  - now apply Permutation_sym.
Qed.

(** *** [_siftUp] *)

Lemma siftUp_loop_perm (fuel : nat) :
  forall (heap : list T) (node : nat),
    Permutation (siftUp_loop T comparator fuel heap node) heap.
Proof.
  induction fuel as [| fuel IH]; intros heap node; cbn [siftUp_loop].
  - reflexivity.
  - destruct (Nat.ltb 0 node && greater T comparator heap node (parent node)).
    + apply perm_trans with (swap T heap node (parent node));
        [apply IH | apply swap_perm].
    + reflexivity.
Qed.

Lemma greater_true (heap : list T) (i j : nat) :
  greater T comparator heap i j = true ->
  exists a b, nth_error heap i = Some a /\ nth_error heap j = Some b
              /\ comparator a b = true.
Proof.
  unfold greater.
  destruct (nth_error heap i) as [a |]; [| discriminate].
  destruct (nth_error heap j) as [b |]; [| discriminate].
  eauto.
Qed.

Lemma greater_false (heap : list T) (i j : nat) (a b : T) :
  greater T comparator heap i j = false ->
  nth_error heap i = Some a -> nth_error heap j = Some b ->
  comparator a b = false.
Proof. unfold greater. intros H Ha Hb. now rewrite Ha, Hb in H. Qed.

Lemma siftUp_loop_ordered (fuel : nat) :
  forall (heap : list T) (node : nat),
    node <= fuel -> node < length heap ->
    orderedExcept T comparator heap node ->
    heapOrdered T comparator (siftUp_loop T comparator fuel heap node).
Proof.
  induction fuel as [| fuel IH]; intros heap node Hfuel Hnode [H1 H2];
    cbn [siftUp_loop].
  - intros i a b Hi Ha Hb. apply (H1 i a b); auto. lia.
  - destruct (Nat.ltb_spec 0 node) as [Hpos | Hzero]; cbn [andb].
    2:{ intros i a b Hi Ha Hb. apply (H1 i a b); auto. lia. }
    destruct (greater T comparator heap node (parent node)) eqn:G.
    2:{ intros i a b Hi Ha Hb.
        destruct (Nat.eq_dec i node) as [-> | Hne].
        - exact (greater_false _ _ _ _ _ G Ha Hb).
        - apply (H1 i a b); auto. }
    destruct (greater_true _ _ _ G) as (a & b & Ha & Hb & Hab).
    pose proof (parent_lt node Hpos) as Hp.
    assert (Hplen : parent node < length heap) by lia.
    apply IH; [lia | now rewrite length_swap |].
    split.
    + intros i x y Hi Hip Hx Hy.
      rewrite nth_error_swap in Hx, Hy by assumption.
      destruct (Nat.eqb_spec i (parent node)) as [-> | _]; [congruence |].
      destruct (Nat.eqb_spec i node) as [-> | Hin].
      * (* the entry moved down *)
        rewrite Nat.eqb_refl in Hy.
        assert (x = b) by congruence. assert (y = a) by congruence. subst.
        now apply comparator_asym.
      * destruct (Nat.eqb_spec (parent i) (parent node)) as [Epp | Npp].
        -- (* the other child of the parent *)
           assert (y = a) by congruence. subst y.
           pose proof (H1 i x b Hi Hin Hx) as Hxb.
           rewrite Epp in Hxb. specialize (Hxb Hb).
           destruct (comparator x a) eqn:Exa; [| reflexivity].
           pose proof (comparator_trans x a b Exa Hab). congruence.
        -- destruct (Nat.eqb_spec (parent i) node) as [Epn | Npn].
           ++ (* a child of the entry moved down *)
              assert (y = b) by congruence. subst y.
              apply (H2 i x b); auto.
           ++ apply (H1 i x y); auto.
    + intros c x y Hppos Hc Hcp Hx Hy.
      pose proof (parent_lt (parent node) Hppos) as Hpp.
      rewrite nth_error_swap in Hx, Hy by assumption.
      destruct (Nat.eqb_spec (parent (parent node)) (parent node)); [lia |].
      destruct (Nat.eqb_spec (parent (parent node)) node); [lia |].
      pose proof (parent_lt c Hc) as Hcl.
      destruct (Nat.eqb_spec c (parent node)); [lia |].
      destruct (Nat.eqb_spec c node) as [-> | Hcn].
      * assert (x = b) by congruence. subst x.
        apply (H1 (parent node) b y); auto; lia.
      * pose proof (H1 c x b Hc Hcn Hx) as Hxb.
        rewrite Hcp in Hxb. specialize (Hxb Hb).
        apply comparator_negtrans with (b := b); [exact Hxb |].
        apply (H1 (parent node) b y); auto; lia.
Qed.

Lemma nth_error_snoc_inside (heap : list T) (value : T) (i : nat) :
  i < length heap -> nth_error (heap ++ [value]) i = nth_error heap i.
Proof. intros H. now apply nth_error_app1. Qed.

Lemma siftUp_ordered (heap : list T) (value : T) :
  heapOrdered T comparator heap ->
  heapOrdered T comparator (siftUp T comparator (heap ++ [value])).
Proof.
  intros H. unfold siftUp, size.
  assert (L : length (heap ++ [value]) = S (length heap)).
  { rewrite length_app. simpl. lia. }
  apply siftUp_loop_ordered; [lia | lia |].
  rewrite L. replace (S (length heap) - 1) with (length heap) by lia.
  split.
  - intros i a b Hi Hne Ha Hb.
    assert (Hlt : i < length heap).
    { assert (i < length (heap ++ [value]))
        by (apply nth_error_Some; congruence). lia. }
    pose proof (parent_lt i Hi).
    rewrite nth_error_snoc_inside in Ha, Hb by lia.
    now apply (H i a b).
  - intros c a b _ Hc Hcp Ha _.
    assert (c < length (heap ++ [value]))
      by (apply nth_error_Some; congruence).
    pose proof (parent_lt c Hc). lia.
Qed.

Lemma push_ordered (values : list T) :
  forall heap,
    heapOrdered T comparator heap ->
    heapOrdered T comparator (push T comparator heap values).
Proof.
  unfold push.
  induction values as [| value rest IH]; intros heap H; cbn [fold_left].
  - exact H.
  - apply IH. now apply siftUp_ordered.
Qed.

Lemma push_perm (values : list T) :
  forall heap,
    Permutation (push T comparator heap values) (heap ++ values).
Proof.
  unfold push.
  induction values as [| value rest IH]; intros heap; cbn [fold_left].
  - now rewrite app_nil_r.
  - apply perm_trans with (siftUp T comparator (heap ++ [value]) ++ rest);
      [apply IH |].
    replace (heap ++ value :: rest) with ((heap ++ [value]) ++ rest)
      by now rewrite <- app_assoc.
    apply Permutation_app_tail. apply siftUp_loop_perm.
Qed.

(** *** [_siftDown] *)

Lemma siftDown_loop_perm (fuel : nat) :
  forall (heap : list T) (node : nat),
    Permutation (siftDown_loop T comparator fuel heap node) heap.
Proof.
  induction fuel as [| fuel IH]; intros heap node; cbn [siftDown_loop].
  - reflexivity.
  - destruct ((Nat.ltb (left node) (size T heap)
               && greater T comparator heap (left node) node)
              || (Nat.ltb (right node) (size T heap)
                  && greater T comparator heap (right node) node)).
    + eapply perm_trans; [apply IH | apply swap_perm].
    + reflexivity.
Qed.

Lemma siftDown_loop_ordered (fuel : nat) :
  forall (heap : list T) (node : nat),
    length heap <= node + fuel ->
    orderedBelow T comparator heap node ->
    heapOrdered T comparator (siftDown_loop T comparator fuel heap node).
Proof.
  induction fuel as [| fuel IH]; intros heap node Hfuel [H1 H2];
    cbn [siftDown_loop].
  - intros i a b Hi Ha Hb. apply (H1 i a b); auto.
    assert (i < length heap) by (apply nth_error_Some; congruence).
    pose proof (parent_lt i Hi). lia.
  - unfold size.
    destruct ((Nat.ltb (left node) (length heap)
               && greater T comparator heap (left node) node)
              || (Nat.ltb (right node) (length heap)
                  && greater T comparator heap (right node) node)) eqn:Cond.
    2:{ (* neither child goes before the entry *)
        apply orb_false_iff in Cond. destruct Cond as [CL CR].
        intros i a b Hi Ha Hb.
        destruct (Nat.eq_dec (parent i) node) as [Ep | Np].
        2:{ apply (H1 i a b); auto. }
        assert (Hlen : i < length heap) by (apply nth_error_Some; congruence).
        rewrite Ep in Hb.
        destruct (parent_children i node Hi Ep) as [-> | ->].
        - apply Nat.ltb_lt in Hlen. rewrite Hlen in CL. cbn [andb] in CL.
          exact (greater_false _ _ _ _ _ CL Ha Hb).
        - apply Nat.ltb_lt in Hlen. rewrite Hlen in CR. cbn [andb] in CR.
          exact (greater_false _ _ _ _ _ CR Ha Hb). }
    set (l := left node) in *. set (r := right node) in *.
    assert (Hlr : r = S l) by (unfold l, r, left, right; lia).
    assert (Hnl : node < l) by (unfold l, left; lia).
    assert (Hpl : parent l = node) by apply parent_left.
    assert (Hpr : parent r = node) by apply parent_right.
    (* the left child exists *)
    assert (Hl : l < length heap).
    { apply orb_true_iff in Cond.
      destruct Cond as [C | C]; apply andb_true_iff in C;
        destruct C as [C _]; apply Nat.ltb_lt in C; lia. }
    destruct (nth_error heap node) as [an |] eqn:Ean.
    2:{ apply nth_error_None in Ean. lia. }
    destruct (nth_error heap l) as [al |] eqn:Eal.
    2:{ apply nth_error_None in Eal. lia. }
    destruct (Nat.ltb r (length heap)
              && greater T comparator heap r l) eqn:Pick.
    + (* the right child goes first *)
      apply andb_true_iff in Pick. destruct Pick as [Hr Grl].
      apply Nat.ltb_lt in Hr.
      destruct (greater_true _ _ _ Grl) as (ar & al' & Ear & Eal' & Crl).
      assert (al' = al) by congruence. subst al'.
      assert (Cnr : comparator an ar = false).
      { apply orb_true_iff in Cond. destruct Cond as [C | C];
          apply andb_true_iff in C; destruct C as [_ C];
          destruct (greater_true _ _ _ C) as (x & y & Ex & Ey & Cxy).
        - assert (x = al) by congruence. assert (y = an) by congruence. subst x y.
          apply comparator_asym. now apply comparator_trans with (b := al).
        - assert (x = ar) by congruence. assert (y = an) by congruence. subst x y.
          now apply comparator_asym. }
      apply IH; [rewrite length_swap; lia |].
      split.
      * intros i x y Hi Hip Hx Hy.
        pose proof (parent_lt i Hi) as Hpi.
        rewrite nth_error_swap in Hx, Hy by lia.
        destruct (Nat.eqb_spec i r) as [-> | Hir].
        -- rewrite Hpr in Hy.
           destruct (Nat.eqb_spec node r); [lia |].
           rewrite Nat.eqb_refl in Hy.
           assert (x = an) by congruence. assert (y = ar) by congruence.
           subst x y. exact Cnr.
        -- destruct (Nat.eqb_spec (parent i) r) as [| _]; [congruence |].
           destruct (Nat.eqb_spec i node) as [-> | Hin].
           ++ destruct (Nat.eqb_spec (parent node) node); [lia |].
              assert (x = ar) by congruence. subst x.
              apply (H2 r ar y); auto; lia.
           ++ destruct (Nat.eqb_spec (parent i) node) as [Epn | Npn].
              ** destruct (parent_children i node Hi Epn) as [E | E];
                   fold l in E; fold r in E; [| congruence].
                 rewrite E in Hx.
                 assert (x = al) by congruence.
                 assert (y = ar) by congruence. subst x y.
                 now apply comparator_asym.
              ** apply (H1 i x y); auto.
      * intros c x y _ Hc Hcp Hx Hy.
        pose proof (parent_lt c Hc) as Hpc.
        rewrite nth_error_swap in Hx, Hy by lia.
        rewrite Hpr in Hy.
        destruct (Nat.eqb_spec node r); [lia |].
        rewrite Nat.eqb_refl in Hy.
        destruct (Nat.eqb_spec c r); [lia |].
        destruct (Nat.eqb_spec c node); [lia |].
        assert (y = ar) by congruence. subst y.
        apply (H1 c x ar); auto; try lia. now rewrite Hcp.
    + (* the left child goes first *)
      assert (Cnl : comparator an al = false).
      { apply orb_true_iff in Cond. destruct Cond as [C | C];
          apply andb_true_iff in C; destruct C as [Hlt C];
          destruct (greater_true _ _ _ C) as (x & y & Ex & Ey & Cxy).
        - assert (x = al) by congruence. assert (y = an) by congruence. subst x y.
          now apply comparator_asym.
        - assert (y = an) by congruence. subst y.
          rewrite Hlt in Pick. cbn [andb] in Pick.
          pose proof (greater_false _ _ _ _ _ Pick Ex Eal) as Cxl.
          destruct (comparator an al) eqn:E; [| reflexivity].
          pose proof (comparator_trans x an al Cxy E). congruence. }
      apply IH; [rewrite length_swap; lia |].
      split.
      * intros i x y Hi Hip Hx Hy.
        pose proof (parent_lt i Hi) as Hpi.
        rewrite nth_error_swap in Hx, Hy by lia.
        destruct (Nat.eqb_spec i l) as [-> | Hil].
        -- rewrite Hpl in Hy.
           destruct (Nat.eqb_spec node l); [lia |].
           rewrite Nat.eqb_refl in Hy.
           assert (x = an) by congruence. assert (y = al) by congruence.
           subst x y. exact Cnl.
        -- destruct (Nat.eqb_spec (parent i) l) as [| _]; [congruence |].
           destruct (Nat.eqb_spec i node) as [-> | Hin].
           ++ destruct (Nat.eqb_spec (parent node) node); [lia |].
              assert (x = al) by congruence. subst x.
              apply (H2 l al y); auto; lia.
           ++ destruct (Nat.eqb_spec (parent i) node) as [Epn | Npn].
              ** destruct (parent_children i node Hi Epn) as [E | E];
                   fold l in E; fold r in E; [congruence |].
                 rewrite E in Hx.
                 assert (y = al) by congruence. subst y.
                 assert (Hr : r < length heap)
                   by (apply nth_error_Some; congruence).
                 apply Nat.ltb_lt in Hr. rewrite Hr in Pick.
                 cbn [andb] in Pick.
                 exact (greater_false _ _ _ _ _ Pick Hx Eal).
              ** apply (H1 i x y); auto.
      * intros c x y _ Hc Hcp Hx Hy.
        pose proof (parent_lt c Hc) as Hpc.
        rewrite nth_error_swap in Hx, Hy by lia.
        rewrite Hpl in Hy.
        destruct (Nat.eqb_spec node l); [lia |].
        rewrite Nat.eqb_refl in Hy.
        destruct (Nat.eqb_spec c l); [lia |].
        destruct (Nat.eqb_spec c node); [lia |].
        assert (y = al) by congruence. subst y.
        apply (H1 c x al); auto; try lia. now rewrite Hcp.
Qed.

(** *** The loops end before their fuel *)

Lemma siftUp_loop_S (fuel : nat) (heap : list T) (node : nat) :
  siftUp_loop T comparator (S fuel) heap node
  = if Nat.ltb 0 node && greater T comparator heap node (parent node)
    then siftUp_loop T comparator fuel
           (swap T heap node (parent node)) (parent node)
    else heap.
Proof. reflexivity. Qed.

Lemma siftUp_loop_more (fuel : nat) :
  forall (heap : list T) (node : nat),
    node <= fuel ->
    siftUp_loop T comparator (S fuel) heap node
    = siftUp_loop T comparator fuel heap node.
Proof.
  induction fuel as [| fuel IH]; intros heap node H.
  - assert (node = 0) by lia. subst node. reflexivity.
  - rewrite (siftUp_loop_S (S fuel) heap node), (siftUp_loop_S fuel heap node).
    destruct (Nat.ltb_spec 0 node) as [Hpos | Hzero]; cbn [andb];
      [| reflexivity].
    destruct (greater T comparator heap node (parent node)); [| reflexivity].
    apply IH. pose proof (parent_lt node Hpos). lia.
Qed.

Lemma siftDown_loop_S (fuel : nat) (heap : list T) (node : nat) :
  siftDown_loop T comparator (S fuel) heap node
  = if (Nat.ltb (left node) (size T heap)
        && greater T comparator heap (left node) node)
       || (Nat.ltb (right node) (size T heap)
           && greater T comparator heap (right node) node)
    then
      siftDown_loop T comparator fuel
        (swap T heap node
           (if Nat.ltb (right node) (size T heap)
               && greater T comparator heap (right node) (left node)
            then right node else left node))
        (if Nat.ltb (right node) (size T heap)
            && greater T comparator heap (right node) (left node)
         then right node else left node)
    else heap.
Proof. reflexivity. Qed.

Lemma siftDown_loop_more (fuel : nat) :
  forall (heap : list T) (node : nat),
    length heap <= node + fuel ->
    siftDown_loop T comparator (S fuel) heap node
    = siftDown_loop T comparator fuel heap node.
Proof.
  induction fuel as [| fuel IH]; intros heap node H.
  - cbn [siftDown_loop]. unfold size.
    destruct (Nat.ltb_spec (left node) (length heap)) as [Hl | _];
      [unfold left in Hl; lia |].
    destruct (Nat.ltb_spec (right node) (length heap)) as [Hr | _];
      [unfold right in Hr; lia |].
    reflexivity.
  - rewrite (siftDown_loop_S (S fuel) heap node),
      (siftDown_loop_S fuel heap node).
    destruct ((Nat.ltb (left node) (size T heap)
               && greater T comparator heap (left node) node)
              || (Nat.ltb (right node) (size T heap)
                  && greater T comparator heap (right node) node));
      [| reflexivity].
    apply IH. rewrite length_swap.
    destruct (Nat.ltb (right node) (size T heap)
              && greater T comparator heap (right node) (left node));
      unfold left, right; lia.
Qed.

(** *** [pop] *)

Lemma length_removelast (heap : list T) :
  length (removelast heap) = length heap - 1.
Proof.
  induction heap as [| x [| y rest] IH]; cbn [removelast length] in *; lia.
Qed.

Lemma nth_error_removelast (heap : list T) (i : nat) :
  i < length heap - 1 ->
  nth_error (removelast heap) i = nth_error heap i.
Proof.
  revert i. induction heap as [| x [| y rest] IH]; intros i H;
    cbn [length] in H; try lia.
  cbn [removelast]. destruct i as [| i]; [reflexivity |].
  cbn [nth_error]. apply IH. cbn [length]. lia.
Qed.

Lemma removelast_last (heap : list T) (x : T) :
  nth_error heap (length heap - 1) = Some x ->
  heap = removelast heap ++ [x].
Proof.
  induction heap as [| y [| z rest] IH]; intros H.
  - discriminate.
  - cbn in H. injection H as ->. reflexivity.
  - cbn [removelast app]. f_equal. apply IH.
    cbn [length] in *. replace (S (S (length rest)) - 1) with
      (S (S (length rest) - 1)) in H by lia.
    exact H.
Qed.

Lemma top_minimal (heap : list T) (x : T) :
  heapOrdered T comparator heap ->
  nth_error heap 0 = Some x ->
  forall (i : nat) (y : T), nth_error heap i = Some y -> comparator y x = false.
Proof.
  intros H Hx i. induction i as [i IH] using lt_wf_ind. intros y Hy.
  destruct (Nat.eq_dec i 0) as [-> | Hi].
  - assert (y = x) by congruence. subst. apply comparator_irrefl.
  - assert (Hpos : 0 < i) by lia.
    pose proof (parent_lt i Hpos) as Hp.
    assert (Hlen : i < length heap) by (apply nth_error_Some; congruence).
    destruct (nth_error heap (parent i)) as [z |] eqn:Ez.
    2:{ apply nth_error_None in Ez. lia. }
    apply comparator_negtrans with (b := z).
    + now apply (H i y z).
    + now apply (IH (parent i)).
Qed.

Lemma pop_empty :
  pop T comparator [] = Throw "Cannot pop from an empty priority queue".
Proof. reflexivity. Qed.

Lemma pop_ordered (x : T) (rest : list T) :
  heapOrdered T comparator (x :: rest) ->
  exists heap',
    pop T comparator (x :: rest) = Ok (x, heap')
    /\ Permutation (x :: rest) (x :: heap')
    /\ (forall y, In y (x :: rest) -> comparator y x = false)
    /\ heapOrdered T comparator heap'.
Proof.
  intros H. set (heap := x :: rest) in *.
  set (heap1 := if Nat.ltb 0 (size T heap - 1)
                then swap T heap top (size T heap - 1) else heap).
  exists (siftDown T comparator (removelast heap1)).
  assert (Hlen1 : length heap1 = length heap).
  { unfold heap1. destruct (Nat.ltb 0 (size T heap - 1)); [| reflexivity].
    apply length_swap. }
  assert (Hlast : nth_error heap1 (length heap1 - 1) = Some x).
  { rewrite Hlen1. unfold heap1, size.
    destruct (Nat.ltb_spec 0 (length heap - 1)) as [Hn | Hn].
    - rewrite nth_error_swap by (unfold top, heap in *; cbn [length] in *; lia).
      now rewrite Nat.eqb_refl.
    - replace (length heap - 1) with 0 by lia. reflexivity. }
  assert (Hin : forall i, 0 < i -> i < length heap - 1 ->
                          nth_error (removelast heap1) i = nth_error heap i).
  { intros i Hi Hlt. rewrite nth_error_removelast by lia.
    unfold heap1, size.
    destruct (Nat.ltb_spec 0 (length heap - 1)) as [Hn | Hn]; [| lia].
    rewrite nth_error_swap by (unfold top; lia).
    destruct (Nat.eqb_spec i (length heap - 1)); [lia |].
    destruct (Nat.eqb_spec i top); [unfold top in *; lia | reflexivity]. }
  repeat split.
  - apply perm_trans with heap1.
    + unfold heap1. destruct (Nat.ltb 0 (size T heap - 1)); [| reflexivity].
      apply Permutation_sym, swap_perm.
    + rewrite (removelast_last heap1 x Hlast) at 1.
      apply perm_trans with (x :: removelast heap1).
      * apply Permutation_sym, Permutation_cons_append.
      * apply perm_skip, Permutation_sym, siftDown_loop_perm.
  - intros y Hy. apply In_nth_error in Hy. destruct Hy as [i Hi].
    now apply (top_minimal heap x H eq_refl i).
  - unfold siftDown. apply siftDown_loop_ordered; [unfold size, top; lia |].
    split.
    + intros i a b Hi Hp Ha Hb.
      assert (Hlt : i < length (removelast heap1))
        by (apply nth_error_Some; congruence).
      rewrite length_removelast, Hlen1 in Hlt.
      pose proof (parent_lt i Hi) as Hpi. unfold top in Hp.
      rewrite Hin in Ha, Hb by lia.
      now apply (H i a b).
    + unfold top. intros c a b Hc. lia.
Qed.

(** The queues built by [push] and [pop] are heaps. *)
Lemma reachable_ordered (heap : list T) :
  reachable T comparator heap -> heapOrdered T comparator heap.
Proof.
  induction 1 as [| heap values _ IH | heap heap' x _ IH Hpop].
  - intros i a b _ Ha. destruct i; discriminate.
  - now apply push_ordered.
  - destruct heap as [| y rest]; [discriminate |].
    destruct (pop_ordered y rest IH) as (h' & Hp & _ & _ & Ho).
    rewrite Hp in Hpop. now injection Hpop as _ <-.
Qed.

End Ordered.

End HeapFacts.

(** ** The order of the open list *)

Lemma lt_iff_precedes (a b : SearchNode) : lt a b = true <-> precedes a b.
Proof.
  unfold lt, precedes, num_gt.
  destruct (num_eq (node_f a) (node_f b)) eqn:E; rewrite num_lt_iff.
  - apply num_eq_iff in E. split.
    + intros H. right. split; lra.
    + intros [H | [_ H]]; lra.
  - assert (Hne : node_f a <> node_f b).
    { intros H. apply num_eq_iff in H. congruence. }
    split.
    + intros H. left. exact H.
    + intros [H | [H _]]; [exact H | contradiction].
Qed.

Lemma lt_false_iff (a b : SearchNode) : lt a b = false <-> ~ precedes a b.
Proof.
  rewrite <- lt_iff_precedes. destruct (lt a b); split; intros; easy.
Qed.

Lemma lt_asym (a b : SearchNode) : lt a b = true -> lt b a = false.
Proof.
  rewrite lt_iff_precedes, lt_false_iff. unfold precedes. lra.
Qed.

Lemma lt_negtrans (a b c : SearchNode) :
  lt a b = false -> lt b c = false -> lt a c = false.
Proof.
  rewrite !lt_false_iff. unfold precedes. intros H1 H2 H3.
  destruct (Rtotal_order (node_f a) (node_f b)) as [H | [H | H]];
    destruct (Rtotal_order (node_f b) (node_f c)) as [H' | [H' | H']];
    destruct (Rtotal_order (node_g a) (node_g b)) as [G | [G | G]];
    destruct (Rtotal_order (node_g b) (node_g c)) as [G' | [G' | G']];
    lra.
Qed.

(** C9: [pop] on the open list.  On an empty queue it throws; on a queue
    built by [push] and [pop] it returns an entry of the queue that no
    entry precedes, and leaves the other entries. *)
Theorem openList_pop_minimal (openList : list SearchNode) :
  PriorityQueue.reachable SearchNode lt openList ->
  (openList = [] ->
   exists msg, PriorityQueue.pop SearchNode lt openList = Throw msg)
  /\ (openList <> [] ->
      exists node openList',
        PriorityQueue.pop SearchNode lt openList = Ok (node, openList')
        /\ Permutation openList (node :: openList')
        /\ forall other, In other openList -> ~ precedes other node).
Proof.
  intros Hreach.
  pose proof (HeapFacts.reachable_ordered SearchNode lt lt_asym lt_negtrans
                openList Hreach) as Hord.
  split.
  - intros ->. eexists. apply HeapFacts.pop_empty.
  - intros Hne. destruct openList as [| x rest]; [congruence |].
    destruct (HeapFacts.pop_ordered SearchNode lt lt_asym lt_negtrans x rest Hord)
      as (heap' & Hpop & Hperm & Hmin & _).
    exists x, heap'. repeat split; auto.
    intros other Hin. apply lt_false_iff. now apply Hmin.
Qed.

Lemma openList_pop_minimal_witness :
  PriorityQueue.reachable SearchNode lt
    (PriorityQueue.push SearchNode lt [] [nodeOne; nodeTwo])
  /\ exists node openList',
      PriorityQueue.pop SearchNode lt
        (PriorityQueue.push SearchNode lt [] [nodeOne; nodeTwo])
      = Ok (node, openList')
      /\ Permutation (PriorityQueue.push SearchNode lt [] [nodeOne; nodeTwo])
           (node :: openList')
      /\ forall other,
          In other (PriorityQueue.push SearchNode lt [] [nodeOne; nodeTwo]) ->
          ~ precedes other node.
Proof.
  assert (R : PriorityQueue.reachable SearchNode lt
                (PriorityQueue.push SearchNode lt [] [nodeOne; nodeTwo])).
  { apply PriorityQueue.reachable_push, PriorityQueue.reachable_new. }
  split; [exact R |].
  apply (proj2 (openList_pop_minimal _ R)).
  intros E.
  pose proof (HeapFacts.push_perm SearchNode lt [nodeOne; nodeTwo] []) as P.
  rewrite E in P. apply Permutation_nil in P. discriminate.
Defined.

(** ** C1: start and end in one polygon *)

(** C1 fails on the code.  In the turn mesh the start [C] and the end, the
    north pole, are both vertices of the polygon [(N, W, A, C)].  The
    triangle [(C, A, B)] comes first among the polygons of the start; its
    edge from [A] to [B] spans 45 degrees and the pole lies on its normal,
    so the reflection of the goal made for the heuristic is the zero
    vector and [search] throws. *)
Theorem search_same_polygon_throws (EPSILON : R) :
  0 < EPSILON < 1 / 2 ->
  read turnFile = Ok turnMesh
  /\ (exists startLocation endLocation,
         getPointLocation EPSILON turnMesh pC = Ok startLocation
         /\ getPointLocation EPSILON turnMesh pN = Ok endLocation
         /\ In polyNWAC (pl_polygons startLocation)
         /\ In polyNWAC (pl_polygons endLocation))
  /\ forall fuel,
       search EPSILON turnMesh pC pN fuel
       = Some (Throw "Cannot create a point from a zero vector").
Proof.
  intros [Hpos Hsmall]. split; [exact read_turnFile |]. split.
  - do 2 eexists.
    rewrite getPointLocation_turnMesh_C, getPointLocation_turnMesh_N
      by assumption.
    repeat split; cbn [pl_polygons In]; auto.
  - intros fuel. now apply search_turnMesh_throws.
Qed.

Lemma search_same_polygon_throws_witness :
  0 < / 1000 < 1 / 2
  /\ search (/ 1000) turnMesh pC pN 0
     = Some (Throw "Cannot create a point from a zero vector").
Proof.
  assert (H : 0 < / 1000 < 1 / 2) by lra.
  split; [exact H |].
  exact (proj2 (proj2 (search_same_polygon_throws (/ 1000) H)) 0%nat).
Defined.

(** ** C2 and C3 on the examples *)

Lemma tolerance_example : 0 < / 1000 /\ / 1000 < 1 / 2.
Proof. lra. Qed.

Lemma getPointLocation_faceMesh_N (EPSILON : R) :
  0 < EPSILON -> EPSILON < 1 / 2 ->
  getPointLocation EPSILON faceMesh pN = Ok (mkPointLocation IN_OBSTACLE [] []).
Proof.
  intros Hpos Hsmall. unfold getPointLocation.
  cbn [Mesh_polygons faceMesh getPointLocation_loop].
  rewrite (containsPoint_CAB_N EPSILON Hpos Hsmall faceMesh faceCAB fC fA fB)
    by reflexivity.
  reflexivity.
Qed.

Lemma search_no_path_witness :
  (exists endLocation,
      getPointLocation (/ 1000) faceMesh pN = Ok endLocation
      /\ pl_type endLocation = IN_OBSTACLE)
  /\ exists fuel0, forall fuel, (fuel0 <= fuel)%nat ->
       search (/ 1000) faceMesh pC pN fuel = Some (Ok ([], 0)).
Proof.
  destruct tolerance_example as [Hpos Hsmall].
  assert (H : exists endLocation,
             getPointLocation (/ 1000) faceMesh pN = Ok endLocation
             /\ pl_type endLocation = IN_OBSTACLE).
  { eexists. split; [now apply getPointLocation_faceMesh_N | reflexivity]. }
  split; [exact H |].
  apply (search_no_path (/ 1000) faceMesh pC pN). left. exact H.
Defined.

Lemma containsPoint_NWAC_N (EPSILON : R) (mesh : Mesh) :
  0 < EPSILON ->
  containsPoint EPSILON mesh polyNWAC pN
  = Ok (mkPolyContainment ON_VERTEX Obstacle [vN]).
Proof.
  intros Hpos. unfold containsPoint.
  change (length (vertices polyNWAC)) with 4%nat.
  apply (containsPoint_loop_vertex EPSILON mesh polyNWAC pN 3 0 vN vW);
    try reflexivity.
  now apply equals_refl.
Qed.

Lemma genFinalNode_turn_witness :
  containsPoint (/ 1000) turnMesh (nextPolygon nodeThroughCA)
    (node_goal nodeThroughCA)
  = Ok (mkPolyContainment ON_VERTEX Obstacle [vN])
  /\ genFinalNode (/ 1000) turnMesh nodeThroughCA
     = Ok (mkSearchNode (Some nodeThroughCA)
             (fst (terminalTurn (/ 1000) nodeThroughCA)) pN pN None None
             polyNWAC (snd (terminalTurn (/ 1000) nodeThroughCA))
             (distance (/ 1000) (fst (terminalTurn (/ 1000) nodeThroughCA)) pN)
             pN).
Proof.
  destruct tolerance_example as [Hpos Hsmall].
  assert (H : containsPoint (/ 1000) turnMesh (nextPolygon nodeThroughCA)
                (node_goal nodeThroughCA)
              = Ok (mkPolyContainment ON_VERTEX Obstacle [vN])).
  { now apply containsPoint_NWAC_N. }
  split; [exact H |].
  apply (genFinalNode_turn (/ 1000) turnMesh nodeThroughCA
           (mkPolyContainment ON_VERTEX Obstacle [vN]) Hpos);
    [discriminate | exact H | discriminate].
Defined.

(** The terminal node of the example turns at [C]. *)
Lemma terminalTurn_nodeThroughCA :
  terminalTurn (/ 1000) nodeThroughCA = (pC, 0 + distance (/ 1000) pB pC).
Proof.
  destruct tolerance_example as [Hpos Hsmall].
  unfold terminalTurn, nodeThroughCA.
  cbn [node_root node_right node_left node_goal node_g].
  now rewrite orientation_B_C_N.
Qed.

Lemma orientation_N_C_A (EPSILON : R) :
  0 < EPSILON -> getOrientation EPSILON pN pC pA = COLLINEAR.
Proof. intros H. apply getOrientation_collinear. coordinates. nra. Qed.

Lemma newSearchNode_nodeThroughCA :
  newSearchNode (/ 1000) None pB pC pA (Some vC) (Some vA) polyNWAC 0 pN
  = Ok nodeThroughCA.
Proof.
  destruct tolerance_example as [Hpos Hsmall].
  apply newSearchNode_total.
  - rewrite orientation_B_C_A by assumption. discriminate.
  - discriminate.
  - unfold foldedGoal. now rewrite orientation_N_C_A.
Qed.

(** ** C8: vertices between two obstacle sectors *)

Lemma findIndex_from_range (polygons todo : list Z) (i : Z) :
  (0 <= i)%Z ->
  Old.findIndex_from polygons todo i = (-1)%Z
  \/ (i <= Old.findIndex_from polygons todo i)%Z.
Proof.
  revert i. induction todo as [| p rest IH]; intros i Hi;
    cbn [Old.findIndex_from].
  - now left.
  - destruct ((p =? -1)%Z && _); [right; lia |].
    destruct (IH (i + 1)%Z ltac:(lia)) as [H | H]; [now left | right; lia].
Qed.

(** The check of the earlier reader refuses a vertex only when its first
    two sectors are obstacles: the position the search finds is used as
    the condition, and every position but the first one holds. *)
Lemma old_check_refuses_iff (p : Z) (rest : list Z) :
  Old.truthy (Old.findAdjacentObstacles (p :: rest)) = false
  <-> p = (-1)%Z /\ ring (p :: rest) 1 = Some (-1)%Z.
Proof.
  unfold Old.truthy, Old.findAdjacentObstacles.
  cbn [Old.findIndex_from]. change (0 + 1)%Z with 1%Z.
  destruct (p =? -1)%Z eqn:Ep; cbn [andb].
  - apply Z.eqb_eq in Ep.
    destruct (ring (p :: rest) 1) as [q |] eqn:Eq.
    + destruct (q =? -1)%Z eqn:E.
      * apply Z.eqb_eq in E. subst. cbn. tauto.
      * apply Z.eqb_neq in E.
        destruct (findIndex_from_range (p :: rest) rest 1 ltac:(lia))
          as [H | H].
        -- rewrite H. cbn. split; [discriminate |].
           intros [_ [= H']]. congruence.
        -- split.
           ++ intros H'. apply negb_false_iff, Z.eqb_eq in H'. lia.
           ++ intros [_ [= H']]. congruence.
    + destruct (findIndex_from_range (p :: rest) rest 1 ltac:(lia))
        as [H | H].
      * rewrite H. cbn. split; [discriminate | intros [_ H']; discriminate].
      * split.
        -- intros H'. apply negb_false_iff, Z.eqb_eq in H'. lia.
        -- intros [_ H']. discriminate.
  - apply Z.eqb_neq in Ep.
    destruct (findIndex_from_range (p :: rest) rest 1 ltac:(lia)) as [H | H].
    + rewrite H. cbn. split; [discriminate | tauto].
    + split.
      * intros H'. apply negb_false_iff, Z.eqb_eq in H'. lia.
      * tauto.
Qed.

(** C8 fails on the code.  The vertex line [45 0 3 0 -1 -1] has two
    neighbouring obstacle sectors; [Mesh.read] makes no check of the
    sectors and returns the mesh, and the check of the earlier reader
    lets the line through as well. *)
Theorem read_accepts_adjacent_obstacles :
  adjacentObstacles [0; -1; -1]%Z
  /\ read adjacentFile = Ok adjacentMesh
  /\ Old.readVertex 1 (mkVertexLine 45 0 3 [0; -1; -1]%Z)
     = Ok (Old.mkVertex pC true true [0; -1; -1]%Z).
Proof.
  split; [| split].
  - exists 1%nat. split; reflexivity.
  - unfold read.
    change (mapM (readVertex adjacentFile)
              (indices 0 (Z.to_nat (file_V adjacentFile))))
      with (mapM (readVertex adjacentFile) [0; 1; 2]%Z).
    cbn [mapM].
    repeat (erewrite readVertex_ok;
            [| reflexivity | reflexivity | reflexivity
             | simpl; lra | simpl; lra ]; cbn [bind]).
    reflexivity.
  - unfold Old.readVertex.
    cbn [line_n line_polygons line_lat line_lon].
    change (3 =? len [0; -1; -1])%Z with true. cbn [assert bind].
    rewrite newPoint_pointAt by lra. reflexivity.
Qed.

(** The earlier reader does refuse the sectors [-1 -1 0]. *)
Lemma old_reader_refuses_leading_obstacles :
  Old.readVertex 1 (mkVertexLine 45 0 3 [-1; -1; 0]%Z)
  = Throw "Vertex has adjacent obstacles".
Proof.
  unfold Old.readVertex.
  cbn [line_n line_polygons line_lat line_lon].
  change (3 =? len [-1; -1; 0])%Z with true. cbn [assert bind].
  rewrite newPoint_pointAt by lra. reflexivity.
Qed.

(** ** The earlier version of equality and of reflection *)

Lemma num_lt_spec (a b : R) : reflect (a < b) (num_lt a b).
Proof. unfold num_lt. destruct (Rlt_dec a b); constructor; assumption. Qed.

(** The earlier [eq] tests both points for a pole. *)
Lemma old_eq_iff (EPSILON : R) (p q : Point) :
  Old.eq EPSILON p q = true <->
  Rabs (lat p - lat q) < EPSILON
  /\ ((nearPole EPSILON p /\ nearPole EPSILON q)
      \/ Rabs (lon p - lon q) < EPSILON).
Proof.
  unfold Old.eq, nearPole.
  destruct (num_lt_spec (Rabs (lat p - lat q)) EPSILON);
    destruct (num_lt_spec (Rabs (Rabs (lat p) - 90)) EPSILON);
    destruct (num_lt_spec (Rabs (Rabs (lat q) - 90)) EPSILON);
    destruct (num_lt_spec (Rabs (lon p - lon q)) EPSILON);
    cbn [andb]; intuition discriminate.
Qed.

Lemma asin_half_sqrt : asin half_sqrt = PI / 4.
Proof.
  unfold half_sqrt. rewrite <- sin_PI4. apply asin_sin.
  pose proof PI_RGT_0. split; lra.
Qed.

Lemma fromCartesian_ok (EPSILON x y z : R) (normalised : bool) (n la lo : R) :
  sqrt (x * x + y * y + z * z) = n -> EPSILON < n ->
  asin (z / n) * TO_DEG = la -> Math_atan2 y x * TO_DEG = lo ->
  -90 <= la <= 90 -> -180 <= lo <= 180 ->
  Old.fromCartesian EPSILON x y z normalised
  = Ok (mkPoint la lo (if normalised then mkVector (x / n) (y / n) (z / n)
                       else mkVector x y z)).
Proof.
  intros Hn Heps Hla Hlo Rla Rlo. unfold Old.fromCartesian.
  rewrite Hn. unfold num_gt. rewrite num_lt_true by assumption.
  cbn [assert bind]. rewrite Hla, Hlo. now apply newPoint_ok.
Qed.

Ltac asin_is v :=
  match goal with
  | |- asin ?e * TO_DEG = _ =>
      replace e with v by (try field; nra)
  end.

Ltac atan2_zero :=
  match goal with
  | |- Math_atan2 ?y ?x * TO_DEG = _ =>
      replace y with 0 by nra;
      first [ rewrite Math_atan2_0_pos by nra
            | replace x with 0 by nra; rewrite Math_atan2_0_0 ]
  end; lra.

Ltac sqrt_is v :=
  match goal with
  | |- sqrt ?e = _ => replace e with v by nra
  end.

(** The earlier version, whose normal has length one, sends the point
    (45, 0) to its mirror image (-45, 0) and back. *)
Lemma old_reflectPoint_twice (EPSILON : R) :
  0 < EPSILON <= 1 / 2 ->
  Old.reflectPoint EPSILON pC pA pB
  = Ok (mkPoint (-45) 0 (mkVector half_sqrt 0 (- half_sqrt)))
  /\ Old.reflectPoint EPSILON
       (mkPoint (-45) 0 (mkVector half_sqrt 0 (- half_sqrt))) pA pB
     = Ok pC.
Proof.
  intros [Hpos Hle].
  pose proof half_sqrt_pos as Hs. pose proof half_sqrt_sqr as Hss.
  pose proof half_sqrt_bounds as Hb.
  assert (Hs0 : half_sqrt <> 0) by lra.
  assert (Hdeg : PI / 2 * TO_DEG = 90)
    by (unfold TO_DEG; field; apply PI_neq0).
  assert (Hdeg4 : PI / 4 * TO_DEG = 45)
    by (unfold TO_DEG; field; apply PI_neq0).
  assert (HN : Old.cross EPSILON pA pB = Ok (mkPoint 90 0 (mkVector 0 0 1))).
  { unfold Old.cross. rewrite vec_pA, vec_pB. cbn [vx vy vz].
    rewrite (fromCartesian_ok EPSILON _ _ _ true half_sqrt 90 0).
    - do 2 f_equal. f_equal; field; exact Hs0.
    - sqrt_is (half_sqrt * half_sqrt). apply sqrt_square. lra.
    - lra.
    - asin_is 1. rewrite asin_1. exact Hdeg.
    - atan2_zero.
    - lra.
    - lra. }
  assert (Hsqrt1 : sqrt 1 = 1) by apply sqrt_1.
  assert (H2s : sqrt (2 * half_sqrt * (2 * half_sqrt)) = 2 * half_sqrt)
    by (apply sqrt_square; lra).
  split.
  - unfold Old.reflectPoint. rewrite HN. cbn [bind].
    unfold Old.scale, Old.subtract, Vec.dot. rewrite ?vec_pC.
    cbn [vx vy vz vec].
    rewrite (fromCartesian_ok EPSILON _ _ _ false (2 * half_sqrt) 90 0).
    + cbn [bind vx vy vz vec].
      rewrite (fromCartesian_ok EPSILON _ _ _ true 1 (-45) 0).
      * do 2 f_equal. f_equal; lra.
      * sqrt_is 1. exact Hsqrt1.
      * lra.
      * asin_is (- half_sqrt). rewrite asin_opp, asin_half_sqrt. lra.
      * atan2_zero.
      * lra.
      * lra.
    + sqrt_is (2 * half_sqrt * (2 * half_sqrt)). exact H2s.
    + lra.
    + asin_is 1. rewrite asin_1. exact Hdeg.
    + atan2_zero.
    + lra.
    + lra.
  - unfold Old.reflectPoint. rewrite HN. cbn [bind].
    unfold Old.scale, Old.subtract, Vec.dot.
    cbn [vx vy vz vec].
    rewrite (fromCartesian_ok EPSILON _ _ _ false (2 * half_sqrt) (-90) 0).
    + cbn [bind vx vy vz vec].
      rewrite (fromCartesian_ok EPSILON _ _ _ true 1 45 0).
      * unfold pC, pointAt. rewrite latLonVector_45_0.
        do 2 f_equal. f_equal; lra.
      * sqrt_is 1. exact Hsqrt1.
      * lra.
      * asin_is half_sqrt. rewrite asin_half_sqrt. lra.
      * atan2_zero.
      * lra.
      * lra.
    + sqrt_is (2 * half_sqrt * (2 * half_sqrt)). exact H2s.
    + lra.
    + asin_is (- (1)). rewrite asin_opp, asin_1. lra.
    + atan2_zero.
    + lra.
    + lra.
Qed.

(** ** The open list of a search is a queue built by [push] and [pop] *)

Lemma bind_Ok {A B : Type} (m : result A) (k : A -> result B) (b : B) :
  bind m k = Ok b -> exists a, m = Ok a /\ k a = Ok b.
Proof. destruct m as [a | msg]; cbn [bind]; [eauto | discriminate]. Qed.

Section OpenList.

Variable EPSILON : R.
Variable mesh : Mesh.
Variables start end_ : Point.

Lemma openList_push_reachable (openList : list SearchNode) (node : SearchNode) :
  PriorityQueue.reachable SearchNode lt openList -> PriorityQueue.reachable SearchNode lt (openList_push openList node).
Proof. intros H. unfold openList_push. now constructor. Qed.

Lemma genInitNodes_edges_reachable (polygon : Polygon) (todo : list Z) :
  forall openList openList',
    PriorityQueue.reachable SearchNode lt openList ->
    genInitNodes_edges EPSILON mesh start end_ polygon todo openList
    = Ok openList' ->
    PriorityQueue.reachable SearchNode lt openList'.
Proof.
  induction todo as [| i rest IH]; intros openList openList' Hr H;
    cbn [genInitNodes_edges] in H.
  - now injection H as <-.
  - apply bind_Ok in H. destruct H as (right & _ & H).
    apply bind_Ok in H. destruct H as (left & _ & H).
    apply bind_Ok in H. destruct H as (onEdge & _ & H).
    destruct onEdge; [now apply (IH openList) |].
    apply bind_Ok in H. destruct H as (nextPoly & _ & H).
    destruct (Polygon_id nextPoly =? -1)%Z; [now apply (IH openList) |].
    apply bind_Ok in H. destruct H as (node & _ & H).
    apply (IH (openList_push openList node)); [| exact H].
    now apply openList_push_reachable.
Qed.

Lemma genInitNodes_polygons_reachable (endPolygons polygons : list Polygon) :
  forall openList finalNode openList',
    PriorityQueue.reachable SearchNode lt openList ->
    genInitNodes_polygons EPSILON mesh start end_ endPolygons polygons openList
    = Ok (finalNode, openList') ->
    PriorityQueue.reachable SearchNode lt openList'.
Proof.
  induction polygons as [| polygon rest IH];
    intros openList finalNode openList' Hr H;
    cbn [genInitNodes_polygons] in H.
  - now injection H as _ <-.
  - destruct (isEndPolygon endPolygons polygon).
    + apply bind_Ok in H. destruct H as (node & _ & H).
      now injection H as _ <-.
    + apply bind_Ok in H. destruct H as (openList1 & H1 & H).
      apply (IH openList1 finalNode); [| exact H].
      exact (genInitNodes_edges_reachable polygon _ openList openList1 Hr H1).
Qed.

Lemma genInitNodes_reachable (endPolygons : list Polygon)
  (finalNode : option SearchNode) (openList : list SearchNode) :
  genInitNodes EPSILON mesh start end_ endPolygons [] = Ok (finalNode, openList) ->
  PriorityQueue.reachable SearchNode lt openList.
Proof.
  unfold genInitNodes. intros H.
  apply bind_Ok in H. destruct H as (pl & _ & H).
  assert (R : PriorityQueue.reachable SearchNode lt []) by constructor.
  destruct (pl_type pl);
    try (now apply (genInitNodes_polygons_reachable _ _ _ _ _ R H)).
  now injection H as _ <-.
Qed.

Lemma addSuccessor_reachable (successors : list SearchNode) :
  forall history openList,
    PriorityQueue.reachable SearchNode lt openList ->
    PriorityQueue.reachable SearchNode lt (snd (fold_left (addSuccessor EPSILON) successors
                      (history, openList))).
Proof.
  induction successors as [| s rest IH]; intros history openList Hr;
    cbn [fold_left].
  - exact Hr.
  - unfold addSuccessor at 2.
    destruct (negb (Map_has history (asKey EPSILON (node_root s)))
              || match Map_get history (asKey EPSILON (node_root s)) with
                 | Some known => num_ge known (node_g s)
                 | None => false
                 end).
    + apply IH. now apply openList_push_reachable.
    + now apply IH.
Qed.

Lemma search_turn_reachable (endPolygons : list Polygon)
  (history history' : History) (openList openList' : list SearchNode) :
  PriorityQueue.reachable SearchNode lt openList ->
  search_turn EPSILON mesh endPolygons history openList
  = Ok (Expanded history' openList') ->
  PriorityQueue.reachable SearchNode lt openList'.
Proof.
  intros Hr H. unfold search_turn in H.
  apply bind_Ok in H. destruct H as ([node openList1] & Hpop & H).
  assert (R1 : PriorityQueue.reachable SearchNode lt openList1) by (econstructor; eassumption).
  destruct (isEndPolygon endPolygons (nextPolygon node)).
  - apply bind_Ok in H. destruct H as (finalNode & _ & H). discriminate.
  - apply bind_Ok in H. destruct H as (successors & _ & H).
    pose proof (addSuccessor_reachable successors history openList1 R1) as R2.
    destruct (fold_left (addSuccessor EPSILON) successors (history, openList1))
      as [h q].
    injection H as _ <-. exact R2.
Qed.

(** The polygons a point is located in are traversable when those of the
    mesh are. *)
Lemma getPointLocation_loop_traversable (polygons : list Polygon) (p : Point)
  (pl : PointLocation) :
  Forall (fun q => Polygon_id q <> (-1)%Z) polygons ->
  getPointLocation_loop EPSILON mesh polygons p = Ok pl ->
  Forall (fun q => Polygon_id q <> (-1)%Z) (pl_polygons pl).
Proof.
  induction polygons as [| polygon rest IH]; intros Hall H;
    cbn [getPointLocation_loop] in H.
  - injection H as <-. constructor.
  - inversion Hall as [| ? ? Hp Hrest]; subst.
    apply bind_Ok in H. destruct H as (res & _ & H).
    destruct (pc_type res).
    + now apply IH.
    + injection H as <-. cbn [pl_polygons]. auto.
    + destruct (Polygon_id (adjPoly res) =? -1)%Z eqn:E;
        injection H as <-; cbn [pl_polygons]; auto.
      apply Z.eqb_neq in E. auto.
    + apply bind_Ok in H. destruct H as (v0 & _ & H).
      apply bind_Ok in H. destruct H as (ps & _ & H).
      injection H as <-. cbn [pl_polygons].
      apply Forall_forall. intros q Hq. apply filter_In in Hq.
      destruct Hq as [_ Hq]. apply negb_true_iff, Z.eqb_neq in Hq. exact Hq.
Qed.

End OpenList.

(** X30: when the first polygon that [getPointLocation] lists for the start
    is an end polygon, on a mesh without a polygon of identifier [-1],
    [search] returns the path from the start straight to the end, with
    their distance as its length. *)
Lemma search_same_polygon_first (EPSILON : R) (mesh : Mesh)
  (start end_ : Point) (endLocation startLocation : PointLocation)
  (polygon : Polygon) (after : list Polygon) :
  0 < EPSILON ->
  Forall (fun q => Polygon_id q <> (-1)%Z) (Mesh_polygons mesh) ->
  getPointLocation EPSILON mesh end_ = Ok endLocation ->
  getPointLocation EPSILON mesh start = Ok startLocation ->
  pl_polygons startLocation = polygon :: after ->
  isEndPolygon (pl_polygons endLocation) polygon = true ->
  forall fuel,
    search EPSILON mesh start end_ fuel
    = Some (Ok ([start; end_], distance EPSILON start end_)).
Proof.
  intros Hpos Hids Hend Hstart Hpolys Hshared fuel.
  apply (search_same_polygon EPSILON mesh start end_ Hpos
           endLocation startLocation [] after polygon); auto.
  - intros E.
    pose proof (getPointLocation_loop_obstacle EPSILON mesh _ _ _ Hstart E).
    congruence.
  - pose proof (getPointLocation_loop_traversable EPSILON mesh _ _ _
                  Hids Hstart) as H.
    rewrite Hpolys in H. now inversion H.
Qed.

(** * Further properties of the code *)

(** ** Vectors and their norm *)

Lemma norm_nonneg (v : Vector) : 0 <= Vec.norm v.
Proof. apply sqrt_pos. Qed.

Lemma norm_sqr (v : Vector) :
  Vec.norm v * Vec.norm v = vx v * vx v + vy v * vy v + vz v * vz v.
Proof. unfold Vec.norm. apply sqrt_sqrt. nra. Qed.

Lemma norm_scale (v : Vector) (k : R) :
  0 <= k -> Vec.norm (Vec.scale v k) = k * Vec.norm v.
Proof.
  intros Hk. unfold Vec.norm, Vec.scale. cbn [vx vy vz].
  replace (vx v * k * (vx v * k) + vy v * k * (vy v * k) + vz v * k * (vz v * k))
    with (k * k * (vx v * vx v + vy v * vy v + vz v * vz v)) by ring.
  rewrite sqrt_mult by nra. now rewrite sqrt_square.
Qed.

Lemma norm_negate (v : Vector) : Vec.norm (Vec.negate v) = Vec.norm v.
Proof.
  unfold Vec.norm, Vec.negate. cbn [vx vy vz]. f_equal. ring.
Qed.

Lemma isZero_norm (EPSILON : R) (v : Vector) :
  isZero EPSILON (Vec.norm v) = true <-> Vec.norm v < EPSILON.
Proof.
  rewrite isZero_iff, Rabs_pos_eq by apply norm_nonneg. tauto.
Qed.

Lemma isZero_norm_false (EPSILON : R) (v : Vector) :
  isZero EPSILON (Vec.norm v) = false <-> EPSILON <= Vec.norm v.
Proof.
  rewrite <- not_true_iff_false, isZero_norm. lra.
Qed.

(** X1: [normalise] throws on a vector shorter than the tolerance and
    otherwise returns the vector of length one in the same direction. *)
Theorem normalise_unit (EPSILON : R) (v : Vector) :
  0 < EPSILON ->
  (Vec.norm v < EPSILON ->
   normalise EPSILON v = Throw "Cannot normalise a zero vector")
  /\ (EPSILON <= Vec.norm v ->
      exists u,
        normalise EPSILON v = Ok u
        /\ Vec.norm u = 1
        /\ Vec.scale u (Vec.norm v) = v).
Proof.
  intros He. unfold normalise. split; intros H.
  - apply isZero_norm in H. now rewrite H.
  - pose proof H as H'. apply isZero_norm_false in H'. rewrite H'. cbn.
    eexists. split; [reflexivity |]. split.
    + rewrite norm_scale.
      * field. lra.
      * apply Rlt_le. apply Rdiv_lt_0_compat; lra.
    + destruct v as [x y z]. unfold Vec.scale. cbn [vx vy vz].
      set (n := Vec.norm _) in *. f_equal; field; lra.
Qed.

Lemma normalise_unit_witness :
  0 < / 1000 /\ / 1000 <= Vec.norm (mkVector 1 0 0)
  /\ exists u, normalise (/ 1000) (mkVector 1 0 0) = Ok u /\ Vec.norm u = 1.
Proof.
  assert (Hn : Vec.norm (mkVector 1 0 0) = 1) by (apply norm_x_axis; lra).
  split; [lra |]. split; [rewrite Hn; lra |].
  destruct (normalise_unit (/ 1000) (mkVector 1 0 0)) as [_ H]; [lra |].
  destruct H as (u & Hu & H1 & _); [rewrite Hn; lra |].
  exists u. now split.
Defined.

(** ** Points built from coordinates *)

Lemma latLonVector_norm (la lo : R) : Vec.norm (latLonVector la lo) = 1.
Proof.
  unfold Vec.norm, latLonVector. cbn [vx vy vz].
  set (a := la * TO_RAD). set (b := lo * TO_RAD).
  pose proof (sin2_cos2 a) as Ha. pose proof (sin2_cos2 b) as Hb.
  unfold Rsqr in Ha, Hb.
  replace (cos a * cos b * (cos a * cos b) + cos a * sin b * (cos a * sin b)
           + sin a * sin a)
    with (cos a * cos a * (sin b * sin b + cos b * cos b) + sin a * sin a)
    by ring.
  rewrite Hb, Rmult_1_r, Rplus_comm, Ha. apply sqrt_1.
Qed.

Lemma newPoint_inv (la lo : R) (p : Point) :
  newPoint la lo None = Ok p ->
  -90 <= la <= 90 /\ -180 <= lo <= 180
  /\ lat p = la /\ lon p = lo /\ Vec.norm p = 1.
Proof.
  unfold newPoint.
  destruct (num_ge la (-90) && num_le la 90) eqn:E1; cbn; [| discriminate].
  destruct (num_ge lo (-180) && num_le lo 180) eqn:E2; cbn; [| discriminate].
  intros [= <-]. cbn [lat lon vec].
  apply andb_true_iff in E1, E2. unfold num_ge in *.
  rewrite !num_le_iff in E1, E2.
  repeat split; try lra. apply latLonVector_norm.
Qed.

(** X2: [new Point(lat, lon)] succeeds exactly when the latitude is in
    [-90, 90] and the longitude in [-180, 180]; the point it builds keeps
    the two coordinates and lies on the unit sphere. *)
Theorem newPoint_unit (la lo : R) :
  ((exists p, newPoint la lo None = Ok p)
   <-> -90 <= la <= 90 /\ -180 <= lo <= 180)
  /\ (forall p, newPoint la lo None = Ok p ->
                lat p = la /\ lon p = lo /\ Vec.norm p = 1).
Proof.
  split; [split |].
  - intros (p & H). apply newPoint_inv in H. tauto.
  - intros [H1 H2]. eexists. now apply newPoint_ok.
  - intros p H. apply newPoint_inv in H. tauto.
Qed.

(** ** [Math.atan2] *)

Lemma Math_atan2_pos_x (y x : R) : 0 < x -> Math_atan2 y x = atan (y / x).
Proof. intros H. unfold Math_atan2. destruct (Rlt_dec 0 x); [reflexivity | lra]. Qed.

Lemma Math_atan2_neg_x_up (y x : R) :
  x < 0 -> 0 <= y -> Math_atan2 y x = atan (y / x) + PI.
Proof.
  intros Hx Hy. unfold Math_atan2.
  destruct (Rlt_dec 0 x); [lra |]. destruct (Rlt_dec x 0); [| lra].
  destruct (Rle_dec 0 y); [reflexivity | lra].
Qed.

Lemma Math_atan2_neg_x_down (y x : R) :
  x < 0 -> y < 0 -> Math_atan2 y x = atan (y / x) - PI.
Proof.
  intros Hx Hy. unfold Math_atan2.
  destruct (Rlt_dec 0 x); [lra |]. destruct (Rlt_dec x 0); [| lra].
  destruct (Rle_dec 0 y); [lra | reflexivity].
Qed.

Lemma Math_atan2_zero_x (y : R) :
  Math_atan2 y 0 = if Rlt_dec 0 y then PI / 2
                   else if Rlt_dec y 0 then - (PI / 2) else 0.
Proof.
  unfold Math_atan2.
  destruct (Rlt_dec 0 0); [lra |]. reflexivity.
Qed.

Lemma Math_atan2_bound (y x : R) : - PI < Math_atan2 y x <= PI.
Proof.
  pose proof PI_RGT_0 as Hpi.
  pose proof (atan_bound (y / x)) as Hb.
  destruct (Rlt_dec 0 x) as [Hx | Hx].
  - rewrite Math_atan2_pos_x by assumption. lra.
  - destruct (Rlt_dec x 0) as [Hx' | Hx'].
    + destruct (Rle_dec 0 y) as [Hy | Hy].
      * rewrite Math_atan2_neg_x_up by assumption.
        assert (y / x <= 0).
        { assert (/ x < 0) by (apply Rinv_lt_0_compat; lra).
          unfold Rdiv. nra. }
        assert (atan (y / x) <= 0).
        { rewrite <- atan_0. destruct H as [H | H].
          - apply Rlt_le, atan_increasing. assumption.
          - rewrite H. lra. }
        lra.
      * rewrite Math_atan2_neg_x_down by lra.
        assert (0 < y / x).
        { assert (/ x < 0) by (apply Rinv_lt_0_compat; lra).
          unfold Rdiv. nra. }
        assert (0 < atan (y / x)).
        { rewrite <- atan_0. apply atan_increasing. assumption. }
        lra.
    + assert (x = 0) by lra. subst x. rewrite Math_atan2_zero_x.
      destruct (Rlt_dec 0 y); [lra |]. destruct (Rlt_dec y 0); lra.
Qed.

Lemma tan_shift_up (t : R) : cos t <> 0 -> tan (t + PI) = tan t.
Proof.
  intros H. unfold tan. rewrite neg_sin, neg_cos. field. assumption.
Qed.

Lemma tan_shift_down (t : R) : cos t <> 0 -> tan (t - PI) = tan t.
Proof.
  intros H. unfold tan.
  replace (sin t) with (- sin (t - PI)).
  2:{ rewrite <- neg_sin. f_equal. ring. }
  replace (cos t) with (- cos (t - PI)).
  2:{ rewrite <- neg_cos. f_equal. ring. }
  field. intros E. apply H. rewrite <- (Ropp_involutive (cos t)).
  replace (- cos t) with (cos (t - PI)).
  - rewrite E. ring.
  - rewrite <- (Ropp_involutive (cos (t - PI))). rewrite <- neg_cos.
    replace (t - PI + PI) with t by ring. reflexivity.
Qed.

(** The angle of the point at distance [r] and angle [t]. *)
Lemma Math_atan2_polar (r t : R) :
  0 < r -> - PI < t <= PI ->
  Math_atan2 (r * sin t) (r * cos t) = t.
Proof.
  intros Hr Ht. pose proof PI_RGT_0 as Hpi.
  assert (Hdiv : cos t <> 0 -> r * sin t / (r * cos t) = tan t).
  { intros Hc. unfold tan. field. split; lra. }
  destruct (Rtotal_order t (- (PI / 2))) as [Hlow | [Hlow | Hlow]].
  - (* t in (-PI, -PI/2) *)
    assert (Hc : cos t < 0).
    { rewrite <- cos_neg. apply cos_lt_0; lra. }
    assert (Hs : sin t < 0).
    { rewrite <- (Ropp_involutive t), sin_neg.
      assert (0 < sin (- t)) by (apply sin_gt_0; lra). lra. }
    rewrite Math_atan2_neg_x_down by nra.
    rewrite Hdiv by lra. rewrite <- tan_shift_up by lra.
    rewrite atan_tan by lra. ring.
  - subst t. rewrite cos_neg, sin_neg, cos_PI2, sin_PI2.
    rewrite Rmult_0_r, Math_atan2_zero_x.
    destruct (Rlt_dec 0 (r * - (1))); [lra |].
    destruct (Rlt_dec (r * - (1)) 0); [reflexivity | lra].
  - destruct (Rtotal_order t (PI / 2)) as [Hup | [Hup | Hup]].
    + assert (Hc : 0 < cos t) by (apply cos_gt_0; lra).
      rewrite Math_atan2_pos_x by nra.
      rewrite Hdiv by lra. apply atan_tan. lra.
    + subst t. rewrite cos_PI2, sin_PI2, Rmult_0_r, Math_atan2_zero_x.
      destruct (Rlt_dec 0 (r * 1)); [reflexivity | lra].
    + assert (Hc : cos t < 0) by (apply cos_lt_0; lra).
      assert (Hs : 0 <= sin t) by (apply sin_ge_0; lra).
      rewrite Math_atan2_neg_x_up by nra.
      rewrite Hdiv by lra. rewrite <- tan_shift_down by lra.
      rewrite atan_tan by lra. ring.
Qed.

Lemma TO_DEG_pos : 0 < TO_DEG.
Proof. unfold TO_DEG. apply Rdiv_lt_0_compat; [lra | apply PI_RGT_0]. Qed.

Lemma TO_RAD_TO_DEG (x : R) : x * TO_RAD * TO_DEG = x.
Proof. unfold TO_RAD, TO_DEG. field. apply PI_neq0. Qed.

Lemma TO_DEG_PI (k : R) : k * PI * TO_DEG = k * 180.
Proof. unfold TO_DEG. field. apply PI_neq0. Qed.

Lemma deg_le (x k : R) : x <= k * PI -> x * TO_DEG <= k * 180.
Proof.
  intros H. rewrite <- TO_DEG_PI. apply Rmult_le_compat_r; [| exact H].
  apply Rlt_le, TO_DEG_pos.
Qed.

Lemma deg_ge (x k : R) : k * PI <= x -> k * 180 <= x * TO_DEG.
Proof.
  intros H. rewrite <- TO_DEG_PI. apply Rmult_le_compat_r; [| exact H].
  apply Rlt_le, TO_DEG_pos.
Qed.

Lemma deg_gt (x k : R) : k * PI < x -> k * 180 < x * TO_DEG.
Proof.
  intros H. rewrite <- TO_DEG_PI. apply Rmult_lt_compat_r; [| exact H].
  apply TO_DEG_pos.
Qed.

(** ** [Point.fromVector] *)

Lemma fromVector_defined (EPSILON : R) (vector : Vector) (normalised : bool) :
  EPSILON <= Vec.norm vector ->
  exists p,
    fromVector EPSILON vector normalised = Ok p
    /\ -90 <= lat p <= 90 /\ -180 <= lon p <= 180
    /\ vec p = if normalised
               then Vec.scale vector (1 / Vec.norm vector)
               else vector.
Proof.
  intros H. pose proof TO_DEG_pos as Hd. pose proof PI_RGT_0 as Hpi.
  assert (Hla : -90 <= asin (vz vector / Vec.norm vector) * TO_DEG <= 90).
  { pose proof (asin_bound (vz vector / Vec.norm vector)) as Hb.
    pose proof (deg_le (asin (vz vector / Vec.norm vector)) (1 / 2)).
    pose proof (deg_ge (asin (vz vector / Vec.norm vector)) (- (1 / 2))).
    lra. }
  assert (Hlo : -180 < Math_atan2 (vy vector) (vx vector) * TO_DEG <= 180).
  { pose proof (Math_atan2_bound (vy vector) (vx vector)) as Hb.
    pose proof (deg_le (Math_atan2 (vy vector) (vx vector)) 1).
    pose proof (deg_gt (Math_atan2 (vy vector) (vx vector)) (- (1))).
    lra. }
  eexists. split.
  - apply (fromVector_ok EPSILON vector normalised (Vec.norm vector));
      try reflexivity; try lra; apply norm_nonneg.
  - cbn [lat lon vec]. repeat split; try lra.
Qed.

(** X3: [fromVector] throws on a vector shorter than the tolerance, and on
    no other: the latitude and the longitude it computes are always in the
    ranges that the constructor accepts, [-90, 90] and [-180, 180]. *)
Theorem fromVector_total (EPSILON : R) (vector : Vector) (normalised : bool) :
  0 < EPSILON ->
  (Vec.norm vector < EPSILON ->
   fromVector EPSILON vector normalised
   = Throw "Cannot create a point from a zero vector")
  /\ (EPSILON <= Vec.norm vector ->
      exists p,
        fromVector EPSILON vector normalised = Ok p
        /\ -90 <= lat p <= 90 /\ -180 <= lon p <= 180
        /\ vec p = if normalised
                   then Vec.scale vector (1 / Vec.norm vector)
                   else vector).
Proof.
  intros He. split; intros H.
  - apply fromVector_zero. rewrite Rabs_pos_eq by apply norm_nonneg. exact H.
  - now apply fromVector_defined.
Qed.

Lemma fromVector_total_witness :
  0 < / 1000 /\ / 1000 <= Vec.norm (mkVector 1 0 0)
  /\ exists p, fromVector (/ 1000) (mkVector 1 0 0) false = Ok p
               /\ -90 <= lat p <= 90.
Proof.
  assert (Hn : Vec.norm (mkVector 1 0 0) = 1) by (apply norm_x_axis; lra).
  split; [lra |]. split; [rewrite Hn; lra |].
  destruct (fromVector_total (/ 1000) (mkVector 1 0 0) false) as [_ H]; [lra |].
  destruct H as (p & Hp & Hla & _); [rewrite Hn; lra |].
  exists p. now split.
Defined.

Lemma scale_one (v : Vector) : Vec.scale v (1 / 1) = v.
Proof. destruct v. unfold Vec.scale. cbn. f_equal; field. Qed.

Lemma fromVector_latLonVector (EPSILON la lo : R) (normalised : bool) :
  EPSILON <= 1 -> -90 < la < 90 -> -180 < lo <= 180 ->
  fromVector EPSILON (latLonVector la lo) normalised = Ok (pointAt la lo).
Proof.
  intros He Hla Hlo. pose proof PI_RGT_0 as Hpi.
  assert (Hrad : forall x, x * TO_RAD = x / 180 * PI).
  { intros x. unfold TO_RAD. field. }
  rewrite (fromVector_ok EPSILON (latLonVector la lo) normalised 1 la lo);
    try lra.
  - unfold pointAt. f_equal. f_equal. destruct normalised; [| reflexivity].
    apply scale_one.
  - apply latLonVector_norm.
  - unfold latLonVector. cbn [vz]. rewrite Rdiv_1_r.
    rewrite asin_sin; [apply TO_RAD_TO_DEG |]. rewrite Hrad. split; nra.
  - unfold latLonVector. cbn [vx vy].
    rewrite Math_atan2_polar; [apply TO_RAD_TO_DEG | | rewrite Hrad; split; nra].
    apply cos_gt_0; rewrite Hrad; nra.
Qed.

(** X4: round trip.  For every latitude strictly between the poles and
    every longitude in (-180, 180], the constructor accepts the
    coordinates, and [fromVector] applied to the vector of the point it
    builds gives that point back. *)
Theorem fromVector_roundTrip (EPSILON la lo : R) (normalised : bool) :
  EPSILON <= 1 -> -90 < la < 90 -> -180 < lo <= 180 ->
  exists p,
    newPoint la lo None = Ok p
    /\ lat p = la /\ lon p = lo
    /\ fromVector EPSILON (vec p) normalised = Ok p.
Proof.
  intros He Hla Hlo. exists (pointAt la lo). split.
  - apply newPoint_pointAt; lra.
  - split; [reflexivity |]. split; [reflexivity |].
    now apply fromVector_latLonVector.
Qed.

Lemma fromVector_roundTrip_witness :
  / 1000 <= 1 /\ -90 < 45 < 90 /\ -180 < 90 <= 180
  /\ exists p, newPoint 45 90 None = Ok p
               /\ fromVector (/ 1000) (vec p) true = Ok p.
Proof.
  split; [lra |]. split; [lra |]. split; [lra |].
  destruct (fromVector_roundTrip (/ 1000) 45 90 true) as (p & H1 & _ & _ & H2);
    try lra.
  exists p. now split.
Defined.

(** ** Distances *)

Lemma TO_RAD_bound (x k : R) : Rabs x <= k * 180 -> Rabs (x * TO_RAD) <= k * PI.
Proof.
  intros H. pose proof PI_RGT_0 as Hpi.
  assert (Hr : 0 < TO_RAD) by (unfold TO_RAD; apply Rdiv_lt_0_compat; lra).
  rewrite Rabs_mult, (Rabs_pos_eq TO_RAD) by lra.
  replace (k * PI) with (k * 180 * TO_RAD) by (unfold TO_RAD; field).
  apply Rmult_le_compat_r; lra.
Qed.

Lemma acos_cos_Rabs (x : R) : Rabs x <= PI -> acos (cos x) = Rabs x.
Proof.
  intros H. destruct (Rle_dec 0 x) as [Hx | Hx].
  - rewrite Rabs_pos_eq in * by assumption. apply acos_cos. lra.
  - rewrite Rabs_left in * by lra. rewrite <- cos_neg. apply acos_cos. lra.
Qed.

Lemma cosDistance_bound (p q : Point) : 0 <= cosDistance p q <= 180.
Proof.
  unfold cosDistance. cbv zeta.
  match goal with |- _ <= acos ?a * _ <= _ => pose proof (acos_bound a) as H; set (x := acos a) in * end.
  pose proof (deg_le x 1). pose proof (deg_ge x 0). lra.
Qed.

Lemma distance_bound (EPSILON : R) (p q : Point) :
  0 <= distance EPSILON p q <= 180.
Proof.
  unfold distance. destruct (equals EPSILON p q); [lra |].
  apply cosDistance_bound.
Qed.

Lemma cosDistance_sym (p q : Point) : cosDistance p q = cosDistance q p.
Proof.
  unfold cosDistance. cbv zeta. f_equal. f_equal.
  replace ((lon q - lon p) * TO_RAD) with (- ((lon p - lon q) * TO_RAD))
    by ring.
  rewrite cos_neg. ring.
Qed.

(** X5: the distance of two points is a number of degrees between 0 and
    180, and it is 0 for points that are equal.  [cosDistance] does not
    depend on the order of the two points; nor does [distance], as long as
    neither point is within the tolerance of a pole. *)
Theorem distance_metric (EPSILON : R) (p q : Point) :
  0 <= distance EPSILON p q <= 180
  /\ (equals EPSILON p q = true -> distance EPSILON p q = 0)
  /\ cosDistance p q = cosDistance q p
  /\ (isPolar EPSILON p = false -> isPolar EPSILON q = false ->
      distance EPSILON p q = distance EPSILON q p).
Proof.
  split; [apply distance_bound |]. split; [| split].
  - intros H. unfold distance. now rewrite H.
  - apply cosDistance_sym.
  - intros Hp Hq. unfold distance, equals. rewrite Hp, Hq. cbn [orb].
    replace (isZero EPSILON (lat q - lat p))
      with (isZero EPSILON (lat p - lat q)).
    2:{ unfold isZero. now rewrite Rabs_minus_sym. }
    replace (isZero EPSILON (lon q - lon p))
      with (isZero EPSILON (lon p - lon q)).
    2:{ unfold isZero. now rewrite Rabs_minus_sym. }
    now rewrite (cosDistance_sym p q).
Qed.

Lemma cosDistance_meridian (p q : Point) :
  lon p = lon q -> -90 <= lat p <= 90 -> -90 <= lat q <= 90 ->
  cosDistance p q = Rabs (lat p - lat q).
Proof.
  pose proof PI_RGT_0 as Hpi.
  assert (Hr : 0 < TO_RAD) by (unfold TO_RAD; apply Rdiv_lt_0_compat; lra).
  intros Hlon Hp Hq. unfold cosDistance. cbv zeta.
  rewrite Hlon. replace ((lon q - lon q) * TO_RAD) with 0 by ring.
  rewrite cos_0, Rmult_1_r.
  replace (sin (lat p * TO_RAD) * sin (lat q * TO_RAD)
           + cos (lat p * TO_RAD) * cos (lat q * TO_RAD))
    with (cos (lat p * TO_RAD - lat q * TO_RAD)) by (rewrite cos_minus; ring).
  replace (lat p * TO_RAD - lat q * TO_RAD) with ((lat p - lat q) * TO_RAD)
    by ring.
  rewrite acos_cos_Rabs.
  - rewrite Rabs_mult, (Rabs_pos_eq TO_RAD) by lra. apply TO_RAD_TO_DEG.
  - replace PI with (1 * PI) by ring. apply TO_RAD_bound.
    unfold Rabs. destruct (Rcase_abs _); lra.
Qed.

Lemma cosDistance_equator (p q : Point) :
  lat p = 0 -> lat q = 0 -> Rabs (lon p - lon q) <= 360 ->
  cosDistance p q
  = if Rle_dec (Rabs (lon p - lon q)) 180
    then Rabs (lon p - lon q)
    else 360 - Rabs (lon p - lon q).
Proof.
  pose proof PI_RGT_0 as Hpi.
  assert (Hr : 0 < TO_RAD) by (unfold TO_RAD; apply Rdiv_lt_0_compat; lra).
  intros Hp Hq Hd. unfold cosDistance. cbv zeta.
  rewrite Hp, Hq, Rmult_0_l, sin_0, cos_0.
  replace (0 * 0 + 1 * 1 * cos ((lon p - lon q) * TO_RAD))
    with (cos ((lon p - lon q) * TO_RAD)) by ring.
  set (d := lon p - lon q) in *.
  destruct (Rle_dec (Rabs d) 180) as [Hs | Hs].
  - rewrite acos_cos_Rabs.
    + rewrite Rabs_mult, (Rabs_pos_eq TO_RAD) by lra. apply TO_RAD_TO_DEG.
    + replace PI with (1 * PI) by ring. apply TO_RAD_bound. lra.
  - assert (Hcos : cos (d * TO_RAD) = cos (2 * PI - Rabs d * TO_RAD)).
    { rewrite cos_minus, cos_2PI, sin_2PI.
      unfold Rabs. destruct (Rcase_abs d).
      - replace (- d * TO_RAD) with (- (d * TO_RAD)) by ring.
        rewrite cos_neg. ring.
      - ring. }
    rewrite Hcos, acos_cos.
    + unfold TO_RAD, TO_DEG. field. lra.
    + assert (Rabs d * TO_RAD <= 2 * PI).
      { replace (2 * PI) with (360 * TO_RAD) by (unfold TO_RAD; field).
        apply Rmult_le_compat_r; lra. }
      assert (PI < Rabs d * TO_RAD).
      { replace PI with (180 * TO_RAD) at 1 by (unfold TO_RAD; field).
        apply Rmult_lt_compat_r; lra. }
      lra.
Qed.

(** X6: on a meridian [cosDistance] is the difference of the latitudes,
    and on the equator it is the difference of the longitudes, taken the
    short way round. *)
Theorem cosDistance_meridian_equator (p q : Point) :
  (lon p = lon q -> -90 <= lat p <= 90 -> -90 <= lat q <= 90 ->
   cosDistance p q = Rabs (lat p - lat q))
  /\ (lat p = 0 -> lat q = 0 -> Rabs (lon p - lon q) <= 360 ->
      cosDistance p q
      = if Rle_dec (Rabs (lon p - lon q)) 180
        then Rabs (lon p - lon q)
        else 360 - Rabs (lon p - lon q)).
Proof.
  split; [apply cosDistance_meridian | apply cosDistance_equator].
Qed.

Lemma cosDistance_meridian_equator_witness :
  cosDistance (pointAt 45 0) (pointAt (-45) 0) = Rabs (45 - -45)
  /\ cosDistance (pointAt 0 170) (pointAt 0 (-170))
     = if Rle_dec (Rabs (170 - -170)) 180
       then Rabs (170 - -170) else 360 - Rabs (170 - -170).
Proof.
  split.
  - apply (cosDistance_meridian_equator (pointAt 45 0) (pointAt (-45) 0));
      cbn [lat lon pointAt]; lra.
  - apply (cosDistance_meridian_equator (pointAt 0 170) (pointAt 0 (-170)));
      cbn [lat lon pointAt]; try reflexivity.
    unfold Rabs. destruct (Rcase_abs _); lra.
Defined.

Lemma sin_half_Rabs (x : R) :
  sin (Rabs x / 2) * sin (Rabs x / 2) = (1 - cos x) / 2.
Proof.
  assert (H : forall y, sin (y / 2) * sin (y / 2) = (1 - cos y) / 2).
  { intros y. replace y with (2 * (y / 2)) at 3 by field.
    rewrite cos_2a_sin. field. }
  unfold Rabs. destruct (Rcase_abs x).
  - rewrite H, cos_neg. reflexivity.
  - apply H.
Qed.

(** X7: the two distance formulas agree: for points whose latitudes are in
    range, [havDistance] and [cosDistance] return the same number. *)
Theorem havDistance_cosDistance (p q : Point) :
  -90 <= lat p <= 90 -> -90 <= lat q <= 90 ->
  havDistance p q = cosDistance p q.
Proof.
  intros Hp Hq. pose proof PI_RGT_0 as Hpi.
  unfold havDistance, cosDistance. cbv zeta.
  set (l1 := lat p * TO_RAD). set (l2 := lat q * TO_RAD).
  replace ((lon p - lon q) * TO_RAD) with (lon p * TO_RAD - lon q * TO_RAD)
    by ring.
  set (d := lon p * TO_RAD - lon q * TO_RAD).
  assert (Hl : forall x, -90 <= x <= 90 -> 0 <= cos (x * TO_RAD)).
  { intros x Hx. apply cos_ge_0; unfold TO_RAD; nra. }
  assert (Hc1 : 0 <= cos l1) by (apply Hl; assumption).
  assert (Hc2 : 0 <= cos l2) by (apply Hl; assumption).
  replace (sin (Rabs (l1 - l2) / 2) * sin (Rabs (l1 - l2) / 2)
           + cos l1 * cos l2 * sin (Rabs d / 2) * sin (Rabs d / 2))
    with ((1 - cos (l1 - l2)) / 2 + cos l1 * cos l2 * ((1 - cos d) / 2)).
  2:{ rewrite <- !sin_half_Rabs. ring. }
  rewrite cos_minus.
  set (A := sin l1 * sin l2 + cos l1 * cos l2 * cos d).
  set (a := (1 - (cos l1 * cos l2 + sin l1 * sin l2)) / 2
            + cos l1 * cos l2 * ((1 - cos d) / 2)).
  assert (HA : A = 1 - 2 * a) by (unfold A, a; field).
  pose proof (COS_bound d) as Hd.
  pose proof (COS_bound (l1 + l2)) as Hsum. rewrite cos_plus in Hsum.
  pose proof (COS_bound (l1 - l2)) as Hdiff. rewrite cos_minus in Hdiff.
  assert (Ha : 0 <= a <= 1).
  { unfold a. split; nra. }
  assert (Hs : sqrt a * sqrt a = a) by (apply sqrt_sqrt; lra).
  assert (Hs0 : 0 <= sqrt a) by apply sqrt_pos.
  assert (Hs1 : sqrt a <= 1).
  { rewrite <- sqrt_1. apply sqrt_le_1; lra. }
  set (t := asin (sqrt a)).
  assert (Hsin : sin t = sqrt a) by (apply sin_asin; lra).
  pose proof (asin_bound (sqrt a)) as Hb. fold t in Hb.
  assert (Ht : 0 <= t).
  { destruct (Rle_dec 0 t) as [H | H]; [exact H |].
    assert (sin t < 0) by (apply sin_lt_0_var; lra). lra. }
  rewrite HA.
  replace (1 - 2 * a) with (cos (2 * t)).
  2:{ rewrite cos_2a_sin, Hsin. rewrite Rmult_assoc, Hs. reflexivity. }
  rewrite acos_cos by lra. reflexivity.
Qed.

Lemma havDistance_cosDistance_witness :
  -90 <= lat (pointAt 45 0) <= 90 /\ -90 <= lat (pointAt 0 45) <= 90
  /\ havDistance (pointAt 45 0) (pointAt 0 45)
     = cosDistance (pointAt 45 0) (pointAt 0 45).
Proof.
  cbn [lat pointAt]. split; [lra |]. split; [lra |].
  apply havDistance_cosDistance; cbn [lat pointAt]; lra.
Defined.

(** ** [Point.asKey] *)

Lemma Int_part_close (x y : R) : Int_part x = Int_part y -> Rabs (x - y) < 1.
Proof.
  intros H. pose proof (base_Int_part x) as Hx. pose proof (base_Int_part y) as Hy.
  rewrite H in Hx. unfold Rabs. destruct (Rcase_abs _); lra.
Qed.

Lemma Math_round_close (EPSILON a b : R) :
  0 < EPSILON ->
  Math_round (a / EPSILON) = Math_round (b / EPSILON) ->
  Rabs (a - b) < EPSILON.
Proof.
  intros He H. apply Int_part_close in H.
  replace (a / EPSILON + / 2 - (b / EPSILON + / 2)) with ((a - b) / EPSILON)
    in H by (field; lra).
  unfold Rdiv in H. rewrite Rabs_mult, (Rabs_pos_eq (/ EPSILON)) in H.
  - apply (Rmult_lt_compat_r EPSILON) in H; [| exact He].
    rewrite Rmult_assoc, Rinv_l, Rmult_1_r, Rmult_1_l in H by lra. exact H.
  - apply Rlt_le, Rinv_0_lt_compat, He.
Qed.

(** X8: two points with the same key are equal: the keys of the history
    never merge points that [equals] tells apart. *)
Theorem asKey_equals (EPSILON : R) (p q : Point) :
  0 < EPSILON -> asKey EPSILON p = asKey EPSILON q ->
  equals EPSILON p q = true.
Proof.
  intros He H. unfold asKey in H. injection H as Hlat Hlon.
  apply equals_iff. split.
  - now apply Math_round_close.
  - right. now apply Math_round_close.
Qed.

Lemma asKey_equals_witness :
  0 < / 1000
  /\ asKey (/ 1000) (pointAt 45 0) = asKey (/ 1000) (pointAt (45 + / 4000) 0)
  /\ equals (/ 1000) (pointAt 45 0) (pointAt (45 + / 4000) 0) = true.
Proof.
  assert (H : asKey (/ 1000) (pointAt 45 0)
              = asKey (/ 1000) (pointAt (45 + / 4000) 0)).
  { unfold asKey, Math_round. cbn [lat lon pointAt]. f_equal.
    transitivity 45000%Z; [symmetry |]; apply Int_part_spec; lra. }
  split; [lra |]. split; [exact H |].
  apply asKey_equals; [lra | exact H].
Defined.

(** ** The antipode *)

Lemma negate_latLonVector (la lo : R) :
  Vec.negate (latLonVector la lo)
  = latLonVector (- la) (if Rle_dec lo 0 then lo + 180 else lo - 180).
Proof.
  assert (Hpi : 180 * TO_RAD = PI) by (unfold TO_RAD; field; apply PI_neq0).
  unfold Vec.negate, latLonVector. cbn [vx vy vz].
  replace (- la * TO_RAD) with (- (la * TO_RAD)) by ring.
  rewrite cos_neg, sin_neg.
  destruct (Rle_dec lo 0).
  - replace ((lo + 180) * TO_RAD) with (lo * TO_RAD + PI) by (rewrite <- Hpi; ring).
    rewrite neg_cos, neg_sin. f_equal; ring.
  - replace ((lo - 180) * TO_RAD) with (lo * TO_RAD - PI) by (rewrite <- Hpi; ring).
    rewrite cos_minus, sin_minus, cos_PI, sin_PI. f_equal; ring.
Qed.

Lemma negate_coordinates (EPSILON la lo : R) (p : Point) :
  EPSILON <= 1 -> -90 < la < 90 -> -180 < lo <= 180 ->
  vec p = latLonVector la lo ->
  negate EPSILON p
  = Ok (pointAt (- la) (if Rle_dec lo 0 then lo + 180 else lo - 180)).
Proof.
  intros He Hla Hlo Hv. unfold negate. rewrite Hv, negate_latLonVector.
  apply fromVector_latLonVector; try lra.
  destruct (Rle_dec lo 0); lra.
Qed.

(** X9: the antipode.  For a point between the poles with a longitude in
    (-180, 180] other than 0, [negate] returns the point with the opposite
    latitude and the longitude half a turn away, and the antipode of the
    antipode is the point itself.  (At longitude 0 the antipode lies on
    the negative [x] axis, where the sign of the zero that [Vector.negate]
    leaves decides between 180 and -180.) *)
Theorem negate_involutive (EPSILON la lo : R) :
  EPSILON <= 1 -> -90 < la < 90 -> -180 < lo <= 180 -> lo <> 0 ->
  exists q,
    negate EPSILON (pointAt la lo) = Ok q
    /\ lat q = - la
    /\ lon q = (if Rle_dec lo 0 then lo + 180 else lo - 180)
    /\ vec q = Vec.negate (pointAt la lo)
    /\ negate EPSILON q = Ok (pointAt la lo).
Proof.
  intros He Hla Hlo _. eexists. split.
  - apply (negate_coordinates EPSILON la lo); try assumption. reflexivity.
  - cbn [lat lon vec pointAt]. repeat split.
    + symmetry. apply negate_latLonVector.
    + rewrite (negate_coordinates EPSILON (- la)
                 (if Rle_dec lo 0 then lo + 180 else lo - 180));
        try reflexivity; try lra.
      * f_equal. rewrite Ropp_involutive. f_equal.
        destruct (Rle_dec lo 0); destruct (Rle_dec _ 0); lra.
      * destruct (Rle_dec lo 0); lra.
Qed.

Lemma negate_involutive_witness :
  / 1000 <= 1 /\ -90 < 45 < 90 /\ -180 < 90 <= 180 /\ 90 <> 0
  /\ exists q, negate (/ 1000) (pointAt 45 90) = Ok q
               /\ lat q = - 45 /\ lon q = -90.
Proof.
  split; [lra |]. split; [lra |]. split; [lra |]. split; [lra |].
  destruct (negate_involutive (/ 1000) 45 90) as (q & H1 & H2 & H3 & _);
    try lra.
  exists q. split; [exact H1 |]. split; [exact H2 |].
  rewrite H3. destruct (Rle_dec 90 0); lra.
Defined.

(** ** Orientation *)

Lemma isZero_minus_sym (EPSILON a b : R) :
  isZero EPSILON (a - b) = isZero EPSILON (b - a).
Proof. unfold isZero. now rewrite Rabs_minus_sym. Qed.

Lemma equals_sym (EPSILON : R) (p q : Point) :
  isPolar EPSILON p = isPolar EPSILON q ->
  equals EPSILON p q = equals EPSILON q p.
Proof.
  intros H. unfold equals.
  rewrite (isZero_minus_sym EPSILON (lat p)), (isZero_minus_sym EPSILON (lon p)).
  now rewrite H.
Qed.

Lemma cross_dot_swap (a b c : Vector) :
  Vec.dot (Vec.cross b a) c = - Vec.dot (Vec.cross a b) c.
Proof. unfold Vec.dot, Vec.cross. cbn [vx vy vz]. ring. Qed.

Lemma cross_dot_cycle (a b c : Vector) :
  Vec.dot (Vec.cross b c) a = Vec.dot (Vec.cross a b) c.
Proof. unfold Vec.dot, Vec.cross. cbn [vx vy vz]. ring. Qed.

(** X10: away from the poles the orientation of three points is the same for
    every rotation of the three, and exchanging two of them exchanges
    clockwise and anticlockwise. *)
Theorem getOrientation_permute (EPSILON : R) (p1 p2 p3 : Point) :
  0 <= EPSILON ->
  isPolar EPSILON p1 = false -> isPolar EPSILON p2 = false ->
  isPolar EPSILON p3 = false ->
  getOrientation EPSILON p2 p3 p1 = getOrientation EPSILON p1 p2 p3
  /\ getOrientation EPSILON p2 p1 p3
     = match getOrientation EPSILON p1 p2 p3 with
       | ANTICLOCKWISE => CLOCKWISE
       | COLLINEAR => COLLINEAR
       | CLOCKWISE => ANTICLOCKWISE
       end.
Proof.
  intros He H1 H2 H3. unfold getOrientation.
  rewrite (equals_sym EPSILON p2 p1) by congruence.
  rewrite (equals_sym EPSILON p3 p1) by congruence.
  rewrite (cross_dot_cycle p1 p2 p3), (cross_dot_swap p1 p2 p3).
  set (d := Vec.dot (Vec.cross p1 p2) p3).
  destruct (equals EPSILON p1 p2), (equals EPSILON p1 p3),
    (equals EPSILON p2 p3); cbn [orb]; try (split; reflexivity).
  split; [reflexivity |].
  unfold num_gt, num_lt.
  destruct (Rlt_dec EPSILON d), (Rlt_dec EPSILON (- d)),
    (Rlt_dec d (- EPSILON)), (Rlt_dec (- d) (- EPSILON));
    try reflexivity; lra.
Qed.

Lemma getOrientation_permute_witness :
  0 <= / 1000
  /\ getOrientation (/ 1000) pA pC pB
     = match getOrientation (/ 1000) pC pA pB with
       | ANTICLOCKWISE => CLOCKWISE
       | COLLINEAR => COLLINEAR
       | CLOCKWISE => ANTICLOCKWISE
       end.
Proof.
  split; [lra |].
  apply (getOrientation_permute (/ 1000) pC pA pB); try lra;
    unfold isPolar, isEqual, isZero; cbn [lat pC pA pB pointAt];
    apply num_lt_false; unfold Rabs;
    repeat destruct (Rcase_abs _); lra.
Defined.

(** ** [getIntersection] *)

Lemma fromVector_coordinates (EPSILON : R) (v : Vector) (normalised : bool)
  (p : Point) :
  fromVector EPSILON v normalised = Ok p ->
  lat p = asin (vz v / Vec.norm v) * TO_DEG
  /\ lon p = Math_atan2 (vy v) (vx v) * TO_DEG.
Proof.
  unfold fromVector, normalise, newPoint. intros H.
  destruct (negb (isZero EPSILON (Vec.norm v))); cbn [assert bind] in H;
    [| discriminate].
  destruct normalised; cbn [assert bind] in H.
  all: destruct (_ && _) in H; cbn [assert bind] in H; [| discriminate].
  all: destruct (_ && _) in H; cbn [assert bind] in H; [| discriminate].
  all: injection H as <-; cbn [lat lon]; split; reflexivity.
Qed.

Lemma dot_cross_left (a b : Vector) : Vec.dot (Vec.cross a b) a = 0.
Proof. unfold Vec.dot, Vec.cross. cbn [vx vy vz]. ring. Qed.

Lemma dot_cross_right (a b : Vector) : Vec.dot (Vec.cross a b) b = 0.
Proof. unfold Vec.dot, Vec.cross. cbn [vx vy vz]. ring. Qed.

(** X11: [getIntersection] never throws.  It returns [false] exactly when
    the product of the two normals is shorter than the tolerance, and
    otherwise two points whose vectors are opposite and lie on both great
    circles, at opposite latitudes. *)
Theorem getIntersection_total (EPSILON : R) (p1 p2 p3 p4 : Point) :
  0 < EPSILON ->
  (Vec.norm (Vec.cross (Vec.cross p1 p2) (Vec.cross p3 p4)) < EPSILON ->
   getIntersection EPSILON p1 p2 p3 p4 = Ok None)
  /\ (EPSILON <= Vec.norm (Vec.cross (Vec.cross p1 p2) (Vec.cross p3 p4)) ->
      exists int negInt,
        getIntersection EPSILON p1 p2 p3 p4 = Ok (Some (int, negInt))
        /\ vec int = Vec.cross (Vec.cross p1 p2) (Vec.cross p3 p4)
        /\ vec negInt = Vec.negate int
        /\ Vec.dot int (Vec.cross p1 p2) = 0
        /\ Vec.dot int (Vec.cross p3 p4) = 0
        /\ lat negInt = - lat int).
Proof.
  intros He. unfold getIntersection.
  set (c1 := Vec.cross p1 p2). set (c2 := Vec.cross p3 p4).
  set (c3 := Vec.cross c1 c2). split; intros H.
  - apply isZero_norm in H. now rewrite H.
  - pose proof H as Hz. apply isZero_norm_false in Hz. rewrite Hz.
    assert (Hn : EPSILON <= Vec.norm (Vec.negate c3))
      by now rewrite norm_negate.
    destruct (fromVector_defined EPSILON c3 false H)
      as (int & Ei & _ & _ & Vi).
    destruct (fromVector_defined EPSILON (Vec.negate c3) false Hn)
      as (negInt & En & _ & _ & Vn).
    exists int, negInt. rewrite Ei, En. cbn [bind].
    split; [reflexivity |]. split; [exact Vi |].
    split; [now rewrite Vn, Vi |].
    rewrite Vi. unfold c3.
    split; [unfold Vec.dot, Vec.cross; cbn [vx vy vz]; ring |].
    split; [unfold Vec.dot, Vec.cross; cbn [vx vy vz]; ring |].
    apply fromVector_coordinates in Ei, En.
    destruct Ei as [-> _], En as [-> _].
    rewrite norm_negate. unfold Vec.negate. cbn [vz].
    replace (- vz c3 / Vec.norm c3) with (- (vz c3 / Vec.norm c3))
      by (unfold Rdiv; ring).
    rewrite asin_opp. ring.
Qed.

(** ** Reflection across a great circle *)

Lemma norm_one_sqr (v : Vector) :
  Vec.norm v = 1 -> vx v * vx v + vy v * vy v + vz v * vz v = 1.
Proof. intros H. rewrite <- norm_sqr, H. ring. Qed.

Lemma reflected_norm (p n : Vector) :
  Vec.norm p = 1 -> Vec.norm n = 1 ->
  Vec.norm (Vec.subtract p (Vec.scale n (2 * Vec.dot p n))) = 1.
Proof.
  intros Hp Hn. apply norm_one_sqr in Hp, Hn.
  unfold Vec.norm, Vec.subtract, Vec.scale, Vec.dot. cbn [vx vy vz].
  destruct p as [px py pz], n as [nx ny nz]. cbn [vx vy vz] in *.
  set (d := px * nx + py * ny + pz * nz).
  replace ((px - nx * (2 * d)) * (px - nx * (2 * d))
           + (py - ny * (2 * d)) * (py - ny * (2 * d))
           + (pz - nz * (2 * d)) * (pz - nz * (2 * d)))
    with (px * px + py * py + pz * pz
          + 4 * d * d * (nx * nx + ny * ny + nz * nz - 1))
    by (unfold d; ring).
  rewrite Hp, Hn. replace (1 + 4 * d * d * (1 - 1)) with 1 by ring.
  apply sqrt_1.
Qed.

Lemma reflected_twice (p n : Vector) :
  Vec.norm n = 1 ->
  let w := Vec.subtract p (Vec.scale n (2 * Vec.dot p n)) in
  Vec.subtract w (Vec.scale n (2 * Vec.dot w n)) = p.
Proof.
  intros Hn w. apply norm_one_sqr in Hn. unfold w.
  destruct p as [px py pz], n as [nx ny nz]. cbn [vx vy vz] in *.
  unfold Vec.subtract, Vec.scale, Vec.dot. cbn [vx vy vz].
  set (d := px * nx + py * ny + pz * nz).
  replace ((px - nx * (2 * d)) * nx + (py - ny * (2 * d)) * ny
           + (pz - nz * (2 * d)) * nz)
    with (d - 2 * d * (nx * nx + ny * ny + nz * nz)) by (unfold d; ring).
  rewrite Hn. f_equal; ring.
Qed.

(** X12: when the normal of the great circle through [r] and [l] has length
    one, that is when [r] and [l] are a quarter turn apart, [reflectPoint]
    is an involution on the unit sphere: the reflection of the reflection
    of [p] has the vector of [p]. *)
Theorem reflectPoint_quarter_turn (EPSILON : R) (p r l : Point) :
  0 < EPSILON <= 1 ->
  Vec.norm p = 1 -> Vec.norm (Vec.cross r l) = 1 ->
  exists q q',
    reflectPoint EPSILON p r l = Ok q
    /\ Vec.norm q = 1
    /\ reflectPoint EPSILON q r l = Ok q'
    /\ vec q' = vec p.
Proof.
  intros He Hp Hn. unfold reflectPoint. cbv zeta.
  set (n := Vec.cross r l) in *.
  set (w := Vec.subtract p (Vec.scale n (2 * Vec.dot p n))).
  assert (Hw : Vec.norm w = 1) by now apply reflected_norm.
  destruct (fromVector_defined EPSILON w true) as (q & Eq & _ & _ & Vq);
    [lra |].
  rewrite Hw, scale_one in Vq.
  exists q. rewrite Eq, Vq.
  set (w' := Vec.subtract w (Vec.scale n (2 * Vec.dot w n))).
  assert (Hw' : w' = p) by now apply reflected_twice.
  destruct (fromVector_defined EPSILON w' true) as (q' & Eq' & _ & _ & Vq');
    [rewrite Hw'; lra |].
  rewrite Hw', Hp, scale_one in Vq'.
  exists q'. repeat split; assumption.
Qed.

Lemma latLonVector_0_90 : latLonVector 0 90 = mkVector 0 1 0.
Proof.
  unfold latLonVector.
  replace (0 * TO_RAD) with 0 by ring.
  replace (90 * TO_RAD) with (PI / 2) by (unfold TO_RAD; field; apply PI_neq0).
  rewrite cos_0, sin_0, cos_PI2, sin_PI2. f_equal; ring.
Qed.

Lemma reflectPoint_quarter_turn_witness :
  0 < / 1000 <= 1
  /\ Vec.norm pC = 1 /\ Vec.norm (Vec.cross pA (pointAt 0 90)) = 1
  /\ exists q q',
      reflectPoint (/ 1000) pC pA (pointAt 0 90) = Ok q
      /\ reflectPoint (/ 1000) q pA (pointAt 0 90) = Ok q'
      /\ vec q' = vec pC.
Proof.
  assert (H1 : Vec.norm pC = 1) by apply latLonVector_norm.
  assert (H2 : Vec.norm (Vec.cross pA (pointAt 0 90)) = 1).
  { rewrite vec_pA. cbn [vec pointAt]. rewrite latLonVector_0_90.
    unfold Vec.cross, Vec.norm. cbn [vx vy vz].
    replace (_ + _ + _) with 1 by ring. apply sqrt_1. }
  split; [lra |]. split; [exact H1 |]. split; [exact H2 |].
  destruct (reflectPoint_quarter_turn (/ 1000) pC pA (pointAt 0 90))
    as (q & q' & Hq & _ & Hq' & Hv); try assumption; [lra |].
  exists q, q'. repeat split; assumption.
Defined.

(** X13: a point of the unit sphere that lies on the great circle through
    [r] and [l] is its own reflection. *)
Theorem reflectPoint_on_circle (EPSILON : R) (p r l : Point) :
  0 < EPSILON <= 1 ->
  Vec.norm p = 1 -> Vec.dot p (Vec.cross r l) = 0 ->
  exists q, reflectPoint EPSILON p r l = Ok q /\ vec q = vec p.
Proof.
  intros He Hp Hd. unfold reflectPoint. cbv zeta. rewrite Hd.
  assert (Hw : Vec.subtract p (Vec.scale (Vec.cross r l) (2 * 0)) = vec p).
  { destruct (vec p) as [px py pz]. unfold Vec.subtract, Vec.scale.
    cbn [vx vy vz].
    assert (Hz : forall a b, a - b * (2 * 0) = a) by (intros; ring).
    now rewrite !Hz. }
  rewrite Hw.
  destruct (fromVector_defined EPSILON p true) as (q & Eq & _ & _ & Vq);
    [lra |].
  rewrite Hp, scale_one in Vq. exists q. now split.
Qed.

Lemma reflectPoint_on_circle_witness :
  0 < / 1000 <= 1 /\ Vec.norm pA = 1 /\ Vec.dot pA (Vec.cross pA pB) = 0
  /\ exists q, reflectPoint (/ 1000) pA pA pB = Ok q /\ vec q = vec pA.
Proof.
  assert (H1 : Vec.norm pA = 1) by apply latLonVector_norm.
  assert (H2 : Vec.dot pA (Vec.cross pA pB) = 0).
  { unfold Vec.dot, Vec.cross. cbn [vx vy vz]. ring. }
  split; [lra |]. split; [exact H1 |]. split; [exact H2 |].
  apply reflectPoint_on_circle; try assumption. lra.
Defined.

(** ** The flags that [Mesh.read] sets *)

Lemma assert_Ok (cond : bool) (msg : string) (u : unit) :
  assert cond msg = Ok u -> cond = true.
Proof. destruct cond; [reflexivity | discriminate]. Qed.

Lemma setPolygons_loop_flags (nPolygons : Z) (todo : list Z) :
  forall (corner ambiguous corner' ambiguous' : bool),
    setPolygons_loop nPolygons todo corner ambiguous = Ok (corner', ambiguous') ->
    Forall (fun j => (-1 <= j < nPolygons)%Z) todo
    /\ corner' = corner || Nat.ltb 0 (count_occ Z.eq_dec todo (-1)%Z)
    /\ ambiguous'
       = ambiguous
         || Nat.ltb (if corner then 0 else 1) (count_occ Z.eq_dec todo (-1)%Z).
Proof.
  induction todo as [| pIndex rest IH]; intros corner ambiguous corner' ambiguous' H.
  - cbn in H. injection H as <- <-. cbn.
    rewrite !orb_false_r. destruct corner; auto.
  - cbn [setPolygons_loop] in H. apply bind_Ok in H. destruct H as (u & Ha & H).
    apply assert_Ok in Ha. apply andb_true_iff in Ha. destruct Ha as [Hlo Hhi].
    apply Z.leb_le in Hlo. apply Z.ltb_lt in Hhi.
    cbn [count_occ]. destruct (Z.eqb_spec pIndex (-1)) as [-> | Hne].
    + destruct (Z.eq_dec (-1) (-1)) as [_ | Hc]; [| contradiction].
      destruct corner.
      * apply IH in H. destruct H as (HF & -> & ->).
        split; [constructor; [lia | exact HF] |]. split; [reflexivity |].
        rewrite orb_true_r. reflexivity.
      * apply IH in H. destruct H as (HF & -> & ->).
        split; [constructor; [lia | exact HF] |]. split; [reflexivity |].
        f_equal.
    + destruct (Z.eq_dec pIndex (-1)) as [Hc | _]; [contradiction |].
      apply IH in H. destruct H as (HF & -> & ->).
      split; [constructor; [lia | exact HF] |]. split; reflexivity.
Qed.

Lemma setPolygons_loop_total (nPolygons : Z) (todo : list Z) :
  Forall (fun j => (-1 <= j < nPolygons)%Z) todo ->
  forall corner ambiguous,
    exists flags, setPolygons_loop nPolygons todo corner ambiguous = Ok flags.
Proof.
  induction 1 as [| j rest Hj _ IH]; intros corner ambiguous; cbn [setPolygons_loop].
  - eauto.
  - replace ((-1 <=? j)%Z && (j <? nPolygons)%Z) with true.
    + cbn [assert bind]. destruct (j =? -1)%Z; [destruct corner |]; apply IH.
    + symmetry. apply andb_true_iff. split; [apply Z.leb_le | apply Z.ltb_lt]; lia.
Qed.

Lemma setPolygons_inv (nPolygons : Z) (v v' : Vertex) :
  isCorner v = false -> isAmbiguous v = false ->
  setPolygons nPolygons v = Ok v' ->
  vpoint v' = vpoint v /\ Vertex_id v' = Vertex_id v
  /\ pIndices v' = pIndices v
  /\ (isCorner v' = true <-> In (-1)%Z (pIndices v))
  /\ (isAmbiguous v' = true
      <-> (2 <= count_occ Z.eq_dec (pIndices v) (-1)%Z)%nat)
  /\ Forall (fun j => (-1 <= j < nPolygons)%Z) (pIndices v).
Proof.
  intros Hc Ha H. unfold setPolygons in H. apply bind_Ok in H.
  destruct H as ([corner' ambiguous'] & Hloop & H). injection H as <-.
  cbn [vpoint Vertex_id pIndices isCorner isAmbiguous fst snd].
  rewrite Hc, Ha in Hloop. apply setPolygons_loop_flags in Hloop.
  destruct Hloop as (HF & -> & ->). cbn [orb].
  repeat split; try reflexivity; try assumption.
  - intros H. apply Nat.ltb_lt in H.
    now apply (count_occ_In Z.eq_dec).
  - intros H. apply Nat.ltb_lt. now apply (count_occ_In Z.eq_dec).
  - intros H. apply Nat.ltb_lt in H. lia.
  - intros H. apply Nat.ltb_lt. lia.
Qed.

(** X14: [Vertex.setPolygons] succeeds exactly when every incident
    identifier is [-1] or the index of a polygon; it then marks the vertex
    as a corner iff it touches an obstacle sector, and as ambiguous iff it
    touches two or more, and changes nothing else. *)
Theorem setPolygons_flags (nPolygons : Z) (v : Vertex) :
  isCorner v = false -> isAmbiguous v = false ->
  (forall v',
      setPolygons nPolygons v = Ok v' ->
      vpoint v' = vpoint v /\ Vertex_id v' = Vertex_id v
      /\ pIndices v' = pIndices v
      /\ (isCorner v' = true <-> In (-1)%Z (pIndices v))
      /\ (isAmbiguous v' = true
          <-> (2 <= count_occ Z.eq_dec (pIndices v) (-1)%Z)%nat))
  /\ ((exists v', setPolygons nPolygons v = Ok v')
      <-> Forall (fun j => (-1 <= j < nPolygons)%Z) (pIndices v)).
Proof.
  intros Hc Ha. split.
  - intros v' H. apply setPolygons_inv in H; try assumption. tauto.
  - split.
    + intros (v' & H). apply setPolygons_inv in H; try assumption. tauto.
    + intros H. unfold setPolygons.
      destruct (setPolygons_loop_total nPolygons (pIndices v) H
                  (isCorner v) (isAmbiguous v)) as (flags & ->).
      cbn [bind]. eauto.
Qed.

Lemma setPolygons_flags_witness :
  isCorner (mkVertex pA 0 false false [0; 1; -1; 2]%Z) = false
  /\ setPolygons 3 (mkVertex pA 0 false false [0; 1; -1; 2]%Z) = Ok vA
  /\ (isCorner vA = true <-> In (-1)%Z [0; 1; -1; 2]%Z).
Proof.
  split; [reflexivity |]. split; [reflexivity |].
  apply (setPolygons_flags 3 (mkVertex pA 0 false false [0; 1; -1; 2]%Z));
    reflexivity.
Defined.

Lemma setNeighbours_loop_oneWay (nPolygons : Z) (todo : list Z) :
  forall (foundTrav oneWay oneWay' : bool),
    setNeighbours_loop nPolygons todo foundTrav oneWay = Ok oneWay' ->
    Forall (fun j => (-1 <= j < nPolygons)%Z) todo
    /\ oneWay'
       = oneWay
         && Nat.leb (length (filter (fun j => negb (j =? -1)%Z) todo))
              (if foundTrav then 0 else 1).
Proof.
  induction todo as [| nIndex rest IH]; intros foundTrav oneWay oneWay' H.
  - cbn in H. injection H as <-. cbn. rewrite andb_true_r. auto.
  - cbn [setNeighbours_loop] in H. apply bind_Ok in H. destruct H as (u & Ha & H).
    apply assert_Ok in Ha. apply andb_true_iff in Ha. destruct Ha as [Hlo Hhi].
    apply Z.leb_le in Hlo. apply Z.ltb_lt in Hhi.
    cbn [filter]. destruct (nIndex =? -1)%Z; cbn [negb].
    + apply IH in H. destruct H as (HF & ->).
      split; [constructor; [lia | exact HF] | reflexivity].
    + destruct foundTrav.
      * apply IH in H. destruct H as (HF & ->).
        split; [constructor; [lia | exact HF] |].
        cbn [length Nat.leb andb]. now rewrite andb_false_r.
      * apply IH in H. destruct H as (HF & ->).
        split; [constructor; [lia | exact HF] |].
        cbn [length]. reflexivity.
Qed.

Lemma setNeighbours_loop_total (nPolygons : Z) (todo : list Z) :
  Forall (fun j => (-1 <= j < nPolygons)%Z) todo ->
  forall foundTrav oneWay,
    exists oneWay', setNeighbours_loop nPolygons todo foundTrav oneWay = Ok oneWay'.
Proof.
  induction 1 as [| j rest Hj _ IH]; intros foundTrav oneWay;
    cbn [setNeighbours_loop].
  - eauto.
  - replace ((-1 <=? j)%Z && (j <? nPolygons)%Z) with true.
    + cbn [assert bind]. destruct (j =? -1)%Z; [| destruct foundTrav]; apply IH.
    + symmetry. apply andb_true_iff. split; [apply Z.leb_le | apply Z.ltb_lt]; lia.
Qed.

Lemma setNeighbours_inv (nPolygons : Z) (p p' : Polygon) :
  isOneWay p = true ->
  setNeighbours nPolygons p = Ok p' ->
  (isOneWay p' = true
   <-> (length (filter (fun j => negb (j =? -1)%Z) (nIndices p)) <= 1)%nat)
  /\ Forall (fun j => (-1 <= j < nPolygons)%Z) (nIndices p)
  /\ Polygon_id p' = Polygon_id p /\ vIndices p' = vIndices p
  /\ nIndices p' = nIndices p /\ vertices p' = vertices p.
Proof.
  intros Hw H. unfold setNeighbours in H. apply bind_Ok in H.
  destruct H as (oneWay & Hloop & H). injection H as <-.
  cbn [isOneWay Polygon_id vIndices nIndices vertices].
  rewrite Hw in Hloop. apply setNeighbours_loop_oneWay in Hloop.
  destruct Hloop as (HF & ->). cbn [andb].
  repeat split; try reflexivity; try assumption.
  - intros H. now apply Nat.leb_le in H.
  - intros H. now apply Nat.leb_le.
Qed.

(** X15: [Polygon.setNeighbours] succeeds exactly when every neighbour
    identifier is [-1] or the index of a polygon; the polygon is then
    one-way iff at most one of its neighbours is traversable, and nothing
    else of it changes. *)
Theorem setNeighbours_oneWay (nPolygons : Z) (p : Polygon) :
  isOneWay p = true ->
  (forall p',
      setNeighbours nPolygons p = Ok p' ->
      (isOneWay p' = true
       <-> (length (filter (fun j => negb (j =? -1)%Z) (nIndices p)) <= 1)%nat)
      /\ Polygon_id p' = Polygon_id p /\ vIndices p' = vIndices p
      /\ nIndices p' = nIndices p /\ vertices p' = vertices p)
  /\ ((exists p', setNeighbours nPolygons p = Ok p')
      <-> Forall (fun j => (-1 <= j < nPolygons)%Z) (nIndices p)).
Proof.
  intros Hw. split.
  - intros p' H. apply setNeighbours_inv in H; try assumption. tauto.
  - split.
    + intros (p' & H). apply setNeighbours_inv in H; try assumption. tauto.
    + intros H. unfold setNeighbours.
      destruct (setNeighbours_loop_total nPolygons (nIndices p) H
                  false (isOneWay p)) as (w & ->).
      cbn [bind]. eauto.
Qed.

Lemma setNeighbours_oneWay_witness :
  isOneWay (mkPolygon 0 [2; 0; 1]%Z [-1; 1; 2]%Z [vC; vA; vB] true) = true
  /\ setNeighbours 3 (mkPolygon 0 [2; 0; 1]%Z [-1; 1; 2]%Z [vC; vA; vB] true)
     = Ok polyCAB
  /\ (isOneWay polyCAB = true
      <-> (length (filter (fun j => negb (j =? -1)%Z) [-1; 1; 2]%Z) <= 1)%nat).
Proof.
  split; [reflexivity |]. split; [reflexivity |].
  apply (setNeighbours_oneWay 3
           (mkPolygon 0 [2; 0; 1]%Z [-1; 1; 2]%Z [vC; vA; vB] true));
    reflexivity.
Defined.

(** ** The mesh that [Mesh.read] returns *)

Lemma mapM_Forall2 {A B : Type} (f : A -> result B) (l : list A) :
  forall l', mapM f l = Ok l' -> Forall2 (fun a b => f a = Ok b) l l'.
Proof.
  induction l as [| a rest IH]; intros l' H; cbn [mapM] in H.
  - injection H as <-. constructor.
  - apply bind_Ok in H. destruct H as (b & Hb & H).
    apply bind_Ok in H. destruct H as (bs & Hbs & H). injection H as <-.
    constructor; auto.
Qed.

Lemma Forall2_nth_right {A B : Type} (P : A -> B -> Prop) (l : list A)
  (l' : list B) :
  Forall2 P l l' ->
  forall i b, nth_error l' i = Some b ->
              exists a, nth_error l i = Some a /\ P a b.
Proof.
  induction 1 as [| a b l l' Hab _ IH]; intros i x Hx.
  - destruct i; discriminate.
  - destruct i as [| i]; cbn in *.
    + injection Hx as <-. eauto.
    + eauto.
Qed.

Lemma nth_error_indices (a : Z) (k i : nat) (x : Z) :
  nth_error (indices a k) i = Some x -> x = (a + Z.of_nat i)%Z /\ (i < k)%nat.
Proof.
  revert a i. induction k as [| k IH]; intros a i H; cbn [indices] in H.
  - destruct i; discriminate.
  - destruct i as [| i]; cbn in H.
    + injection H as <-. split; lia.
    + apply IH in H. lia.
Qed.

Lemma length_indices (a : Z) (k : nat) : length (indices a k) = k.
Proof. revert a. induction k; intros a; cbn; auto. Qed.

Lemma readVertex_inv (file : MeshFile) (i : Z) (v : Vertex) :
  readVertex file i = Ok v ->
  Vertex_id v = i /\ (2 <= length (pIndices v))%nat
  /\ isCorner v = false /\ isAmbiguous v = false
  /\ -90 <= lat v <= 90 /\ -180 <= lon v <= 180.
Proof.
  unfold readVertex, newVertex. intros H.
  apply bind_Ok in H. destruct H as (line & _ & H).
  apply bind_Ok in H. destruct H as (u & _ & H).
  apply bind_Ok in H. destruct H as (p & Hp & H).
  apply bind_Ok in H. destruct H as (u' & Ha & H).
  injection H as <-. cbn [Vertex_id pIndices isCorner isAmbiguous vpoint].
  apply assert_Ok, Z.ltb_lt in Ha. unfold len in Ha.
  apply newPoint_inv in Hp. destruct Hp as (H1 & H2 & -> & -> & _).
  repeat split; try reflexivity; try lra. lia.
Qed.

Lemma readPolygon_inv (file : MeshFile) (i : Z) (p : Polygon) :
  (0 <= i)%Z ->
  readPolygon file i = Ok p ->
  Polygon_id p = i /\ (3 <= length (vIndices p))%nat
  /\ length (nIndices p) = length (vIndices p)
  /\ isOneWay p = true.
Proof.
  unfold readPolygon, newPolygon. intros Hi H.
  apply bind_Ok in H. destruct H as (line & _ & H).
  apply bind_Ok in H. destruct H as (u & _ & H).
  apply bind_Ok in H. destruct H as (u' & Ha & H).
  injection H as <-. cbn [Polygon_id vIndices nIndices isOneWay].
  destruct (Z.eqb_spec i (-1)) as [-> | _]; [lia |].
  apply bind_Ok in Ha. destruct Ha as (u'' & Ha & Hb).
  apply assert_Ok, Z.leb_le in Ha. apply assert_Ok, Z.eqb_eq in Hb.
  unfold len in *. repeat split; try reflexivity; lia.
Qed.

Lemma setVertices_inv (meshVertices : list Vertex) (p q : Polygon) :
  setVertices meshVertices p = Ok q ->
  Polygon_id q = Polygon_id p /\ vIndices q = vIndices p
  /\ nIndices q = nIndices p /\ isOneWay q = isOneWay p
  /\ Forall2 (fun j v => index meshVertices j = Some v)
       (vIndices p) (vertices q).
Proof.
  unfold setVertices. intros H. apply bind_Ok in H.
  destruct H as (vs & Hvs & H). injection H as <-.
  cbn [Polygon_id vIndices nIndices isOneWay vertices].
  repeat split; try reflexivity.
  apply mapM_Forall2 in Hvs.
  eapply Forall2_impl; [| exact Hvs]. cbn beta. intros j v Hj.
  apply bind_Ok in Hj. destruct Hj as (u & _ & Hj).
  destruct (index meshVertices j); [| discriminate]. cbn in Hj. congruence.
Qed.

Section ReadMesh.

Variable file : MeshFile.
Variable mesh : Mesh.
Hypothesis read_file : read file = Ok mesh.

Lemma read_inv :
  exists vs ps,
    mapM (readVertex file) (indices 0 (Z.to_nat (file_V file))) = Ok vs
    /\ mapM (readPolygon file) (indices 0 (Z.to_nat (file_P file))) = Ok ps
    /\ mapM (setPolygons (len ps)) vs = Ok (Mesh_vertices mesh)
    /\ mapM (fun p => q <- setVertices (Mesh_vertices mesh) p ;;
                      setNeighbours (len ps) q) ps
       = Ok (Mesh_polygons mesh).
Proof.
  pose proof read_file as H. unfold read in H.
  apply bind_Ok in H. destruct H as (u & _ & H).
  apply bind_Ok in H. destruct H as (u' & _ & H).
  apply bind_Ok in H. destruct H as (vs & Hvs & H).
  apply bind_Ok in H. destruct H as (ps & Hps & H).
  apply bind_Ok in H. destruct H as (vs' & Hvs' & H).
  apply bind_Ok in H. destruct H as (ps' & Hps' & H).
  injection H as <-. cbn [Mesh_vertices Mesh_polygons]. eauto 10.
Qed.

Lemma read_lengths :
  length (Mesh_vertices mesh) = Z.to_nat (file_V file)
  /\ length (Mesh_polygons mesh) = Z.to_nat (file_P file).
Proof.
  destruct read_inv as (vs & ps & Hvs & Hps & Hvs' & Hps').
  apply mapM_Forall2, Forall2_length in Hvs, Hps, Hvs', Hps'.
  rewrite length_indices in Hvs, Hps. lia.
Qed.

Lemma read_vertex (i : nat) (v : Vertex) :
  nth_error (Mesh_vertices mesh) i = Some v ->
  Vertex_id v = Z.of_nat i
  /\ (2 <= length (pIndices v))%nat
  /\ Forall (fun j => (-1 <= j < len (Mesh_polygons mesh))%Z) (pIndices v)
  /\ (isCorner v = true <-> In (-1)%Z (pIndices v))
  /\ (isAmbiguous v = true
      <-> (2 <= count_occ Z.eq_dec (pIndices v) (-1)%Z)%nat)
  /\ Vec.norm v = 1.
Proof.
  intros Hv. destruct read_inv as (vs & ps & Hvs & Hps & Hvs' & Hps').
  assert (Hlen : len (Mesh_polygons mesh) = len ps).
  { unfold len. f_equal. apply mapM_Forall2, Forall2_length in Hps'. lia. }
  apply mapM_Forall2 in Hvs, Hvs'.
  destruct (Forall2_nth_right _ _ _ Hvs' i v Hv) as (v0 & Hv0 & Hset).
  destruct (Forall2_nth_right _ _ _ Hvs i v0 Hv0) as (j & Hj & Hread).
  apply nth_error_indices in Hj. destruct Hj as [-> _].
  pose proof Hread as Hunit.
  apply readVertex_inv in Hread.
  destruct Hread as (Hid & Hn & Hc & Ha & _).
  destruct (setPolygons_inv (len ps) v0 v Hc Ha Hset)
    as (Hp & Hid' & Hpi & Hcorner & Hamb & Hrange).
  rewrite Hpi, Hid', Hid, Hlen.
  repeat split; try assumption; try lia.
  - apply Hcorner.
  - apply Hcorner.
  - apply Hamb.
  - apply Hamb.
  - rewrite Hp. unfold readVertex, newVertex in Hunit.
    apply bind_Ok in Hunit. destruct Hunit as (line & _ & H).
    apply bind_Ok in H. destruct H as (u & _ & H).
    apply bind_Ok in H. destruct H as (p & Hnp & H).
    apply bind_Ok in H. destruct H as (u' & _ & H).
    injection H as <-. cbn [vpoint].
    now apply newPoint_inv in Hnp.
Qed.

Lemma read_polygon (i : nat) (p : Polygon) :
  nth_error (Mesh_polygons mesh) i = Some p ->
  Polygon_id p = Z.of_nat i
  /\ (3 <= length (vertices p))%nat
  /\ length (vIndices p) = length (vertices p)
  /\ length (nIndices p) = length (vertices p)
  /\ Forall2 (fun j v => index (Mesh_vertices mesh) j = Some v)
       (vIndices p) (vertices p)
  /\ Forall (fun j => (-1 <= j < len (Mesh_polygons mesh))%Z) (nIndices p)
  /\ (isOneWay p = true
      <-> (length (filter (fun j => negb (j =? -1)%Z) (nIndices p)) <= 1)%nat).
Proof.
  intros Hp. destruct read_inv as (vs & ps & Hvs & Hps & Hvs' & Hps').
  assert (Hlen : len (Mesh_polygons mesh) = len ps).
  { unfold len. f_equal. apply mapM_Forall2, Forall2_length in Hps'. lia. }
  apply mapM_Forall2 in Hps, Hps'.
  destruct (Forall2_nth_right _ _ _ Hps' i p Hp) as (p0 & Hp0 & Hset).
  destruct (Forall2_nth_right _ _ _ Hps i p0 Hp0) as (j & Hj & Hread).
  apply nth_error_indices in Hj. destruct Hj as [-> _].
  apply readPolygon_inv in Hread; [| lia].
  destruct Hread as (Hid & Hn & Hnn & Hw).
  apply bind_Ok in Hset. destruct Hset as (q & Hq & Hset).
  apply setVertices_inv in Hq.
  destruct Hq as (Hqid & Hqv & Hqn & Hqw & Hres).
  rewrite <- Hqw in Hw.
  destruct (setNeighbours_inv (len ps) q p Hw Hset)
    as (Hone & Hrange & Hpid & Hpv & Hpn & Hpvs).
  pose proof (Forall2_length Hres) as Hlv.
  rewrite Hpid, Hqid, Hid, Hpv, Hqv, Hpn, Hqn, Hpvs, Hlen.
  rewrite Hqn in Hone, Hrange.
  repeat split; try assumption; try lia.
  - apply Hone.
  - apply Hone.
Qed.

End ReadMesh.

(** X16: in a mesh that [Mesh.read] returns there are as many vertices and
    polygons as the second line of the file announces, the identifier of
    each is its position, every vertex has at least two incident sectors
    and lies on the unit sphere, every polygon has at least three vertices
    and as many neighbours, and the flags are those of the incident
    lists. *)
Theorem read_identifiers (file : MeshFile) (mesh : Mesh) :
  read file = Ok mesh ->
  length (Mesh_vertices mesh) = Z.to_nat (file_V file)
  /\ length (Mesh_polygons mesh) = Z.to_nat (file_P file)
  /\ (forall i v,
         nth_error (Mesh_vertices mesh) i = Some v ->
         Vertex_id v = Z.of_nat i
         /\ (2 <= length (pIndices v))%nat
         /\ Vec.norm v = 1
         /\ (isCorner v = true <-> In (-1)%Z (pIndices v))
         /\ (isAmbiguous v = true
             <-> (2 <= count_occ Z.eq_dec (pIndices v) (-1)%Z)%nat))
  /\ (forall i p,
         nth_error (Mesh_polygons mesh) i = Some p ->
         Polygon_id p = Z.of_nat i
         /\ (3 <= length (vertices p))%nat
         /\ length (nIndices p) = length (vertices p)
         /\ (isOneWay p = true
             <-> (length (filter (fun j => negb (j =? -1)%Z) (nIndices p))
                  <= 1)%nat)).
Proof.
  intros H. destruct (read_lengths file mesh H) as [Hv Hp].
  split; [exact Hv |]. split; [exact Hp |]. split.
  - intros i v Hi. destruct (read_vertex file mesh H i v Hi)
      as (H1 & H2 & _ & H4 & H5 & H6). auto.
  - intros i p Hi. destruct (read_polygon file mesh H i p Hi)
      as (H1 & H2 & _ & H4 & _ & _ & H7). auto.
Qed.

Lemma read_identifiers_witness :
  read turnFile = Ok turnMesh
  /\ length (Mesh_vertices turnMesh) = Z.to_nat (file_V turnFile)
  /\ length (Mesh_polygons turnMesh) = Z.to_nat (file_P turnFile).
Proof.
  split; [exact read_turnFile |].
  destruct (read_identifiers turnFile turnMesh read_turnFile) as (H1 & H2 & _).
  split; assumption.
Defined.

Lemma index_Some_range {A : Type} (a : list A) (j : Z) :
  (0 <= j < len a)%Z -> exists x, index a j = Some x.
Proof.
  intros H. unfold index, len in *.
  destruct (Z.ltb_spec j 0); [lia |].
  destruct (nth_error a (Z.to_nat j)) eqn:E; [eauto |].
  apply nth_error_None in E. lia.
Qed.

Lemma polygonAt_Some (mesh : Mesh) (j : Z) :
  (-1 <= j < len (Mesh_polygons mesh))%Z -> exists q, polygonAt mesh j = Some q.
Proof.
  intros H. unfold polygonAt. destruct (Z.eqb_spec j (-1)); [eauto |].
  apply index_Some_range. lia.
Qed.

Lemma mapM_total {A B : Type} (f : A -> result B) (l : list A) :
  Forall (fun a => exists b, f a = Ok b) l ->
  exists l', mapM f l = Ok l' /\ length l' = length l.
Proof.
  induction 1 as [| a rest (b & Hb) _ (bs & Hbs & Hlen)]; cbn [mapM].
  - eauto.
  - rewrite Hb, Hbs. cbn [bind]. eexists. split; [reflexivity |].
    cbn. now rewrite Hlen.
Qed.

(** X17: in a mesh that [Mesh.read] returns every reference resolves: each
    side of each polygon has a neighbour, the obstacle or a polygon of the
    mesh, each vertex of a polygon is the vertex of the mesh its index
    names, and the polygons of each vertex can be listed. *)
Theorem read_references (file : MeshFile) (mesh : Mesh) :
  read file = Ok mesh ->
  (forall p, In p (Mesh_polygons mesh) ->
     (forall i, (0 <= i < len (vertices p))%Z ->
        exists q, neighbour mesh p i = Some q
                  /\ (Polygon_id q = (-1)%Z \/ In q (Mesh_polygons mesh)))
     /\ Forall2 (fun j v => index (Mesh_vertices mesh) j = Some v)
          (vIndices p) (vertices p))
  /\ (forall v, In v (Mesh_vertices mesh) ->
        exists ps, Vertex_polygons mesh v = Ok ps
                   /\ length ps = length (pIndices v)).
Proof.
  intros H. split.
  - intros p Hp. apply In_nth_error in Hp. destruct Hp as (k & Hk).
    destruct (read_polygon file mesh H k p Hk)
      as (_ & _ & _ & Hn & Hres & Hrange & _).
    split; [| exact Hres].
    intros i Hi. unfold neighbour.
    destruct (index_Some_range (nIndices p) i) as (j & Hj).
    { unfold len in *. lia. }
    rewrite Hj.
    assert (Hjr : (-1 <= j < len (Mesh_polygons mesh))%Z).
    { rewrite Forall_forall in Hrange. apply Hrange.
      unfold index in Hj. destruct (i <? 0)%Z; [discriminate |].
      eapply nth_error_In, Hj. }
    unfold polygonAt. destruct (Z.eqb_spec j (-1)) as [-> | Hne].
    + exists Obstacle. split; [reflexivity | left; reflexivity].
    + destruct (index_Some_range (Mesh_polygons mesh) j) as (q & Hq); [lia |].
      exists q. split; [exact Hq | right].
      unfold index in Hq. destruct (j <? 0)%Z; [discriminate |].
      eapply nth_error_In, Hq.
  - intros v Hv. apply In_nth_error in Hv. destruct Hv as (k & Hk).
    destruct (read_vertex file mesh H k v Hk) as (_ & _ & Hrange & _).
    unfold Vertex_polygons. apply mapM_total.
    eapply Forall_impl; [| exact Hrange]. cbn beta. intros j Hj.
    destruct (polygonAt_Some mesh j Hj) as (q & ->). cbn. eauto.
Qed.

Lemma read_references_witness :
  read turnFile = Ok turnMesh
  /\ exists ps, Vertex_polygons turnMesh vA = Ok ps
                /\ length ps = length (pIndices vA).
Proof.
  split; [exact read_turnFile |].
  destruct (read_references turnFile turnMesh read_turnFile) as [_ H].
  apply H. cbn. auto.
Defined.

(** ** What [containsPoint] returns *)

Lemma defined_Ok {A : Type} (o : option A) (a : A) :
  defined o = Ok a -> o = Some a.
Proof. destruct o; cbn; congruence. Qed.

Lemma index_In {A : Type} (a : list A) (j : Z) (x : A) :
  index a j = Some x -> In x a.
Proof.
  unfold index. destruct (j <? 0)%Z; [discriminate |]. apply nth_error_In.
Qed.

Lemma ring_In {A : Type} (a : list A) (j : Z) (x : A) :
  ring a j = Some x -> In x a.
Proof.
  unfold ring. destruct (len a =? 0)%Z; [discriminate |]. apply index_In.
Qed.

Lemma PolyContainmentType_eqb_eq (a b : PolyContainmentType) :
  PolyContainmentType_eqb a b = true <-> a = b.
Proof. destruct a, b; cbn; split; congruence. Qed.

Section ContainsPointLoop.

Variable EPSILON : R.
Variable mesh : Mesh.
Variable this : Polygon.
Variable point : Point.

(** The ways one turn of the loop of [containsPoint] can go. *)
Lemma containsPoint_loop_step (k : nat) (i : Z) (onEdge : bool)
  (c : PolyContainment) :
  containsPoint_loop EPSILON mesh this point (S k) i onEdge = Ok c ->
  exists vertex nextVertex,
    ring (vertices this) i = Some vertex
    /\ ring (vertices this) (i + 1) = Some nextVertex
    /\ ((equals EPSILON point vertex = true
         /\ c = mkPolyContainment ON_VERTEX Obstacle [vertex])
        \/ (equals EPSILON point vertex = false /\ onEdge = true
            /\ exists adj prev,
                neighbour mesh this i = Some adj
                /\ ring (vertices this) (i - 1) = Some prev
                /\ c = mkPolyContainment ON_EDGE adj [prev; vertex])
        \/ (equals EPSILON point vertex = false /\ onEdge = false
            /\ getOrientation EPSILON vertex nextVertex point = COLLINEAR
            /\ isBounded EPSILON point vertex nextVertex = Ok true
            /\ containsPoint_loop EPSILON mesh this point k (i + 1) true
               = Ok c)
        \/ (equals EPSILON point vertex = false /\ onEdge = false
            /\ getOrientation EPSILON vertex nextVertex point = CLOCKWISE
            /\ c = mkPolyContainment OUTSIDE Obstacle [])
        \/ (equals EPSILON point vertex = false /\ onEdge = false
            /\ getOrientation EPSILON vertex nextVertex point <> CLOCKWISE
            /\ ~ (getOrientation EPSILON vertex nextVertex point = COLLINEAR
                  /\ isBounded EPSILON point vertex nextVertex = Ok true)
            /\ containsPoint_loop EPSILON mesh this point k (i + 1) false
               = Ok c)).
Proof.
  cbn [containsPoint_loop]. intros H.
  apply bind_Ok in H. destruct H as (vertex & Hv & H).
  apply bind_Ok in H. destruct H as (nextVertex & Hn & H).
  apply defined_Ok in Hv, Hn. exists vertex, nextVertex.
  split; [exact Hv |]. split; [exact Hn |].
  destruct (equals EPSILON point vertex) eqn:Eq.
  - left. split; [reflexivity |]. congruence.
  - right. destruct onEdge.
    + left. apply bind_Ok in H. destruct H as (adj & Hadj & H).
      apply bind_Ok in H. destruct H as (prev & Hprev & H).
      apply defined_Ok in Hadj, Hprev.
      repeat split; try reflexivity. exists adj, prev.
      repeat split; congruence.
    + right. apply bind_Ok in H. destruct H as (bounded & Hb & H).
      destruct (getOrientation EPSILON vertex nextVertex point) eqn:Eo;
        cbn [Orientation_eqb] in Hb, H.
      * injection Hb as <-. right. right.
        repeat split; try assumption; try discriminate.
        intros [? _]. discriminate.
      * destruct bounded.
        -- left. repeat split; assumption.
        -- right. right. repeat split; try assumption; try discriminate.
           intros [_ Hb']. congruence.
      * injection Hb as <-. right. left. repeat split; congruence.
Qed.

Lemma containsPoint_loop_end (i : Z) (onEdge : bool) (c : PolyContainment) :
  containsPoint_loop EPSILON mesh this point 0 i onEdge = Ok c ->
  (onEdge = false /\ c = mkPolyContainment INSIDE Obstacle [])
  \/ (onEdge = true
      /\ exists adj a b,
          neighbour mesh this 0 = Some adj
          /\ ring (vertices this) (len (vertices this) - 1) = Some a
          /\ ring (vertices this) 0 = Some b
          /\ c = mkPolyContainment ON_EDGE adj [a; b]).
Proof.
  cbn [containsPoint_loop]. destruct onEdge; intros H.
  - right. split; [reflexivity |].
    apply bind_Ok in H. destruct H as (adj & Hadj & H).
    apply bind_Ok in H. destruct H as (a & Ha & H).
    apply bind_Ok in H. destruct H as (b & Hb & H).
    apply defined_Ok in Hadj, Ha, Hb. exists adj, a, b.
    repeat split; congruence.
  - left. split; congruence.
Qed.

Lemma containsPoint_loop_shaped (k : nat) :
  forall (i : Z) (onEdge : bool) (c : PolyContainment),
    containsPoint_loop EPSILON mesh this point k i onEdge = Ok c ->
    shaped EPSILON mesh this point c
    /\ (onEdge = true -> pc_type c = ON_EDGE \/ pc_type c = ON_VERTEX).
Proof.
  induction k as [| k IH]; intros i onEdge c H.
  - apply containsPoint_loop_end in H.
    destruct H as [[-> ->] | (-> & adj & a & b & Hadj & Ha & Hb & ->)].
    + split; [| discriminate]. unfold shaped. cbn. auto.
    + split; [| auto]. unfold shaped. cbn. split.
      * exists a, b. repeat split; eauto using ring_In.
      * eauto.
  - apply containsPoint_loop_step in H.
    destruct H as (vertex & nextVertex & Hv & Hn & H).
    destruct H as [(Eq & ->) | [(Eq & -> & adj & prev & Hadj & Hprev & ->)
                  | [(Eq & -> & Ho & Hb & H) | [(Eq & -> & Ho & ->)
                  | (Eq & -> & Ho & Hb & H)]]]].
    + split; [| auto]. unfold shaped. cbn. split; [reflexivity |].
      exists vertex. repeat split; eauto using ring_In.
    + split; [| auto]. unfold shaped. cbn. split.
      * exists prev, vertex. repeat split; eauto using ring_In.
      * eauto.
    + apply IH in H. split; [apply H | discriminate].
    + split; [| discriminate]. unfold shaped. cbn. auto.
    + apply IH in H. split; [apply H | discriminate].
Qed.

End ContainsPointLoop.

(** X18: the result of [containsPoint] has the shape that [types.ts]
    documents.  For [OUTSIDE] and [INSIDE] it carries the obstacle and no
    vertex; for [ON_VERTEX] the obstacle and one vertex of the polygon,
    which the point equals; for [ON_EDGE] two vertices of the polygon and
    one of its neighbours. *)
Theorem containsPoint_shape (EPSILON : R) (mesh : Mesh) (this : Polygon)
  (point : Point) (c : PolyContainment) :
  containsPoint EPSILON mesh this point = Ok c ->
  match pc_type c with
  | OUTSIDE | INSIDE => adjPoly c = Obstacle /\ verts c = []
  | ON_VERTEX =>
      adjPoly c = Obstacle
      /\ exists v, verts c = [v] /\ In v (vertices this)
                   /\ equals EPSILON point v = true
  | ON_EDGE =>
      (exists a b, verts c = [a; b] /\ In a (vertices this)
                   /\ In b (vertices this))
      /\ exists i, neighbour mesh this i = Some (adjPoly c)
  end.
Proof.
  intros H. unfold containsPoint in H.
  apply containsPoint_loop_shaped in H. apply H.
Qed.

Section ContainsPointMeaning.

Variable EPSILON : R.
Variable mesh : Mesh.
Variable this : Polygon.
Variable point : Point.

Lemma ring_nat_step (m : nat) (x y : Vertex) :
  ring (vertices this) (Z.of_nat m) = Some x ->
  ring (vertices this) (Z.of_nat m + 1) = Some y ->
  (m < length (vertices this))%nat ->
  nth_error (vertices this) m = Some x
  /\ nth_error (vertices this) ((m + 1) mod length (vertices this)) = Some y.
Proof.
  intros Hx Hy Hm.
  assert (Hne : vertices this <> []).
  { intros E. rewrite E in Hm. cbn in Hm. lia. }
  rewrite ring_inside in Hx by assumption.
  replace (Z.of_nat m + 1)%Z with (Z.of_nat (m + 1)) in Hy by lia.
  rewrite ring_of_nat in Hy by assumption. auto.
Qed.

Lemma containsPoint_loop_meaning (d : nat) :
  forall (m : nat) (c : PolyContainment),
    (m + d = length (vertices this))%nat ->
    containsPoint_loop EPSILON mesh this point d (Z.of_nat m) false = Ok c ->
    (pc_type c = INSIDE ->
     forall j, (m <= j < length (vertices this))%nat -> clearOf EPSILON this point j)
    /\ (pc_type c = OUTSIDE ->
        exists j, (m <= j < length (vertices this))%nat /\ rightOf EPSILON this point j
                  /\ forall j', (m <= j' < j)%nat -> clearOf EPSILON this point j').
Proof.
  induction d as [| d IH]; intros m c Hm H.
  - apply containsPoint_loop_end in H.
    destruct H as [[_ ->] | [H _]]; [| discriminate].
    cbn. split; [intros _ j Hj; lia | discriminate].
  - apply containsPoint_loop_step in H.
    destruct H as (vertex & nextVertex & Hv & Hn & H).
    destruct (ring_nat_step m vertex nextVertex Hv Hn) as [Nv Nn]; [lia |].
    destruct H as [(Eq & ->) | [(Eq & Hc & _)
                  | [(Eq & _ & Ho & Hb & H) | [(Eq & _ & Ho & ->)
                  | (Eq & _ & Ho & Hb & H)]]]].
    + cbn. split; discriminate.
    + discriminate.
    + apply containsPoint_loop_shaped in H. destruct H as [_ H].
      destruct (H eq_refl) as [E | E]; rewrite E; split; discriminate.
    + cbn. split; [discriminate |]. intros _. exists m.
      split; [lia |]. split.
      * exists vertex, nextVertex. auto.
      * intros j' Hj'. lia.
    + replace (Z.of_nat m + 1)%Z with (Z.of_nat (m + 1)) in H by lia.
      apply IH in H; [| lia]. destruct H as [Hin Hout].
      assert (Hclear : clearOf EPSILON this point m).
      { intros vj vj' Hj Hj'. rewrite Nv in Hj. rewrite Nn in Hj'.
        injection Hj as <-. injection Hj' as <-. auto. }
      split.
      * intros Hc j Hj. destruct (Nat.eq_dec j m) as [-> | Hne];
          [exact Hclear | apply Hin; [exact Hc | lia]].
      * intros Hc. destruct (Hout Hc) as (j & Hj & Hr & Hbefore).
        exists j. split; [lia |]. split; [exact Hr |].
        intros j' Hj'. destruct (Nat.eq_dec j' m) as [-> | Hne];
          [exact Hclear | apply Hbefore; lia].
Qed.

End ContainsPointMeaning.

(** X19: what [INSIDE] and [OUTSIDE] mean.  When [containsPoint] answers
    [INSIDE], the point equals no vertex of the polygon, is clockwise of
    no edge and lies on no edge; when it answers [OUTSIDE], the point is
    clockwise of some edge. *)
Theorem containsPoint_meaning (EPSILON : R) (mesh : Mesh) (this : Polygon)
  (point : Point) (c : PolyContainment) :
  containsPoint EPSILON mesh this point = Ok c ->
  (pc_type c = INSIDE ->
   forall j vj vj',
     nth_error (vertices this) j = Some vj ->
     nth_error (vertices this) ((j + 1) mod length (vertices this)) = Some vj' ->
     equals EPSILON point vj = false
     /\ getOrientation EPSILON vj vj' point <> CLOCKWISE
     /\ ~ (getOrientation EPSILON vj vj' point = COLLINEAR
           /\ isBounded EPSILON point vj vj' = Ok true))
  /\ (pc_type c = OUTSIDE ->
      exists j vj vj',
        nth_error (vertices this) j = Some vj
        /\ nth_error (vertices this) ((j + 1) mod length (vertices this))
           = Some vj'
        /\ getOrientation EPSILON vj vj' point = CLOCKWISE).
Proof.
  intros H. unfold containsPoint in H.
  apply (containsPoint_loop_meaning EPSILON mesh this point _ 0%nat) in H;
    [| reflexivity].
  destruct H as [Hin Hout]. split.
  - intros Hc j vj vj' Hj Hj'. apply (Hin Hc j); try assumption.
    split; [lia |]. apply nth_error_Some. congruence.
  - intros Hc. destruct (Hout Hc) as (j & _ & (vj & vj' & H1 & H2 & _ & H4) & _).
    eauto 10.
Qed.

Lemma containsPoint_meaning_witness :
  containsPoint (/ 1000) turnMesh polyCAB pN
  = Ok (mkPolyContainment OUTSIDE Obstacle [])
  /\ exists j vj vj',
      nth_error (vertices polyCAB) j = Some vj
      /\ nth_error (vertices polyCAB) ((j + 1) mod length (vertices polyCAB))
         = Some vj'
      /\ getOrientation (/ 1000) vj vj' pN = CLOCKWISE.
Proof.
  assert (H : containsPoint (/ 1000) turnMesh polyCAB pN
              = Ok (mkPolyContainment OUTSIDE Obstacle [])).
  { apply (containsPoint_CAB_N (/ 1000)) with (v0 := vC) (v1 := vA) (v2 := vB);
      try reflexivity; lra. }
  split; [exact H |].
  apply (containsPoint_meaning (/ 1000) turnMesh polyCAB pN _ H). reflexivity.
Defined.

Lemma containsPoint_shape_witness :
  containsPoint (/ 1000) turnMesh polyCAB pN
  = Ok (mkPolyContainment OUTSIDE Obstacle [])
  /\ adjPoly (mkPolyContainment OUTSIDE Obstacle []) = Obstacle.
Proof.
  assert (H : containsPoint (/ 1000) turnMesh polyCAB pN
              = Ok (mkPolyContainment OUTSIDE Obstacle [])).
  { apply (containsPoint_CAB_N (/ 1000)) with (v0 := vC) (v1 := vA) (v2 := vB);
      try reflexivity; lra. }
  split; [exact H |].
  apply (containsPoint_shape (/ 1000) turnMesh polyCAB pN _ H).
Defined.

(** ** What [getPointLocation] returns *)

Section PointLocation.

Variable EPSILON : R.
Variable mesh : Mesh.
Variable p : Point.

Lemma located_more (P : Polygon) (polygons : list Polygon)
  (pl : PointLocation) :
  located EPSILON p polygons pl -> located EPSILON p (P :: polygons) pl.
Proof.
  unfold located. destruct (pl_type pl); try tauto.
  - intros [(Q & H1 & H2) H]. split; [| exact H]. exists Q. cbn. auto.
  - intros [(Q & H1 & H2) H]. split; [| exact H]. exists Q. cbn. auto.
  - intros [(Q & Q' & H1 & H2 & H3) H]. split; [| exact H].
    exists Q, Q'. cbn. auto.
Qed.

Lemma getPointLocation_loop_located (polygons : list Polygon) :
  forall pl,
    getPointLocation_loop EPSILON mesh polygons p = Ok pl ->
    located EPSILON p polygons pl
    /\ (pl_type pl = IN_OBSTACLE <->
        Forall (fun P => exists c, containsPoint EPSILON mesh P p = Ok c
                                   /\ pc_type c = OUTSIDE) polygons).
Proof.
  induction polygons as [| P rest IH]; intros pl H;
    cbn [getPointLocation_loop] in H.
  - injection H as <-. unfold located. cbn. split; [auto |].
    split; [constructor | reflexivity].
  - apply bind_Ok in H. destruct H as (res & Hres & H).
    assert (Hshape : shaped EPSILON mesh P p res).
    { unfold containsPoint in Hres.
      now apply containsPoint_loop_shaped in Hres. }
    unfold shaped in Hshape.
    assert (Hno : pc_type res <> OUTSIDE ->
                  ~ Forall (fun P => exists c,
                                containsPoint EPSILON mesh P p = Ok c
                                /\ pc_type c = OUTSIDE) (P :: rest)).
    { intros Hne HF. inversion HF as [| ? ? (c & Hc & Ho) _]; subst.
      rewrite Hres in Hc. injection Hc as <-. contradiction. }
    destruct (pc_type res) eqn:Et.
    + apply IH in H. destruct H as [Hl Hiff]. split.
      * now apply located_more.
      * rewrite Hiff. split.
        -- intros HF. constructor; [eauto | exact HF].
        -- intros HF. now inversion HF.
    + injection H as <-. unfold located. cbn. split.
      * split; [| reflexivity]. exists P. cbn. auto.
      * split; [discriminate |]. intros HF. exfalso.
        apply Hno; [discriminate | exact HF].
    + destruct Hshape as [(a & b & Hv & _) _].
      destruct (Z.eqb_spec (Polygon_id (adjPoly res)) (-1)) as [Hid | Hid];
        injection H as <-; unfold located; cbn; split.
      * split; [exists P; cbn; auto | eauto].
      * split; [discriminate |]. intros HF. exfalso.
        apply Hno; [discriminate | exact HF].
      * split; [exists P, (adjPoly res); cbn; auto | eauto].
      * split; [discriminate |]. intros HF. exfalso.
        apply Hno; [discriminate | exact HF].
    + destruct Hshape as [_ (v & Hv & _ & Heq)].
      rewrite Hv in H. cbn [index Z.ltb Z.compare Z.to_nat nth_error defined bind] in H.
      apply bind_Ok in H. destruct H as (ps & _ & H). injection H as <-.
      assert (HF : Forall (fun q => Polygon_id q <> (-1)%Z)
                     (filter (fun q => negb (Polygon_id q =? -1)%Z) ps)).
      { apply Forall_forall. intros q Hq. apply filter_In in Hq.
        destruct Hq as [_ Hq]. now apply negb_true_iff, Z.eqb_neq in Hq. }
      split.
      * unfold located. cbn [pl_type pl_polygons pl_vertices].
        destruct (isCorner v) eqn:Ec; [destruct (isAmbiguous v) eqn:Ea |];
          (split; [exact HF | exists v; auto]).
      * cbn [pl_type]. split.
        -- destruct (isCorner v); [destruct (isAmbiguous v) |]; discriminate.
        -- intros HF'. exfalso. apply Hno; [discriminate | exact HF'].
Qed.

End PointLocation.

(** X20: the result of [getPointLocation] has the shape that [types.ts]
    documents: no polygon and no vertex in an obstacle, one polygon of the
    mesh inside a polygon or on the border, two polygons on an inner edge,
    the second of them traversable, and on a vertex that vertex, which the
    point equals and whose flags give the type, with traversable polygons
    only.  The answer is [IN_OBSTACLE] exactly when every polygon of the
    mesh answers [OUTSIDE]. *)
Theorem getPointLocation_shape (EPSILON : R) (mesh : Mesh) (p : Point)
  (pl : PointLocation) :
  getPointLocation EPSILON mesh p = Ok pl ->
  match pl_type pl with
  | IN_OBSTACLE => pl_polygons pl = [] /\ pl_vertices pl = []
  | IN_POLYGON =>
      (exists P, pl_polygons pl = [P] /\ In P (Mesh_polygons mesh))
      /\ pl_vertices pl = []
  | ON_BORDER =>
      (exists P, pl_polygons pl = [P] /\ In P (Mesh_polygons mesh))
      /\ exists a b, pl_vertices pl = [a; b]
  | ON_EDGE_LOC =>
      (exists P Q, pl_polygons pl = [P; Q] /\ In P (Mesh_polygons mesh)
                   /\ Polygon_id Q <> (-1)%Z)
      /\ exists a b, pl_vertices pl = [a; b]
  | ON_AMBIG_CORNER_VERTEX =>
      Forall (fun q => Polygon_id q <> (-1)%Z) (pl_polygons pl)
      /\ exists v, pl_vertices pl = [v] /\ equals EPSILON p v = true
                   /\ isCorner v = true /\ isAmbiguous v = true
  | ON_UNAMBIG_CORNER_VERTEX =>
      Forall (fun q => Polygon_id q <> (-1)%Z) (pl_polygons pl)
      /\ exists v, pl_vertices pl = [v] /\ equals EPSILON p v = true
                   /\ isCorner v = true /\ isAmbiguous v = false
  | ON_NON_CORNER_VERTEX =>
      Forall (fun q => Polygon_id q <> (-1)%Z) (pl_polygons pl)
      /\ exists v, pl_vertices pl = [v] /\ equals EPSILON p v = true
                   /\ isCorner v = false
  end
  /\ (pl_type pl = IN_OBSTACLE <->
      Forall (fun P => exists c, containsPoint EPSILON mesh P p = Ok c
                                 /\ pc_type c = OUTSIDE)
        (Mesh_polygons mesh)).
Proof.
  intros H. unfold getPointLocation in H.
  apply getPointLocation_loop_located in H. exact H.
Qed.

Lemma getPointLocation_shape_witness :
  getPointLocation (/ 1000) turnMesh pN
  = Ok (mkPointLocation ON_UNAMBIG_CORNER_VERTEX [polyNWAC] [vN])
  /\ Forall (fun q => Polygon_id q <> (-1)%Z) [polyNWAC].
Proof.
  assert (H : getPointLocation (/ 1000) turnMesh pN
              = Ok (mkPointLocation ON_UNAMBIG_CORNER_VERTEX [polyNWAC] [vN])).
  { apply getPointLocation_turnMesh_N; lra. }
  split; [exact H |].
  apply (getPointLocation_shape (/ 1000) turnMesh pN _ H).
Defined.

(** ** The entries of the priority queue *)

Lemma pop_perm (T : Type) (comparator : T -> T -> bool) (heap heap' : list T)
  (x : T) :
  PriorityQueue.pop T comparator heap = Ok (x, heap') ->
  PriorityQueue.peek T heap = Some x /\ Permutation heap (x :: heap').
Proof.
  unfold PriorityQueue.pop. intros H.
  apply bind_Ok in H. destruct H as (u & Ha & H).
  apply bind_Ok in H. destruct H as (y & Hy & H).
  injection H as -> <-.
  apply defined_Ok in Hy. split; [exact Hy |].
  destruct heap as [| z rest]; [discriminate |].
  unfold PriorityQueue.peek in Hy. cbn in Hy. injection Hy as ->.
  set (heap := x :: rest) in *.
  set (heap1 := if Nat.ltb 0 (PriorityQueue.size T heap - 1)
                then PriorityQueue.swap T heap PriorityQueue.top
                       (PriorityQueue.size T heap - 1)
                else heap).
  assert (Hlen1 : length heap1 = length heap).
  { unfold heap1. destruct (Nat.ltb 0 (PriorityQueue.size T heap - 1)); [| reflexivity].
    apply HeapFacts.length_swap. }
  assert (Hlast : nth_error heap1 (length heap1 - 1) = Some x).
  { rewrite Hlen1. unfold heap1, PriorityQueue.size.
    destruct (Nat.ltb_spec 0 (length heap - 1)) as [Hn | Hn].
    - rewrite HeapFacts.nth_error_swap
        by (unfold PriorityQueue.top, heap in *; cbn [length] in *; lia).
      now rewrite Nat.eqb_refl.
    - replace (length heap - 1)%nat with 0%nat by lia. reflexivity. }
  apply perm_trans with heap1.
  - unfold heap1. destruct (Nat.ltb 0 (PriorityQueue.size T heap - 1)); [| reflexivity].
    apply Permutation_sym, HeapFacts.swap_perm.
  - rewrite (HeapFacts.removelast_last T heap1 x Hlast) at 1.
    apply perm_trans with (x :: removelast heap1).
    + apply Permutation_sym, Permutation_cons_append.
    + apply perm_skip, Permutation_sym, HeapFacts.siftDown_loop_perm.
Qed.

(** X22: the queue loses and invents nothing.  After [push] it holds the
    entries it held and the values pushed, and its new size is the sum of
    the two sizes; [pop] returns the entry at the top, the one [peek]
    shows, and leaves all the others. *)
Theorem queue_entries (T : Type) (comparator : T -> T -> bool)
  (heap : list T) :
  (forall values,
      Permutation (PriorityQueue.push T comparator heap values)
        (heap ++ values)
      /\ PriorityQueue.size T (PriorityQueue.push T comparator heap values)
         = (PriorityQueue.size T heap + length values)%nat)
  /\ (forall x heap',
         PriorityQueue.pop T comparator heap = Ok (x, heap') ->
         PriorityQueue.peek T heap = Some x
         /\ Permutation heap (x :: heap')
         /\ S (PriorityQueue.size T heap') = PriorityQueue.size T heap).
Proof.
  split.
  - intros values.
    pose proof (HeapFacts.push_perm T comparator values heap) as H.
    split; [exact H |].
    unfold PriorityQueue.size. apply Permutation_length in H.
    now rewrite H, length_app.
  - intros x heap' H. apply pop_perm in H. destruct H as [Hp H].
    repeat split; try assumption.
    apply Permutation_length in H. unfold PriorityQueue.size.
    rewrite H. reflexivity.
Qed.

Lemma queue_entries_witness :
  PriorityQueue.pop nat Nat.ltb [1; 2; 3]%nat = Ok (1%nat, [2; 3]%nat)
  /\ Permutation [1; 2; 3]%nat (1 :: [2; 3])%nat.
Proof.
  split; [reflexivity |].
  apply (queue_entries nat Nat.ltb [1; 2; 3]%nat). reflexivity.
Defined.

(** X23: two entries popped one after the other come out in order: the
    second does not go before the first, whenever the comparator is a
    strict weak order and the queue was built by [push] and [pop]. *)
Theorem pop_in_order (T : Type) (comparator : T -> T -> bool)
  (heap heap1 heap2 : list T) (x y : T) :
  (forall a b, comparator a b = true -> comparator b a = false) ->
  (forall a b c, comparator a b = false -> comparator b c = false ->
                 comparator a c = false) ->
  PriorityQueue.reachable T comparator heap ->
  PriorityQueue.pop T comparator heap = Ok (x, heap1) ->
  PriorityQueue.pop T comparator heap1 = Ok (y, heap2) ->
  comparator y x = false.
Proof.
  intros Hasym Hneg Hr H1 H2.
  pose proof (HeapFacts.reachable_ordered T comparator Hasym Hneg heap Hr)
    as Ho.
  destruct heap as [| z rest]; [discriminate |].
  destruct (HeapFacts.pop_ordered T comparator Hasym Hneg z rest Ho)
    as (h' & Hp & Hperm & Hmin & _).
  rewrite Hp in H1. injection H1 as -> ->.
  apply Hmin. apply pop_perm in H2. destruct H2 as [_ H2].
  apply (Permutation_in y (Permutation_sym Hperm)).
  right. apply (Permutation_in y (Permutation_sym H2)). now left.
Qed.

Lemma Nat_ltb_asym (a b : nat) : Nat.ltb a b = true -> Nat.ltb b a = false.
Proof. intros H. apply Nat.ltb_lt in H. apply Nat.ltb_ge. lia. Qed.

Lemma Nat_ltb_negtrans (a b c : nat) :
  Nat.ltb a b = false -> Nat.ltb b c = false -> Nat.ltb a c = false.
Proof. rewrite !Nat.ltb_ge. lia. Qed.

Lemma pop_in_order_witness :
  PriorityQueue.reachable nat Nat.ltb
    (PriorityQueue.push nat Nat.ltb [] [3; 1; 2]%nat)
  /\ PriorityQueue.pop nat Nat.ltb
       (PriorityQueue.push nat Nat.ltb [] [3; 1; 2]%nat)
     = Ok (1%nat, [2; 3]%nat)
  /\ PriorityQueue.pop nat Nat.ltb [2; 3]%nat = Ok (2%nat, [3]%nat)
  /\ Nat.ltb 2 1 = false.
Proof.
  assert (Hr : PriorityQueue.reachable nat Nat.ltb
                 (PriorityQueue.push nat Nat.ltb [] [3; 1; 2]%nat))
    by (constructor; constructor).
  split; [exact Hr |]. split; [reflexivity |]. split; [reflexivity |].
  exact (pop_in_order nat Nat.ltb _ _ _ 1%nat 2%nat Nat_ltb_asym
           Nat_ltb_negtrans Hr eq_refl eq_refl).
Defined.

(** ** The order of the nodes *)

(** X24: [lt] is a strict weak order: no node goes before itself, no two
    nodes go before each other, the order is transitive, and two nodes
    neither of which goes before the other have the same [f] and the same
    [g]. *)
Theorem lt_strict_weak_order :
  (forall a, lt a a = false)
  /\ (forall a b, lt a b = true -> lt b a = false)
  /\ (forall a b c, lt a b = true -> lt b c = true -> lt a c = true)
  /\ (forall a b, lt a b = false /\ lt b a = false
                  <-> node_f a = node_f b /\ node_g a = node_g b).
Proof.
  split; [| split; [| split]].
  - intros a. apply lt_false_iff. unfold precedes. lra.
  - apply lt_asym.
  - intros a b c. rewrite !lt_iff_precedes. unfold precedes. lra.
  - intros a b. rewrite !lt_false_iff. unfold precedes. lra.
Qed.

(** ** The costs of a node *)

Lemma newSearchNode_h_bound (EPSILON : R) (parent : option SearchNode)
  (root right left : Point) (rightV leftV : option Vertex)
  (nextPoly : Polygon) (g : R) (goal : Point) (node : SearchNode) :
  newSearchNode EPSILON parent root right left rightV leftV nextPoly g goal
  = Ok node ->
  0 <= node_h node <= 360.
Proof.
  intros H. unfold newSearchNode in H.
  apply bind_Ok in H. destruct H as (u & _ & H).
  apply bind_Ok in H. destruct H as (u' & _ & H).
  destruct (equals EPSILON root left || equals EPSILON root right).
  - injection H as <-. cbn [node_h].
    pose proof (distance_bound EPSILON root goal). lra.
  - apply bind_Ok in H. destruct H as (e & _ & H).
    pose proof (distance_bound EPSILON root right).
    pose proof (distance_bound EPSILON right e).
    pose proof (distance_bound EPSILON root left).
    pose proof (distance_bound EPSILON left e).
    pose proof (distance_bound EPSILON root e).
    destruct (Orientation_eqb (getOrientation EPSILON root right e) CLOCKWISE);
      [| destruct (Orientation_eqb (getOrientation EPSILON root left e)
                     ANTICLOCKWISE)];
      injection H as <-; cbn [node_h]; lra.
Qed.

(** X25: the costs of a node that the constructor returns.  Its [g] is the
    one given; its heuristic is never negative and at most 360, so [f] is
    never below [g] and at most [g + 360]. *)
Theorem newSearchNode_costs (EPSILON : R) (parent : option SearchNode)
  (root right left : Point) (rightV leftV : option Vertex)
  (nextPoly : Polygon) (g : R) (goal : Point) (node : SearchNode) :
  newSearchNode EPSILON parent root right left rightV leftV nextPoly g goal
  = Ok node ->
  node_g node = g /\ 0 <= node_h node <= 360
  /\ node_g node <= node_f node <= node_g node + 360.
Proof.
  intros H. pose proof (newSearchNode_h_bound _ _ _ _ _ _ _ _ _ _ _ H) as Hh.
  apply newSearchNode_inv in H. destruct H as (_ & _ & E).
  split; [rewrite E; reflexivity |]. split; [exact Hh |].
  unfold node_f. lra.
Qed.

Lemma newSearchNode_costs_witness :
  newSearchNode (/ 1000) None pB pC pA (Some vC) (Some vA) polyNWAC 0 pN
  = Ok nodeThroughCA
  /\ 0 <= node_h nodeThroughCA <= 360.
Proof.
  split; [exact newSearchNode_nodeThroughCA |].
  apply (newSearchNode_costs (/ 1000) None pB pC pA (Some vC) (Some vA)
           polyNWAC 0 pN nodeThroughCA newSearchNode_nodeThroughCA).
Defined.

(** ** Successors *)

Lemma splitSuccessors_loop_inv (EPSILON : R) (mesh : Mesh) (this : SearchNode)
  (right left : Point) (range : Z * Z) (newRoot : Point) (todo : list Z) :
  forall successors l,
    splitSuccessors_loop EPSILON mesh this right left range newRoot todo
      successors = Ok l ->
    Forall (successorOf EPSILON mesh this newRoot) successors ->
    Forall (successorOf EPSILON mesh this newRoot) l.
Proof.
  induction todo as [| i rest IH]; intros successors l H HF;
    cbn [splitSuccessors_loop] in H.
  - now injection H as <-.
  - apply bind_Ok in H. destruct H as (vertex & Hv & H).
    apply bind_Ok in H. destruct H as (nextVertex & Hn & H).
    apply bind_Ok in H. destruct H as (nextPoly & Hp & H).
    apply defined_Ok in Hv, Hn, Hp.
    destruct (Z.eqb_spec (Polygon_id nextPoly) (-1)) as [Hid | Hid].
    + now apply (IH successors).
    + apply bind_Ok in H. destruct H as (node & Hnode & H).
      apply (IH (successors ++ [node])); [exact H |].
      apply Forall_app. split; [exact HF |]. constructor; [| constructor].
      pose proof (newSearchNode_h_bound _ _ _ _ _ _ _ _ _ _ _ Hnode)
        as [Hh _].
      apply newSearchNode_inv in Hnode. destruct Hnode as (Ho & _ & E).
      rewrite E in Hh |- *. unfold successorOf.
      cbn [node_parent node_root node_goal node_g nextPolygon node_right
             node_left rightVertex leftVertex].
      repeat split; try assumption; try reflexivity.
      exists i, vertex, nextVertex. auto.
Qed.

Lemma splitSuccessors_inv (EPSILON : R) (mesh : Mesh) (this : SearchNode)
  (right left : Point) (range : Z * Z) (newRoot : Point) (l : list SearchNode) :
  splitSuccessors EPSILON mesh this right left range newRoot = Ok l ->
  Forall (successorOf EPSILON mesh this newRoot) l.
Proof.
  intros H. unfold splitSuccessors in H.
  apply splitSuccessors_loop_inv in H; [exact H | constructor].
Qed.

Lemma genSuccessors_inv (EPSILON : R) (mesh : Mesh) (this : SearchNode)
  (successors : list SearchNode) :
  genSuccessors EPSILON mesh this = Ok successors ->
  Forall (fun s => successorOf EPSILON mesh this (node_root this) s
                   \/ successorOf EPSILON mesh this (node_right this) s
                   \/ successorOf EPSILON mesh this (node_left this) s)
    successors.
Proof.
  intros H. unfold genSuccessors in H.
  apply bind_Ok in H. destruct H as (rightV & _ & H).
  apply bind_Ok in H. destruct H as (leftV & _ & H).
  apply bind_Ok in H. destruct H as (antipode & _ & H).
  apply bind_Ok in H. destruct H as (c & _ & H).
  apply bind_Ok in H. destruct H as (projection & _ & H).
  destruct projection as [[[[newRight newLeft] observable] nonObservableRight]
                            nonObservableLeft].
  apply bind_Ok in H. destruct H as (s1 & H1 & H).
  apply bind_Ok in H. destruct H as (s2 & H2 & H).
  apply bind_Ok in H. destruct H as (s3 & H3 & H).
  injection H as <-.
  apply splitSuccessors_inv in H1.
  assert (F2 : Forall (successorOf EPSILON mesh this (node_right this)) s2).
  { destruct (_ && _) in H2.
    - now apply splitSuccessors_inv in H2.
    - injection H2 as <-. constructor. }
  assert (F3 : Forall (successorOf EPSILON mesh this (node_left this)) s3).
  { destruct (_ && _) in H3.
    - now apply splitSuccessors_inv in H3.
    - injection H3 as <-. constructor. }
  apply Forall_app. split; [| apply Forall_app; split].
  - eapply Forall_impl; [| exact H1]. auto.
  - eapply Forall_impl; [| exact F2]. auto.
  - eapply Forall_impl; [| exact F3]. auto.
Qed.

(** X26: every successor that [genSuccessors] returns for a node has that
    node as its parent and the same goal; its root is the root, the right
    end or the left end of the node, and its [g] is the [g] of the node
    plus the distance between the two roots; its next polygon is not the
    obstacle but the neighbour of the node's next polygon across the edge
    between its own right and left vertices, which are consecutive
    vertices of that polygon. *)
Theorem genSuccessors_successors (EPSILON : R) (mesh : Mesh)
  (this : SearchNode) (successors : list SearchNode) (s : SearchNode) :
  genSuccessors EPSILON mesh this = Ok successors ->
  In s successors ->
  node_parent s = Some this
  /\ node_goal s = node_goal this
  /\ (node_root s = node_root this \/ node_root s = node_right this
      \/ node_root s = node_left this)
  /\ node_g s
     = node_g this + distance EPSILON (node_root this) (node_root s)
  /\ node_g this <= node_g s
  /\ 0 <= node_h s
  /\ Polygon_id (nextPolygon s) <> (-1)%Z
  /\ getOrientation EPSILON (node_root s) (node_right s) (node_left s)
     <> CLOCKWISE
  /\ exists i v w,
      ring (vertices (nextPolygon this)) i = Some v
      /\ ring (vertices (nextPolygon this)) (i + 1) = Some w
      /\ rightVertex s = Some v /\ leftVertex s = Some w
      /\ neighbourRing mesh (nextPolygon this) (i + 1) = Some (nextPolygon s).
Proof.
  intros H Hin. apply genSuccessors_inv in H.
  rewrite Forall_forall in H. specialize (H s Hin).
  assert (Hgen : forall newRoot,
             successorOf EPSILON mesh this newRoot s ->
             node_root s = newRoot ->
             node_parent s = Some this
             /\ node_goal s = node_goal this
             /\ node_g s
                = node_g this + distance EPSILON (node_root this) (node_root s)
             /\ node_g this <= node_g s
             /\ 0 <= node_h s
             /\ Polygon_id (nextPolygon s) <> (-1)%Z
             /\ getOrientation EPSILON (node_root s) (node_right s)
                  (node_left s) <> CLOCKWISE
             /\ exists i v w,
                 ring (vertices (nextPolygon this)) i = Some v
                 /\ ring (vertices (nextPolygon this)) (i + 1) = Some w
                 /\ rightVertex s = Some v /\ leftVertex s = Some w
                 /\ neighbourRing mesh (nextPolygon this) (i + 1)
                    = Some (nextPolygon s)).
  { intros newRoot (H1 & H2 & H3 & H4 & Hh & H5 & H6 & H7) _.
    pose proof (distance_bound EPSILON (node_root this) newRoot).
    repeat split; try assumption; try (rewrite H2; assumption).
    rewrite H4. lra. }
  destruct H as [H | [H | H]]; pose proof H as (_ & Hroot & _);
    destruct (Hgen _ H Hroot) as (G1 & G2 & G3 & G4 & G5 & G6 & G7 & G8);
    repeat split; auto.
Qed.

Lemma origin_unfold (n : SearchNode) :
  origin n = match node_parent n with
             | None => node_root n
             | Some p => origin p
             end.
Proof. destruct n. reflexivity. Qed.

(** Induction along the chain of the parents. *)
Lemma SearchNode_parent_ind (P : SearchNode -> Prop) :
  (forall n, node_parent n = None -> P n) ->
  (forall n p, node_parent n = Some p -> P p -> P n) ->
  forall n, P n.
Proof.
  intros H0 H1. fix F 1. intros n.
  destruct n as [parent root right left rv lv poly g h goal].
  destruct parent as [p |].
  - apply (H1 (mkSearchNode (Some p) root right left rv lv poly g h goal) p
             eq_refl (F p)).
  - apply H0. reflexivity.
Qed.

(** ** [getPath] *)

Section GetPath.

Variable EPSILON : R.

Lemma distinctNeighbours_cons (a b : Point) (rest : list Point) :
  equals EPSILON a b = false ->
  distinctNeighbours EPSILON (b :: rest) -> distinctNeighbours EPSILON (a :: b :: rest).
Proof.
  intros Hab H i x y Hx Hy. destruct i as [| i].
  - cbn in Hx, Hy. injection Hx as <-. injection Hy as <-. exact Hab.
  - cbn in Hx, Hy. now apply (H i).
Qed.

Lemma getPath_loop_unfold (current : SearchNode) (last : Point)
  (path : list Point) :
  getPath_loop EPSILON current last path
  = let changed := negb (equals EPSILON (node_root current) last) in
    let last' := if changed then node_root current else last in
    let path' := if changed then node_root current :: path else path in
    match node_parent current with
    | None => path'
    | Some p => getPath_loop EPSILON p last' path'
    end.
Proof. destruct current. reflexivity. Qed.

(** The path grows at its head only; [tail] is what it ends with. *)
Lemma getPath_loop_path (current : SearchNode) :
  forall (last : Point) (rest : list Point),
    distinctNeighbours EPSILON (last :: rest) ->
    exists prefix first,
      getPath_loop EPSILON current last (last :: rest)
      = prefix ++ last :: rest
      /\ hd_error (prefix ++ last :: rest) = Some first
      /\ distinctNeighbours EPSILON (prefix ++ last :: rest)
      /\ (first = origin current
          \/ equals EPSILON (origin current) first = true).
Proof.
  induction current as [n Hn | n p Hp IH] using SearchNode_parent_ind;
    intros last rest Hd; rewrite getPath_loop_unfold; cbv zeta; rewrite ?Hn, ?Hp.
  - rewrite (origin_unfold n), Hn.
    destruct (equals EPSILON (node_root n) last) eqn:E; cbn [negb].
    + exists [], last. cbn. auto.
    + exists [node_root n], (node_root n). cbn [app hd_error].
      repeat split; auto. now apply distinctNeighbours_cons.
  - rewrite (origin_unfold n), Hp.
    destruct (equals EPSILON (node_root n) last) eqn:E; cbn [negb].
    + apply IH. exact Hd.
    + destruct (IH (node_root n) (last :: rest)) as (prefix & first & H1 & H2 & H3 & H4).
      { now apply distinctNeighbours_cons. }
      exists (prefix ++ [node_root n]), first.
      rewrite <- !app_assoc. cbn [app]. auto.
Qed.

End GetPath.

Lemma getPath_ends (EPSILON : R) (end_ : Point) (node : SearchNode) :
  exists prefix first,
    getPath EPSILON end_ node = prefix ++ [end_]
    /\ hd_error (getPath EPSILON end_ node) = Some first
    /\ (first = origin node \/ equals EPSILON (origin node) first = true).
Proof.
  unfold getPath.
  destruct (getPath_loop_path EPSILON node end_ [])
    as (prefix & first & H1 & H2 & _ & H4).
  { intros i a b Ha Hb. destruct i; cbn in Hb; [discriminate |].
    destruct i; discriminate. }
  exists prefix, first. rewrite H1. auto.
Qed.

(** X27: the path that [getPath] returns ends with the end point, no two of
    its consecutive points are equal, and its first point is the root of
    the oldest ancestor of the node or a point that this root equals. *)
Theorem getPath_path (EPSILON : R) (end_ : Point) (node : SearchNode) :
  exists prefix first,
    getPath EPSILON end_ node = prefix ++ [end_]
    /\ hd_error (getPath EPSILON end_ node) = Some first
    /\ (first = origin node \/ equals EPSILON (origin node) first = true)
    /\ forall i a b,
        nth_error (getPath EPSILON end_ node) i = Some a ->
        nth_error (getPath EPSILON end_ node) (S i) = Some b ->
        equals EPSILON a b = false.
Proof.
  unfold getPath.
  destruct (getPath_loop_path EPSILON node end_ [])
    as (prefix & first & H1 & H2 & H3 & H4).
  { intros i a b Ha Hb. destruct i; cbn in Hb; [discriminate |].
    destruct i; discriminate. }
  exists prefix, first. rewrite H1. auto.
Qed.

(** ** The history of a search *)

Lemma key_eqb_eq (a b : Z * Z) : key_eqb a b = true <-> a = b.
Proof.
  destruct a as [a1 a2], b as [b1 b2]. unfold key_eqb. cbn [fst snd].
  rewrite andb_true_iff, !Z.eqb_eq. split.
  - intros [-> ->]. reflexivity.
  - intros [= -> ->]. auto.
Qed.

Lemma Map_get_set (m : History) (key key' : Z * Z) (value : R) :
  Map_get (Map_set m key value) key'
  = if key_eqb key key' then Some value else Map_get m key'.
Proof.
  induction m as [| [k v] rest IH]; cbn [Map_set Map_get].
  - destruct (key_eqb key key'); reflexivity.
  - destruct (key_eqb k key) eqn:E; cbn [Map_get].
    + apply key_eqb_eq in E. subst k.
      destruct (key_eqb key key'); reflexivity.
    + destruct (key_eqb k key') eqn:E'; [| exact IH].
      apply key_eqb_eq in E'. subst k.
      destruct (key_eqb key key') eqn:E2; [| reflexivity].
      apply key_eqb_eq in E2. subst key'.
      assert (key_eqb key key = true) by now apply key_eqb_eq.
      congruence.
Qed.

Section History.

Variable EPSILON : R.

Lemma addSuccessor_get (history : History) (openList : list SearchNode)
  (successor : SearchNode) (key : Z * Z) :
  let state := addSuccessor EPSILON (history, openList) successor in
  (forall v, Map_get history key = Some v ->
             exists v', Map_get (fst state) key = Some v' /\ v' <= v)
  /\ (exists v, Map_get (fst state) (asKey EPSILON (node_root successor))
                = Some v /\ v <= node_g successor)
  /\ (forall n, In n (snd state) <-> In n openList
                                     \/ (n = successor
                                         /\ snd state <> openList)).
Proof.
  cbv zeta. unfold addSuccessor, Map_has.
  set (k := asKey EPSILON (node_root successor)).
  destruct (Map_get history k) as [known |] eqn:Ek; cbn [negb orb].
  - unfold num_ge. destruct (num_le (node_g successor) known) eqn:El;
      cbn [fst snd].
    + apply num_le_iff in El. split; [| split].
      * intros v Hv. rewrite Map_get_set.
        destruct (key_eqb k key) eqn:E.
        -- apply key_eqb_eq in E. subst key. exists (node_g successor).
           split; [reflexivity |]. rewrite Ek in Hv. injection Hv as <-. lra.
        -- exists v. split; [exact Hv | lra].
      * exists (node_g successor). rewrite Map_get_set.
        replace (key_eqb k k) with true by (symmetry; now apply key_eqb_eq).
        split; [reflexivity | lra].
      * intros n. unfold openList_push.
        pose proof (HeapFacts.push_perm SearchNode lt [successor] openList)
          as Hperm.
        split.
        -- intros Hin. apply (Permutation_in n Hperm) in Hin.
           apply in_app_or in Hin. destruct Hin as [Hin | [<- | []]]; auto.
           right. split; [reflexivity |]. intros E.
           apply Permutation_length in Hperm. rewrite E, length_app in Hperm.
           cbn in Hperm. lia.
        -- intros [Hin | [-> _]];
             apply (Permutation_in _ (Permutation_sym Hperm));
             apply in_or_app; cbn; auto.
    + assert (Hlt : known < node_g successor).
      { destruct (Rle_dec (node_g successor) known) as [H | H]; [| lra].
        apply num_le_iff in H. congruence. }
      split; [| split].
      * intros v Hv. exists v. split; [exact Hv | lra].
      * exists known. split; [exact Ek | lra].
      * intros n. split; [auto |]. intros [H | [_ H]]; [exact H | congruence].
  - cbn [fst snd]. split; [| split].
    + intros v Hv. rewrite Map_get_set.
      destruct (key_eqb k key) eqn:E.
      * apply key_eqb_eq in E. subst key. congruence.
      * exists v. split; [exact Hv | lra].
    + exists (node_g successor). rewrite Map_get_set.
      replace (key_eqb k k) with true by (symmetry; now apply key_eqb_eq).
      split; [reflexivity | lra].
    + intros n. unfold openList_push.
      pose proof (HeapFacts.push_perm SearchNode lt [successor] openList)
        as Hperm.
      split.
      * intros Hin. apply (Permutation_in n Hperm) in Hin.
        apply in_app_or in Hin. destruct Hin as [Hin | [<- | []]]; auto.
        right. split; [reflexivity |]. intros E.
        apply Permutation_length in Hperm. rewrite E, length_app in Hperm.
        cbn in Hperm. lia.
      * intros [Hin | [-> _]];
          apply (Permutation_in _ (Permutation_sym Hperm));
          apply in_or_app; cbn; auto.
Qed.

Lemma addSuccessors_get (successors : list SearchNode) :
  forall (history : History) (openList : list SearchNode),
    let state := fold_left (addSuccessor EPSILON) successors
                   (history, openList) in
    (forall key v, Map_get history key = Some v ->
                   exists v', Map_get (fst state) key = Some v' /\ v' <= v)
    /\ (forall s, In s successors ->
                  exists v, Map_get (fst state) (asKey EPSILON (node_root s))
                            = Some v /\ v <= node_g s)
    /\ (forall n, In n (snd state) -> In n openList \/ In n successors)
    /\ (forall n, In n openList -> In n (snd state)).
Proof.
  induction successors as [| s rest IH]; intros history openList; cbv zeta.
  - cbn [fold_left fst snd]. repeat split.
    + intros key v Hv. exists v. split; [exact Hv | lra].
    + intros s [].
    + auto.
    + auto.
  - cbn [fold_left].
    destruct (addSuccessor EPSILON (history, openList) s)
      as [history1 openList1] eqn:E1.
    pose proof (fun key => addSuccessor_get history openList s key) as Hs.
    cbv zeta in Hs. rewrite E1 in Hs. cbn [fst snd] in Hs.
    specialize (IH history1 openList1). cbv zeta in IH.
    destruct IH as (I1 & I2 & I3 & I4).
    repeat split.
    + intros key v Hv. destruct (Hs key) as (H1 & _ & _).
      destruct (H1 v Hv) as (v1 & Hv1 & Hle1).
      destruct (I1 key v1 Hv1) as (v2 & Hv2 & Hle2).
      exists v2. split; [exact Hv2 | lra].
    + intros x [<- | Hx].
      * destruct (Hs (0, 0)%Z) as (_ & (v1 & Hv1 & Hle1) & _).
        destruct (I1 _ v1 Hv1) as (v2 & Hv2 & Hle2).
        exists v2. split; [exact Hv2 | lra].
      * now apply I2.
    + intros n Hn. apply I3 in Hn. destruct Hn as [Hn | Hn].
      * destruct (Hs (0, 0)%Z) as (_ & _ & H3).
        apply H3 in Hn. destruct Hn as [Hn | [-> _]]; cbn; auto.
      * cbn. auto.
    + intros n Hn. apply I4. destruct (Hs (0, 0)%Z) as (_ & _ & H3).
      apply H3. auto.
Qed.

End History.

(** X28: the history keeps the best cost seen for each key.  After the
    successors of a node have been handled, every key that was in the
    history is still there with a cost that is not higher, the key of
    every successor is there with a cost not above the [g] of that
    successor, and the open list holds what it held and successors only. *)
Theorem history_keeps_best (EPSILON : R) (successors : list SearchNode)
  (history : History) (openList : list SearchNode) :
  (forall key v,
      Map_get history key = Some v ->
      exists v',
        Map_get (fst (fold_left (addSuccessor EPSILON) successors
                        (history, openList))) key = Some v'
        /\ v' <= v)
  /\ (forall s,
         In s successors ->
         exists v,
           Map_get (fst (fold_left (addSuccessor EPSILON) successors
                           (history, openList)))
             (asKey EPSILON (node_root s)) = Some v
           /\ v <= node_g s)
  /\ (forall n,
         In n (snd (fold_left (addSuccessor EPSILON) successors
                      (history, openList))) ->
         In n openList \/ In n successors)
  /\ (forall n,
         In n openList ->
         In n (snd (fold_left (addSuccessor EPSILON) successors
                      (history, openList)))).
Proof. apply addSuccessors_get. Qed.

(** ** The nodes of a search *)

Section SearchInvariant.

Variable EPSILON : R.
Variable mesh : Mesh.
Variables start end_ : Point.

Lemma newSearchNode_fromStart (parent : option SearchNode)
  (root right left : Point) (rightV leftV : option Vertex)
  (nextPoly : Polygon) (g : R) (goal : Point) (node : SearchNode) :
  newSearchNode EPSILON parent root right left rightV leftV nextPoly g goal
  = Ok node ->
  0 <= g ->
  match parent with
  | None => root = start
  | Some p => origin p = start
  end ->
  fromStart start node.
Proof.
  intros H Hg Ho.
  pose proof (newSearchNode_h_bound _ _ _ _ _ _ _ _ _ _ _ H) as [Hh _].
  apply newSearchNode_inv in H. destruct H as (_ & _ & E).
  unfold fromStart. rewrite E in Hh |- *. cbn [node_g node_h] in *.
  repeat split; try assumption.
  rewrite origin_unfold. cbn [node_parent node_root].
  destruct parent; exact Ho.
Qed.

Lemma push_Forall (P : SearchNode -> Prop) (openList : list SearchNode)
  (node : SearchNode) :
  Forall P openList -> P node -> Forall P (openList_push openList node).
Proof.
  intros HF Hn. unfold openList_push.
  apply (Permutation_Forall
           (Permutation_sym
              (HeapFacts.push_perm SearchNode lt [node] openList))).
  apply Forall_app. split; [exact HF | now constructor].
Qed.

Lemma genInitNodes_edges_fromStart (polygon : Polygon) (todo : list Z) :
  forall openList openList',
    Forall (fromStart start) openList ->
    genInitNodes_edges EPSILON mesh start end_ polygon todo openList
    = Ok openList' ->
    Forall (fromStart start) openList'.
Proof.
  induction todo as [| i rest IH]; intros openList openList' HF H;
    cbn [genInitNodes_edges] in H.
  - now injection H as <-.
  - apply bind_Ok in H. destruct H as (right & _ & H).
    apply bind_Ok in H. destruct H as (left & _ & H).
    apply bind_Ok in H. destruct H as (onEdge & _ & H).
    destruct onEdge; [now apply (IH openList) |].
    apply bind_Ok in H. destruct H as (nextPoly & _ & H).
    destruct (Polygon_id nextPoly =? -1)%Z; [now apply (IH openList) |].
    apply bind_Ok in H. destruct H as (node & Hnode & H).
    apply (IH (openList_push openList node)); [| exact H].
    apply push_Forall; [exact HF |].
    apply (newSearchNode_fromStart _ _ _ _ _ _ _ _ _ _ Hnode); [lra | reflexivity].
Qed.

Lemma genInitNodes_polygons_fromStart (endPolygons polygons : list Polygon) :
  forall openList finalNode openList',
    Forall (fromStart start) openList ->
    genInitNodes_polygons EPSILON mesh start end_ endPolygons polygons openList
    = Ok (finalNode, openList') ->
    Forall (fromStart start) openList'.
Proof.
  induction polygons as [| polygon rest IH];
    intros openList finalNode openList' HF H;
    cbn [genInitNodes_polygons] in H.
  - now injection H as _ <-.
  - destruct (isEndPolygon endPolygons polygon).
    + apply bind_Ok in H. destruct H as (node & _ & H). now injection H as _ <-.
    + apply bind_Ok in H. destruct H as (openList1 & H1 & H).
      apply (IH openList1 finalNode); [| exact H].
      now apply genInitNodes_edges_fromStart in H1.
Qed.

Lemma genInitNodes_fromStart (endPolygons : list Polygon)
  (finalNode : option SearchNode) (openList : list SearchNode) :
  genInitNodes EPSILON mesh start end_ endPolygons [] = Ok (finalNode, openList) ->
  Forall (fromStart start) openList.
Proof.
  unfold genInitNodes. intros H.
  apply bind_Ok in H. destruct H as (pl & _ & H).
  assert (Hgen : genInitNodes_polygons EPSILON mesh start end_ endPolygons
                   (pl_polygons pl) [] = Ok (finalNode, openList) ->
                 Forall (fromStart start) openList).
  { apply genInitNodes_polygons_fromStart. constructor. }
  destruct (pl_type pl); try (now apply Hgen).
  injection H as _ <-. constructor.
Qed.

Lemma genFinalNode_fromStart (this node : SearchNode) :
  fromStart start this ->
  genFinalNode EPSILON mesh this = Ok node ->
  fromStart start node.
Proof.
  intros (Hg & _ & Ho) H. unfold genFinalNode in H.
  apply bind_Ok in H. destruct H as (c & _ & H).
  apply bind_Ok in H. destruct H as (u & _ & H).
  pose proof (distance_bound EPSILON (node_root this) (node_right this)).
  pose proof (distance_bound EPSILON (node_root this) (node_left this)).
  destruct (negb _) in H;
    [| destruct (negb _) in H; [| destruct (_ && _) in H; [| discriminate]]];
    apply (newSearchNode_fromStart _ _ _ _ _ _ _ _ _ _ H); try exact Ho; lra.
Qed.

Lemma search_turn_fromStart (endPolygons : list Polygon)
  (history : History) (openList : list SearchNode) (turn : Turn) :
  Forall (fromStart start) openList ->
  search_turn EPSILON mesh endPolygons history openList = Ok turn ->
  match turn with
  | Found finalNode => fromStart start finalNode
  | Expanded _ openList' => Forall (fromStart start) openList'
  end.
Proof.
  intros HF H. unfold search_turn in H.
  apply bind_Ok in H. destruct H as ([node openList1] & Hpop & H).
  apply pop_perm in Hpop. destruct Hpop as [_ Hperm].
  apply (Permutation_Forall Hperm) in HF.
  inversion HF as [| ? ? Hnode HF1]; subst.
  destruct (isEndPolygon endPolygons (nextPolygon node)).
  - apply bind_Ok in H. destruct H as (finalNode & Hfinal & H).
    injection H as <-. now apply (genFinalNode_fromStart node).
  - apply bind_Ok in H. destruct H as (successors & Hs & H).
    destruct (fold_left (addSuccessor EPSILON) successors (history, openList1))
      as [history' openList2] eqn:E.
    injection H as <-.
    destruct (addSuccessors_get EPSILON successors history openList1)
      as (_ & _ & Hin & _).
    rewrite E in Hin. cbn [snd] in Hin.
    apply Forall_forall. intros n Hn. apply Hin in Hn.
    destruct Hn as [Hn | Hn].
    + rewrite Forall_forall in HF1. now apply HF1.
    + destruct Hnode as (Hg & _ & Ho).
      apply genSuccessors_inv in Hs. rewrite Forall_forall in Hs.
      assert (Hsucc : exists newRoot,
                 successorOf EPSILON mesh node newRoot n).
      { destruct (Hs n Hn) as [H | [H | H]]; eauto. }
      destruct Hsucc as (newRoot & Hp & _ & _ & Eg & Hh & _).
      pose proof (distance_bound EPSILON (node_root node) newRoot).
      unfold fromStart. repeat split; try lra.
      rewrite origin_unfold, Hp. exact Ho.
Qed.

Lemma search_loop_fromStart (fuel : nat) (endPolygons : list Polygon) :
  forall (history : History) (openList : list SearchNode)
         (finalNode : SearchNode),
    Forall (fromStart start) openList ->
    search_loop EPSILON mesh fuel endPolygons history openList
    = Some (Ok (Some finalNode)) ->
    fromStart start finalNode.
Proof.
  induction fuel as [| fuel IH]; intros history openList finalNode HF H;
    cbn [search_loop] in H.
  - destruct (PriorityQueue.isEmpty SearchNode openList); discriminate.
  - destruct (PriorityQueue.isEmpty SearchNode openList); [discriminate |].
    destruct (search_turn EPSILON mesh endPolygons history openList)
      as [turn | msg] eqn:Et; [| discriminate].
    apply (search_turn_fromStart _ _ _ _ HF) in Et.
    destruct turn as [final | history' openList'].
    + injection H as <-. exact Et.
    + now apply (IH history' openList').
Qed.

End SearchInvariant.

(** X29: what [search] returns.  The length is never negative; the path is
    empty only with the length 0; and a path that is not empty ends with
    the end point and begins with the start point, or with a point that the
    start point equals. *)
Theorem search_endpoints (EPSILON : R) (mesh : Mesh) (start end_ : Point)
  (fuel : nat) (path : list Point) (length : R) :
  search EPSILON mesh start end_ fuel = Some (Ok (path, length)) ->
  0 <= length
  /\ (path = [] -> length = 0)
  /\ (path <> [] ->
      (exists prefix, path = prefix ++ [end_])
      /\ exists first,
          hd_error path = Some first
          /\ (first = start \/ equals EPSILON start first = true)).
Proof.
  unfold search. intros H.
  destruct (getPointLocation EPSILON mesh end_) as [endLocation | msg];
    [| discriminate].
  destruct (len (pl_polygons endLocation) =? 0)%Z.
  { injection H as <- <-. split; [lra |]. split; [reflexivity | congruence]. }
  destruct (genInitNodes EPSILON mesh start end_ (pl_polygons endLocation) [])
    as [[[finalNode |] openList] | msg] eqn:Einit; [| | discriminate].
  { injection H as <- <-. split; [apply distance_bound |].
    split; [discriminate |]. intros _. split.
    - exists [start]. reflexivity.
    - exists start. cbn. auto. }
  apply genInitNodes_fromStart in Einit.
  destruct (search_loop EPSILON mesh fuel (pl_polygons endLocation) [] openList)
    as [[[finalNode |] | msg] |] eqn:Eloop; try discriminate.
  - injection H as <- <-.
    apply (search_loop_fromStart EPSILON mesh start _ _ _ _ _ Einit)
      in Eloop.
    destruct Eloop as (Hg & Hh & Ho).
    destruct (getPath_ends EPSILON end_ finalNode)
      as (prefix & first & H1 & H2 & H3).
    split; [unfold node_f; lra |]. split.
    + intros E. rewrite E in H1. destruct prefix; discriminate.
    + intros _. split; [eauto |]. exists first. rewrite Ho in H3. auto.
  - injection H as <- <-. split; [lra |]. split; [reflexivity | congruence].
Qed.

(** ** A walk through the turn mesh, from [W] to the south pole *)

Lemma vec_pW : vec pW = mkVector 0 (- (1)) 0.
Proof.
  unfold pW, pointAt, latLonVector. cbn [vec].
  replace (0 * TO_RAD) with 0 by ring.
  replace (-90 * TO_RAD) with (- (PI / 2)) by (unfold TO_RAD; field; apply PI_neq0).
  rewrite cos_0, sin_0, cos_neg, sin_neg, cos_PI2, sin_PI2. f_equal; ring.
Qed.

Lemma vec_pS : vec pS = mkVector 0 0 (- (1)).
Proof.
  unfold pS, pointAt, latLonVector. cbn [vec].
  replace (0 * TO_RAD) with 0 by ring.
  replace (-90 * TO_RAD) with (- (PI / 2)) by (unfold TO_RAD; field; apply PI_neq0).
  rewrite cos_0, sin_0, cos_neg, sin_neg, cos_PI2, sin_PI2. f_equal; ring.
Qed.

Lemma vec_pE : vec pE = mkVector 0 1 0.
Proof. exact latLonVector_0_90. Qed.

Ltac coords :=
  rewrite ?vec_pA, ?vec_pB, ?vec_pC, ?vec_pN, ?vec_pW, ?vec_pS, ?vec_pE;
  unfold crossEast, crossWest, crossC, crossAntiC;
  unfold Vec.dot, Vec.cross, Vec.subtract, Vec.scale, Vec.negate;
  cbn [vx vy vz vec];
  pose proof half_sqrt_pos; pose proof half_sqrt_sqr;
  pose proof half_sqrt_bounds.

Ltac known_points :=
  cbn [lat lon pA pB pC pN pW pS pE pointAt crossEast crossWest crossC
         crossAntiC].

Ltac apart_lat :=
  apply equals_false_lat; known_points; abs_const; lra.

Ltac apart_lon :=
  apply equals_false_lon; known_points; abs_const; lra.

Ltac apart := first [ apart_lat | apart_lon ].

Lemma norm_is (v : Vector) (n : R) :
  0 <= n -> vx v * vx v + vy v * vy v + vz v * vz v = n * n -> Vec.norm v = n.
Proof. intros Hn H. unfold Vec.norm. rewrite H. now apply sqrt_square. Qed.

Lemma TO_DEG_0 : 0 * TO_DEG = 0.
Proof. ring. Qed.

Lemma TO_DEG_quarter : PI / 4 * TO_DEG = 45.
Proof. unfold TO_DEG. field. apply PI_neq0. Qed.

Lemma TO_DEG_half : PI / 2 * TO_DEG = 90.
Proof. unfold TO_DEG. field. apply PI_neq0. Qed.

Lemma TO_DEG_full : PI * TO_DEG = 180.
Proof. unfold TO_DEG. field. apply PI_neq0. Qed.

Section Expansion.

Variable EPSILON : R.
Hypothesis EPSILON_pos : 0 < EPSILON.
Hypothesis EPSILON_small : EPSILON < 1 / 8.

(** The great circle through [W] and [A] is the equator, on which the
    edge from [A] to [B] lies. *)
Lemma getIntersection_W_A_A_B : getIntersection EPSILON pW pA pA pB = Ok None.
Proof.
  unfold getIntersection.
  replace (Vec.cross (Vec.cross pW pA) (Vec.cross pA pB)) with (mkVector 0 0 0)
    by (coords; f_equal; nra).
  replace (Vec.norm (mkVector 0 0 0)) with 0.
  - now rewrite isZero_0.
  - symmetry. apply norm_is; cbn [vx vy vz]; lra.
Qed.

Lemma getIntersection_W_C_A_B :
  getIntersection EPSILON pW pC pA pB = Ok (Some (crossEast, crossWest)).
Proof.
  unfold getIntersection.
  replace (Vec.cross (Vec.cross pW pC) (Vec.cross pA pB))
    with (mkVector 0 (1 / 2) 0) by (coords; f_equal; nra).
  assert (Hn : Vec.norm (mkVector 0 (1 / 2) 0) = 1 / 2)
    by (apply norm_is; cbn [vx vy vz]; lra).
  replace (isZero EPSILON (Vec.norm (mkVector 0 (1 / 2) 0))) with false.
  2:{ symmetry. apply isZero_norm_false. rewrite Hn. lra. }
  rewrite (fromVector_ok EPSILON (mkVector 0 (1 / 2) 0) false (1 / 2) 0 90);
    try lra; try assumption.
  2:{ cbn [vz]. replace (0 / (1 / 2)) with 0 by field.
      rewrite asin_0. ring. }
  2:{ cbn [vx vy]. rewrite Math_atan2_zero_x.
      destruct (Rlt_dec 0 (1 / 2)); [apply TO_DEG_half | lra]. }
  cbn [bind].
  replace (Vec.negate (mkVector 0 (1 / 2) 0)) with (mkVector 0 (- (1 / 2)) 0)
    by (unfold Vec.negate; cbn [vx vy vz]; f_equal; ring).
  rewrite (fromVector_ok EPSILON (mkVector 0 (- (1 / 2)) 0) false (1 / 2) 0
             (-90)); try lra.
  - reflexivity.
  - apply norm_is; cbn [vx vy vz]; lra.
  - cbn [vz]. replace (0 / (1 / 2)) with 0 by field. rewrite asin_0. ring.
  - cbn [vx vy]. rewrite Math_atan2_zero_x.
    destruct (Rlt_dec 0 (- (1 / 2))); [lra |].
    destruct (Rlt_dec (- (1 / 2)) 0); [| lra].
    unfold TO_DEG. field. apply PI_neq0.
Qed.

Lemma getIntersection_W_C_B_C :
  getIntersection EPSILON pW pC pB pC = Ok (Some (crossC, crossAntiC)).
Proof.
  unfold getIntersection.
  replace (Vec.cross (Vec.cross pW pC) (Vec.cross pB pC))
    with (mkVector (half_sqrt / 2) 0 (half_sqrt / 2)) by (coords; f_equal; nra).
  pose proof half_sqrt_pos. pose proof half_sqrt_sqr.
  assert (Hn : Vec.norm (mkVector (half_sqrt / 2) 0 (half_sqrt / 2)) = 1 / 2)
    by (apply norm_is; cbn [vx vy vz]; nra).
  replace (isZero EPSILON (Vec.norm (mkVector (half_sqrt / 2) 0 (half_sqrt / 2))))
    with false.
  2:{ symmetry. apply isZero_norm_false. rewrite Hn. lra. }
  rewrite (fromVector_ok EPSILON (mkVector (half_sqrt / 2) 0 (half_sqrt / 2))
             false (1 / 2) 45 0); try lra; try assumption.
  2:{ cbn [vz]. replace (half_sqrt / 2 / (1 / 2)) with half_sqrt by field.
      rewrite asin_half_sqrt. apply TO_DEG_quarter. }
  2:{ cbn [vx vy]. rewrite Math_atan2_0_pos by lra. ring. }
  cbn [bind].
  replace (Vec.negate (mkVector (half_sqrt / 2) 0 (half_sqrt / 2)))
    with (mkVector (- (half_sqrt / 2)) 0 (- (half_sqrt / 2)))
    by (unfold Vec.negate; cbn [vx vy vz]; f_equal; ring).
  rewrite (fromVector_ok EPSILON
             (mkVector (- (half_sqrt / 2)) 0 (- (half_sqrt / 2)))
             false (1 / 2) (-45) 180); try lra.
  - reflexivity.
  - apply norm_is; cbn [vx vy vz]; nra.
  - cbn [vz]. replace (- (half_sqrt / 2) / (1 / 2)) with (- half_sqrt) by field.
    rewrite asin_opp, asin_half_sqrt. unfold TO_DEG. field. apply PI_neq0.
  - cbn [vx vy]. rewrite Math_atan2_neg_x_up by lra.
    replace (0 / - (half_sqrt / 2)) with 0 by (field; lra).
    rewrite atan_0, Rplus_0_l. apply TO_DEG_full.
Qed.


(** *** The antipodes *)

Lemma negate_pW : negate EPSILON pW = Ok pE.
Proof.
  rewrite (negate_coordinates EPSILON 0 (-90) pW); try lra; try reflexivity.
  destruct (Rle_dec (-90) 0); [| lra].
  unfold pE. f_equal. f_equal; lra.
Qed.

Lemma negate_pE : negate EPSILON pE = Ok pW.
Proof.
  rewrite (negate_coordinates EPSILON 0 90 pE); try lra; try reflexivity.
  destruct (Rle_dec 90 0); [lra |].
  unfold pW. f_equal. f_equal; lra.
Qed.

Lemma negate_crossEast :
  exists q, negate EPSILON crossEast = Ok q /\ lat q = 0 /\ lon q = -90.
Proof.
  unfold negate. cbn [vec crossEast].
  replace (Vec.negate (mkVector 0 (1 / 2) 0)) with (mkVector 0 (- (1 / 2)) 0)
    by (unfold Vec.negate; cbn [vx vy vz]; f_equal; ring).
  eexists. split.
  - apply (fromVector_ok EPSILON _ true (1 / 2) 0 (-90)); try lra.
    + apply norm_is; cbn [vx vy vz]; lra.
    + cbn [vz]. replace (0 / (1 / 2)) with 0 by field. rewrite asin_0. ring.
    + cbn [vx vy]. rewrite Math_atan2_zero_x.
      destruct (Rlt_dec 0 (- (1 / 2))); [lra |].
      destruct (Rlt_dec (- (1 / 2)) 0); [| lra].
      unfold TO_DEG. field. apply PI_neq0.
  - cbn [lat lon]. split; reflexivity.
Qed.

(** *** Where the points lie with respect to the triangle [(C, A, B)] *)

Lemma isBounded_pE_A_B : isBounded EPSILON pE pA pB = Ok false.
Proof.
  unfold isBounded.
  replace (equals EPSILON pE pA) with false by (symmetry; apart).
  replace (equals EPSILON pE pB) with false by (symmetry; apart).
  cbn [orb]. rewrite negate_pE. cbn [bind].
  replace (equals EPSILON pW pA) with false by (symmetry; apart).
  replace (equals EPSILON pW pB) with false by (symmetry; apart).
  cbn [orb]. f_equal. apply andb_false_iff. right.
  unfold num_ge. apply num_le_false. coords. nra.
Qed.

Lemma isBounded_crossEast_A_B : isBounded EPSILON crossEast pA pB = Ok false.
Proof.
  unfold isBounded.
  replace (equals EPSILON crossEast pA) with false by (symmetry; apart).
  replace (equals EPSILON crossEast pB) with false by (symmetry; apart).
  cbn [orb]. destruct negate_crossEast as (q & -> & Hlat & Hlon). cbn [bind].
  replace (equals EPSILON q pA) with false.
  2:{ symmetry. apply equals_false_lon; rewrite ?Hlat, ?Hlon; known_points;
      abs_const; lra. }
  replace (equals EPSILON q pB) with false.
  2:{ symmetry. apply equals_false_lon; rewrite ?Hlat, ?Hlon; known_points;
      abs_const; lra. }
  cbn [orb]. f_equal. apply andb_false_iff. right.
  unfold num_ge. apply num_le_false. coords. nra.
Qed.

(** A point east of [B] on the equator is outside the triangle. *)
Lemma containsPoint_CAB_east (p : Point) :
  equals EPSILON p pC = false -> equals EPSILON p pA = false ->
  equals EPSILON p pB = false ->
  getOrientation EPSILON pC pA p = ANTICLOCKWISE ->
  getOrientation EPSILON pA pB p = COLLINEAR ->
  isBounded EPSILON p pA pB = Ok false ->
  getOrientation EPSILON pB pC p = CLOCKWISE ->
  containsPoint EPSILON turnMesh polyCAB p
  = Ok (mkPolyContainment OUTSIDE Obstacle []).
Proof.
  intros E1 E2 E3 O1 O2 Hb O3. unfold containsPoint.
  change (length (vertices polyCAB)) with 3%nat.
  rewrite (containsPoint_loop_left EPSILON turnMesh polyCAB p 2 0 vC vA);
    try reflexivity; try assumption.
  rewrite (containsPoint_loop_aligned EPSILON turnMesh polyCAB p 1 (0 + 1) vA vB);
    try reflexivity; try assumption.
  rewrite (containsPoint_loop_right EPSILON turnMesh polyCAB p 0 (0 + 1 + 1) vB vC);
    try reflexivity; assumption.
Qed.

Lemma containsPoint_CAB_pE :
  containsPoint EPSILON turnMesh polyCAB pE
  = Ok (mkPolyContainment OUTSIDE Obstacle []).
Proof.
  apply containsPoint_CAB_east; try apart.
  - apply getOrientation_anticlockwise; try apart. coords. nra.
  - apply getOrientation_collinear. coords. nra.
  - apply isBounded_pE_A_B.
  - apply getOrientation_clockwise; try assumption; try apart. coords. nra.
Qed.

Lemma containsPoint_CAB_crossEast :
  containsPoint EPSILON turnMesh polyCAB crossEast
  = Ok (mkPolyContainment OUTSIDE Obstacle []).
Proof.
  apply containsPoint_CAB_east; try apart.
  - apply getOrientation_anticlockwise; try apart. coords. nra.
  - apply getOrientation_collinear. coords. nra.
  - apply isBounded_crossEast_A_B.
  - apply getOrientation_clockwise; try assumption; try apart. coords. nra.
Qed.

Lemma containsPoint_CAB_crossWest :
  containsPoint EPSILON turnMesh polyCAB crossWest
  = Ok (mkPolyContainment OUTSIDE Obstacle []).
Proof.
  unfold containsPoint. change (length (vertices polyCAB)) with 3%nat.
  rewrite (containsPoint_loop_right EPSILON turnMesh polyCAB crossWest 2 0 vC vA);
    try reflexivity.
  - change (vpoint vC) with pC. apart.
  - change (vpoint vC) with pC. change (vpoint vA) with pA.
    apply getOrientation_clockwise; try assumption; try apart. coords. nra.
Qed.

Lemma containsPoint_CAB_crossC :
  containsPoint EPSILON turnMesh polyCAB crossC
  = Ok (mkPolyContainment ON_VERTEX Obstacle [vC]).
Proof.
  unfold containsPoint. change (length (vertices polyCAB)) with 3%nat.
  apply (containsPoint_loop_vertex EPSILON turnMesh polyCAB crossC 2 0 vC vA);
    try reflexivity.
  apply equals_iff. change (vpoint vC) with pC. known_points.
  split; [| right]; abs_const; lra.
Qed.


(** *** The projection of the node seen from [W] *)

Lemma projectRight_first (st : Projection) :
  newRightPoint st = None ->
  projectRight EPSILON turnMesh (nodeThroughAC EPSILON) false pA 1 vA vB st
  = Ok (fixRight st false vA 1 1, FallThrough).
Proof.
  intros Hst. unfold projectRight. rewrite Hst.
  change (node_root (nodeThroughAC EPSILON)) with pW.
  change (vpoint vA) with pA. change (vpoint vB) with pB.
  rewrite getIntersection_W_A_A_B. reflexivity.
Qed.

Lemma findInside_east_west :
  findInside EPSILON turnMesh polyCAB (crossEast, crossWest) = Ok None.
Proof.
  unfold findInside. cbn [fst snd].
  rewrite containsPoint_CAB_crossEast. cbn [bind pc_type PolyContainmentType_eqb negb].
  rewrite containsPoint_CAB_crossWest. reflexivity.
Qed.

Lemma projectLeft_first (st : Projection) (r : Point) :
  newRightPoint st = Some r -> newLeftPoint st = None ->
  projectLeft EPSILON turnMesh (nodeThroughAC EPSILON) false pC 1 vA vB st
  = Ok (st, Continue).
Proof.
  intros Hr Hl. unfold projectLeft. rewrite Hr, Hl.
  change (node_root (nodeThroughAC EPSILON)) with pW.
  change (vpoint vA) with pA. change (vpoint vB) with pB.
  rewrite getIntersection_W_C_A_B. cbn [bind].
  change (nextPolygon (nodeThroughAC EPSILON)) with polyCAB.
  rewrite findInside_east_west. reflexivity.
Qed.

Lemma projectRight_found (st : Projection) (r : Point) (i : Z)
  (vertex nextVertex : Vertex) (right : Point) (reversed : bool) :
  newRightPoint st = Some r ->
  projectRight EPSILON turnMesh (nodeThroughAC EPSILON) reversed right i vertex
    nextVertex st
  = Ok (st, FallThrough).
Proof. intros Hr. unfold projectRight. now rewrite Hr. Qed.

Lemma findInside_crossC :
  findInside EPSILON turnMesh polyCAB (crossC, crossAntiC) = Ok (Some crossC).
Proof.
  unfold findInside. cbn [fst snd].
  rewrite containsPoint_CAB_crossC. reflexivity.
Qed.

Lemma projectLeft_second (st : Projection) (r : Point) :
  newRightPoint st = Some r -> newLeftPoint st = None ->
  projectLeft EPSILON turnMesh (nodeThroughAC EPSILON) false pC 2 vB vC st
  = Ok (fixLeft st false vC 3 3 3, FallThrough).
Proof.
  intros Hr Hl. unfold projectLeft. rewrite Hr, Hl.
  change (node_root (nodeThroughAC EPSILON)) with pW.
  change (vpoint vB) with pB. change (vpoint vC) with pC.
  rewrite getIntersection_W_C_B_C. cbn [bind].
  change (nextPolygon (nodeThroughAC EPSILON)) with polyCAB.
  rewrite findInside_crossC. cbn [bind].
  replace (getOrientation EPSILON pW crossC pB) with CLOCKWISE.
  2:{ symmetry. apply getOrientation_clockwise; try assumption; try apart.
      coords. nra. }
  cbn [Orientation_eqb assert bind].
  replace (equals EPSILON crossC pC) with true.
  - reflexivity.
  - symmetry. apply equals_iff. known_points.
    split; [| right]; abs_const; lra.
Qed.

Lemma project_nodeThroughAC :
  project EPSILON turnMesh (nodeThroughAC EPSILON) false
  = Ok (vpoint vA, vpoint vC, (1, 3), (1, 1), (3, 3))%Z.
Proof.
  unfold project.
  change (rightVertex (nodeThroughAC EPSILON)) with (Some vA).
  change (leftVertex (nodeThroughAC EPSILON)) with (Some vC).
  cbn [assertDefined bind].
  change (nextPolygon (nodeThroughAC EPSILON)) with polyCAB.
  change (len (vertices polyCAB)) with 3%Z.
  change (indexOf (vIndices polyCAB) (Vertex_id vC) + 3)%Z with 3%Z.
  change (3 + 1 - 3)%Z with 1%Z.
  change (indices 1 (Z.to_nat (3 - 1))) with [1; 2]%Z.
  change (node_right (nodeThroughAC EPSILON)) with pA.
  change (node_left (nodeThroughAC EPSILON)) with pC.
  cbn [project_loop].
  change (nextPolygon (nodeThroughAC EPSILON)) with polyCAB.
  change (ring (vertices polyCAB) 1) with (Some vA).
  change (ring (vertices polyCAB) (1 + 1)) with (Some vB).
  change (ring (vertices polyCAB) 2) with (Some vB).
  change (ring (vertices polyCAB) (2 + 1)) with (Some vC).
  cbn [defined bind].
  rewrite projectRight_first by reflexivity. cbn [bind].
  rewrite (projectLeft_first _ vA) by reflexivity. cbn [bind].
  rewrite (projectRight_found _ vA) by reflexivity. cbn [bind].
  rewrite (projectLeft_second _ vA) by reflexivity. cbn [bind].
  reflexivity.
Qed.

(** *** The successors *)

Lemma newSearchNode_successorThroughAB :
  newSearchNode EPSILON (Some (nodeThroughAC EPSILON)) pW pA pB (Some vA) (Some vB)
    polyBAS (node_g (nodeThroughAC EPSILON) + distance EPSILON pW pW) pS
  = Ok (successorThroughAB EPSILON).
Proof.
  apply newSearchNode_total.
  - replace (getOrientation EPSILON pW pA pB) with COLLINEAR; [discriminate |].
    symmetry. apply getOrientation_collinear. coords. nra.
  - discriminate.
  - unfold foldedGoal.
    replace (getOrientation EPSILON pS pA pB) with CLOCKWISE; [reflexivity |].
    symmetry. apply getOrientation_clockwise; try assumption; try apart.
    coords. nra.
Qed.

Lemma splitSuccessors_nodeThroughAC :
  splitSuccessors EPSILON turnMesh (nodeThroughAC EPSILON) vA vC (1, 3)%Z pW
  = Ok [successorThroughAB EPSILON].
Proof.
  unfold splitSuccessors. cbn [fst snd].
  change (indices 1 (Z.to_nat (3 - 1))) with [1; 2]%Z.
  cbn [splitSuccessors_loop].
  change (nextPolygon (nodeThroughAC EPSILON)) with polyCAB.
  change (ring (vertices polyCAB) 1) with (Some vA).
  change (ring (vertices polyCAB) (1 + 1)) with (Some vB).
  change (ring (vertices polyCAB) 2) with (Some vB).
  change (ring (vertices polyCAB) (2 + 1)) with (Some vC).
  change (neighbourRing turnMesh polyCAB (1 + 1)) with (Some polyBAS).
  change (neighbourRing turnMesh polyCAB (2 + 1)) with (Some Obstacle).
  cbn [defined bind fst snd].
  change (Polygon_id polyBAS =? -1)%Z with false.
  change (Polygon_id Obstacle =? -1)%Z with true.
  change (1 =? 1)%Z with true. change (1 =? 3 - 1)%Z with false.
  cbv iota.
  change (node_root (nodeThroughAC EPSILON)) with pW.
  change (node_goal (nodeThroughAC EPSILON)) with pS.
  change (vpoint vA) with pA. change (vpoint vB) with pB.
  rewrite newSearchNode_successorThroughAB. reflexivity.
Qed.

Lemma genSuccessors_nodeThroughAC :
  genSuccessors EPSILON turnMesh (nodeThroughAC EPSILON) = Ok [successorThroughAB EPSILON].
Proof.
  unfold genSuccessors.
  change (rightVertex (nodeThroughAC EPSILON)) with (Some vA).
  change (leftVertex (nodeThroughAC EPSILON)) with (Some vC).
  cbn [assertDefined bind].
  change (node_root (nodeThroughAC EPSILON)) with pW.
  rewrite negate_pW. cbn [bind].
  change (nextPolygon (nodeThroughAC EPSILON)) with polyCAB.
  rewrite containsPoint_CAB_pE. cbn [bind pc_type PolyContainmentType_eqb negb].
  rewrite project_nodeThroughAC. cbn [bind].
  rewrite splitSuccessors_nodeThroughAC. cbn [bind fst snd].
  change (1 >? 1)%Z with false. change (3 >? 3)%Z with false.
  rewrite !andb_false_r. reflexivity.
Qed.

End Expansion.

Section WestToSouth.

Variable EPSILON : R.
Hypothesis EPSILON_pos : 0 < EPSILON.
Hypothesis EPSILON_small : EPSILON < 1 / 8.

Lemma getOrientation_same_13 (p q : Point) :
  getOrientation EPSILON p q p = COLLINEAR.
Proof.
  unfold getOrientation. rewrite (equals_refl EPSILON p EPSILON_pos).
  now rewrite orb_true_r.
Qed.

Lemma isBounded_left_end (this r : Point) :
  isBounded EPSILON this r this = Ok true.
Proof.
  unfold isBounded. rewrite (equals_refl EPSILON this EPSILON_pos).
  now rewrite orb_true_r.
Qed.

Lemma negate_pS :
  exists q, negate EPSILON pS = Ok q /\ lat q = 90 /\ lon q = 0.
Proof.
  unfold negate. rewrite vec_pS.
  replace (Vec.negate (mkVector 0 0 (- (1)))) with (mkVector 0 0 1)
    by (unfold Vec.negate; cbn [vx vy vz]; f_equal; ring).
  eexists. split.
  - apply (fromVector_ok EPSILON _ true 1 90 0); try lra.
    + apply norm_is; cbn [vx vy vz]; lra.
    + cbn [vz]. replace (1 / 1) with 1 by field. rewrite asin_1.
      apply TO_DEG_half.
    + cbn [vx vy]. rewrite Math_atan2_0_0. ring.
  - cbn [lat lon]. split; reflexivity.
Qed.

(** *** Where the south pole and [W] lie *)

Lemma isBounded_S_C_A : isBounded EPSILON pS pC pA = Ok false.
Proof.
  unfold isBounded.
  replace (equals EPSILON pS pC) with false by (symmetry; apart).
  replace (equals EPSILON pS pA) with false by (symmetry; apart).
  cbn [orb]. destruct negate_pS as (q & -> & Hlat & Hlon). cbn [bind].
  replace (equals EPSILON q pC) with false.
  2:{ symmetry. apply equals_false_lat; rewrite ?Hlat; known_points;
      abs_const; lra. }
  replace (equals EPSILON q pA) with false.
  2:{ symmetry. apply equals_false_lat; rewrite ?Hlat; known_points;
      abs_const; lra. }
  cbn [orb]. f_equal. apply andb_false_iff. right.
  unfold num_ge. apply num_le_false. coords. nra.
Qed.

Lemma isBounded_S_N_W : isBounded EPSILON pS pN pW = Ok false.
Proof.
  unfold isBounded.
  replace (equals EPSILON pS pN) with false by (symmetry; apart).
  replace (equals EPSILON pS pW) with false by (symmetry; apart).
  cbn [orb]. destruct negate_pS as (q & -> & Hlat & Hlon). cbn [bind].
  replace (equals EPSILON q pN) with true; [reflexivity |].
  symmetry. apply equals_iff. rewrite Hlat. known_points. split.
  - abs_const. lra.
  - left. unfold nearPole. rewrite Hlat. abs_const. lra.
Qed.

Lemma containsPoint_CAB_pS :
  containsPoint EPSILON turnMesh polyCAB pS
  = Ok (mkPolyContainment OUTSIDE Obstacle []).
Proof.
  unfold containsPoint. change (length (vertices polyCAB)) with 3%nat.
  rewrite (containsPoint_loop_aligned EPSILON turnMesh polyCAB pS 2 0 vC vA);
    try reflexivity.
  2:{ change (vpoint vC) with pC. apart. }
  2:{ apply getOrientation_collinear. change (vpoint vC) with pC.
      change (vpoint vA) with pA. coords. nra. }
  2:{ apply isBounded_S_C_A. }
  rewrite (containsPoint_loop_right EPSILON turnMesh polyCAB pS 1 (0 + 1) vA vB);
    try reflexivity.
  - change (vpoint vA) with pA. apart.
  - change (vpoint vA) with pA. change (vpoint vB) with pB.
    apply getOrientation_clockwise; try assumption; try apart. coords. nra.
Qed.

Lemma containsPoint_NWAC_pS :
  containsPoint EPSILON turnMesh polyNWAC pS
  = Ok (mkPolyContainment OUTSIDE Obstacle []).
Proof.
  unfold containsPoint. change (length (vertices polyNWAC)) with 4%nat.
  rewrite (containsPoint_loop_aligned EPSILON turnMesh polyNWAC pS 3 0 vN vW);
    try reflexivity.
  2:{ change (vpoint vN) with pN. apart. }
  2:{ apply getOrientation_collinear. change (vpoint vN) with pN.
      change (vpoint vW) with pW. coords. nra. }
  2:{ apply isBounded_S_N_W. }
  rewrite (containsPoint_loop_right EPSILON turnMesh polyNWAC pS 2 (0 + 1) vW vA);
    try reflexivity.
  - change (vpoint vW) with pW. apart.
  - change (vpoint vW) with pW. change (vpoint vA) with pA.
    apply getOrientation_clockwise; try assumption; try apart. coords. nra.
Qed.

Lemma containsPoint_BAS_pS :
  containsPoint EPSILON turnMesh polyBAS pS
  = Ok (mkPolyContainment ON_VERTEX Obstacle [vS]).
Proof.
  unfold containsPoint. change (length (vertices polyBAS)) with 3%nat.
  rewrite (containsPoint_loop_left EPSILON turnMesh polyBAS pS 2 0 vB vA);
    try reflexivity.
  2:{ change (vpoint vB) with pB. apart. }
  2:{ change (vpoint vB) with pB. change (vpoint vA) with pA.
      apply getOrientation_anticlockwise; try apart. coords. nra. }
  rewrite (containsPoint_loop_bounded EPSILON turnMesh polyBAS pS 1 (0 + 1) vA vS);
    try reflexivity.
  2:{ change (vpoint vA) with pA. apart. }
  2:{ change (vpoint vS) with pS. now apply getOrientation_same_23. }
  2:{ change (vpoint vS) with pS. apply isBounded_left_end. }
  apply (containsPoint_loop_vertex EPSILON turnMesh polyBAS pS 0 (0 + 1 + 1) vS vB);
    try reflexivity.
  change (vpoint vS) with pS. now apply equals_refl.
Qed.

Lemma getPointLocation_turnMesh_S :
  getPointLocation EPSILON turnMesh pS
  = Ok (mkPointLocation ON_UNAMBIG_CORNER_VERTEX [polyBAS] [vS]).
Proof.
  unfold getPointLocation.
  cbn [Mesh_polygons turnMesh getPointLocation_loop].
  rewrite containsPoint_CAB_pS. cbn [bind pc_type].
  rewrite containsPoint_NWAC_pS. cbn [bind pc_type].
  rewrite containsPoint_BAS_pS. reflexivity.
Qed.

Lemma containsPoint_CAB_pW :
  containsPoint EPSILON turnMesh polyCAB pW
  = Ok (mkPolyContainment OUTSIDE Obstacle []).
Proof.
  unfold containsPoint. change (length (vertices polyCAB)) with 3%nat.
  rewrite (containsPoint_loop_right EPSILON turnMesh polyCAB pW 2 0 vC vA);
    try reflexivity.
  - change (vpoint vC) with pC. apart.
  - change (vpoint vC) with pC. change (vpoint vA) with pA.
    apply getOrientation_clockwise; try assumption; try apart. coords. nra.
Qed.

Lemma containsPoint_NWAC_pW :
  containsPoint EPSILON turnMesh polyNWAC pW
  = Ok (mkPolyContainment ON_VERTEX Obstacle [vW]).
Proof.
  unfold containsPoint. change (length (vertices polyNWAC)) with 4%nat.
  rewrite (containsPoint_loop_bounded EPSILON turnMesh polyNWAC pW 3 0 vN vW);
    try reflexivity.
  2:{ change (vpoint vN) with pN. apart. }
  2:{ change (vpoint vW) with pW. now apply getOrientation_same_23. }
  2:{ change (vpoint vW) with pW. apply isBounded_left_end. }
  apply (containsPoint_loop_vertex EPSILON turnMesh polyNWAC pW 2 (0 + 1) vW vA);
    try reflexivity.
  change (vpoint vW) with pW. now apply equals_refl.
Qed.

Lemma getPointLocation_turnMesh_W :
  getPointLocation EPSILON turnMesh pW
  = Ok (mkPointLocation ON_UNAMBIG_CORNER_VERTEX [polyNWAC] [vW]).
Proof.
  unfold getPointLocation.
  cbn [Mesh_polygons turnMesh getPointLocation_loop].
  rewrite containsPoint_CAB_pW. cbn [bind pc_type].
  rewrite containsPoint_NWAC_pW. reflexivity.
Qed.

(** *** The first nodes *)

Lemma newSearchNode_nodeThroughAC :
  newSearchNode EPSILON None pW pA pC (Some vA) (Some vC) polyCAB 0 pS
  = Ok (nodeThroughAC EPSILON).
Proof.
  apply newSearchNode_total.
  - replace (getOrientation EPSILON pW pA pC) with ANTICLOCKWISE;
      [discriminate |].
    symmetry. apply getOrientation_anticlockwise; try apart. coords. nra.
  - discriminate.
  - unfold foldedGoal.
    replace (getOrientation EPSILON pS pA pC) with COLLINEAR; [reflexivity |].
    symmetry. apply getOrientation_collinear. coords. nra.
Qed.

Lemma genInitNodes_W_S :
  genInitNodes EPSILON turnMesh pW pS [polyBAS] []
  = Ok (None, [nodeThroughAC EPSILON]).
Proof.
  unfold genInitNodes. rewrite getPointLocation_turnMesh_W.
  cbn [bind pl_type pl_polygons genInitNodes_polygons].
  change (isEndPolygon [polyBAS] polyNWAC) with false. cbv iota.
  change (indices 0 (length (vertices polyNWAC))) with [0; 1; 2; 3]%Z.
  cbn [genInitNodes_edges].
  change (index (vertices polyNWAC) 0) with (Some vN).
  change (ring (vertices polyNWAC) (0 + 1)) with (Some vW).
  change (index (vertices polyNWAC) 1) with (Some vW).
  change (ring (vertices polyNWAC) (1 + 1)) with (Some vA).
  change (index (vertices polyNWAC) 2) with (Some vA).
  change (ring (vertices polyNWAC) (2 + 1)) with (Some vC).
  change (index (vertices polyNWAC) 3) with (Some vC).
  change (ring (vertices polyNWAC) (3 + 1)) with (Some vN).
  change (neighbourRing turnMesh polyNWAC (2 + 1)) with (Some polyCAB).
  change (neighbourRing turnMesh polyNWAC (3 + 1)) with (Some Obstacle).
  cbn [defined bind].
  change (vpoint vW) with pW. change (vpoint vN) with pN.
  change (vpoint vA) with pA. change (vpoint vC) with pC.
  rewrite getOrientation_same_13. cbn [Orientation_eqb].
  rewrite isBounded_left_end. cbn [bind].
  rewrite (getOrientation_same_12 EPSILON pW pA EPSILON_pos).
  cbn [Orientation_eqb].
  rewrite (isBounded_self EPSILON EPSILON_pos). cbn [bind].
  replace (getOrientation EPSILON pW pA pC) with ANTICLOCKWISE.
  2:{ symmetry. apply getOrientation_anticlockwise; try apart. coords. nra. }
  cbn [Orientation_eqb bind].
  change (Polygon_id polyCAB =? -1)%Z with false. cbv iota.
  rewrite newSearchNode_nodeThroughAC. cbn [bind].
  replace (getOrientation EPSILON pW pC pN) with ANTICLOCKWISE.
  2:{ symmetry. apply getOrientation_anticlockwise; try apart. coords. nra. }
  cbn [Orientation_eqb bind].
  change (Polygon_id Obstacle =? -1)%Z with true. cbv iota.
  reflexivity.
Qed.

(** *** The terminal node *)

Lemma genFinalNode_successorThroughAB :
  genFinalNode EPSILON turnMesh (successorThroughAB EPSILON)
  = Ok (finalThroughA EPSILON).
Proof.
  unfold genFinalNode.
  change (nextPolygon (successorThroughAB EPSILON)) with polyBAS.
  change (node_goal (successorThroughAB EPSILON)) with pS.
  change (node_root (successorThroughAB EPSILON)) with pW.
  change (node_right (successorThroughAB EPSILON)) with pA.
  change (node_left (successorThroughAB EPSILON)) with pB.
  rewrite containsPoint_BAS_pS. cbn [bind pc_type PolyContainmentType_eqb negb assert].
  replace (getOrientation EPSILON pW pA pS) with CLOCKWISE.
  2:{ symmetry. apply getOrientation_clockwise; try assumption; try apart.
      coords. nra. }
  cbn [Orientation_eqb negb].
  rewrite newSearchNode_at_goal by (assumption || discriminate).
  reflexivity.
Qed.

(** *** The distances *)

Lemma distance_W_A : distance EPSILON pW pA = 90.
Proof.
  unfold distance. replace (equals EPSILON pW pA) with false by (symmetry; apart).
  rewrite cosDistance_equator; known_points; try reflexivity.
  - replace (-90 - 0) with (- (90)) by lra. rewrite Rabs_Ropp.
    rewrite Rabs_pos_eq by lra. destruct (Rle_dec 90 180); lra.
  - replace (-90 - 0) with (- (90)) by lra. rewrite Rabs_Ropp.
    rewrite Rabs_pos_eq by lra. lra.
Qed.

Lemma distance_A_S : distance EPSILON pA pS = 90.
Proof.
  unfold distance. replace (equals EPSILON pA pS) with false by (symmetry; apart).
  rewrite cosDistance_meridian; known_points; try reflexivity; try lra.
  replace (0 - -90) with 90 by lra. apply Rabs_pos_eq. lra.
Qed.

Lemma distance_W_W : distance EPSILON pW pW = 0.
Proof. unfold distance. now rewrite equals_refl. Qed.

(** *** The search *)

Lemma search_W_S (fuel : nat) :
  search EPSILON turnMesh pW pS (S (S fuel))
  = Some (Ok ([pW; pA; pS], 180)).
Proof.
  unfold search. rewrite getPointLocation_turnMesh_S.
  cbn [pl_polygons]. change (len [polyBAS] =? 0)%Z with false. cbv iota.
  rewrite genInitNodes_W_S.
  cbn [search_loop].
  change (PriorityQueue.isEmpty SearchNode [nodeThroughAC EPSILON]) with false.
  cbv iota. unfold search_turn at 1.
  change (PriorityQueue.pop SearchNode lt [nodeThroughAC EPSILON])
    with (Ok (nodeThroughAC EPSILON, @nil SearchNode)).
  cbn [bind].
  change (isEndPolygon [polyBAS] (nextPolygon (nodeThroughAC EPSILON)))
    with false.
  cbv iota. rewrite genSuccessors_nodeThroughAC by assumption.
  cbn [bind fold_left]. unfold addSuccessor at 1.
  change (Map_has [] (asKey EPSILON (node_root (successorThroughAB EPSILON))))
    with false.
  cbn [negb orb].
  change (openList_push [] (successorThroughAB EPSILON))
    with [successorThroughAB EPSILON].
  change (PriorityQueue.isEmpty SearchNode [successorThroughAB EPSILON])
    with false.
  cbv iota. unfold search_turn.
  change (PriorityQueue.pop SearchNode lt [successorThroughAB EPSILON])
    with (Ok (successorThroughAB EPSILON, @nil SearchNode)).
  cbn [bind].
  change (isEndPolygon [polyBAS] (nextPolygon (successorThroughAB EPSILON)))
    with true.
  cbv iota. rewrite genFinalNode_successorThroughAB. cbn [bind].
  f_equal. f_equal. f_equal.
  - unfold getPath, finalThroughA. cbn [getPath_loop node_root node_parent
      successorThroughAB nodeThroughAC].
    replace (equals EPSILON pA pS) with false by (symmetry; apart).
    cbn [negb].
    replace (equals EPSILON pW pA) with false by (symmetry; apart).
    cbn [negb].
    rewrite (equals_refl EPSILON pW EPSILON_pos). reflexivity.
  - unfold node_f, finalThroughA. cbn [node_g node_h successorThroughAB
      nodeThroughAC].
    rewrite distance_W_W, distance_W_A, distance_A_S. ring.
Qed.

End WestToSouth.

(** ** Locating a point never throws on a mesh that was read *)

Lemma ring_Some {A : Type} (a : list A) (i : Z) :
  a <> [] -> (0 <= i)%Z -> exists x, ring a i = Some x.
Proof.
  intros Hne Hi. unfold ring.
  assert (Hlen : (0 < len a)%Z).
  { unfold len. destruct a; [congruence | cbn; lia]. }
  destruct (Z.eqb_spec (len a) 0); [lia |].
  apply index_Some_range. apply Z.rem_bound_pos; lia.
Qed.

Lemma negate_defined (EPSILON : R) (this : Point) :
  0 < EPSILON <= 1 -> Vec.norm this = 1 ->
  exists q, negate EPSILON this = Ok q.
Proof.
  intros He Hn. unfold negate.
  destruct (fromVector_defined EPSILON (Vec.negate this) true)
    as (q & Hq & _); [rewrite norm_negate; lra |]. eauto.
Qed.

Lemma isBounded_defined (EPSILON : R) (this r l : Point) :
  0 < EPSILON <= 1 -> Vec.norm this = 1 ->
  exists b, isBounded EPSILON this r l = Ok b.
Proof.
  intros He Hn. unfold isBounded.
  destruct (equals EPSILON this r || equals EPSILON this l); [eauto |].
  destruct (negate_defined EPSILON this He Hn) as (q & ->). cbn [bind].
  destruct (equals EPSILON q r || equals EPSILON q l); eauto.
Qed.

Section Locating.

Variable EPSILON : R.
Variable mesh : Mesh.
Variable point : Point.
Hypothesis EPSILON_range : 0 < EPSILON <= 1.
Hypothesis point_unit : Vec.norm point = 1.

Lemma containsPoint_loop_defined (this : Polygon) (k : nat) :
  resolved mesh this ->
  forall (i : Z) (onEdge : bool),
    (i + Z.of_nat k = len (vertices this))%Z -> (0 <= i)%Z ->
    (onEdge = true -> (1 <= i)%Z) ->
    exists c, containsPoint_loop EPSILON mesh this point k i onEdge = Ok c.
Proof.
  intros [Hne Hnb].
  assert (Hlen : (0 < len (vertices this))%Z).
  { unfold len. destruct (vertices this); [congruence | cbn; lia]. }
  induction k as [| k IH]; intros i onEdge Hi H0 Hedge;
    cbn [containsPoint_loop].
  - destruct onEdge; [| eauto].
    destruct (Hnb 0%Z) as (q & ->); [lia |].
    destruct (ring_Some (vertices this) (len (vertices this) - 1) Hne)
      as (a & ->); [lia |].
    destruct (ring_Some (vertices this) 0 Hne) as (b & ->); [lia |].
    cbn. eauto.
  - destruct (ring_Some (vertices this) i Hne H0) as (vertex & ->).
    destruct (ring_Some (vertices this) (i + 1) Hne) as (nextVertex & ->);
      [lia |].
    cbn [defined bind].
    destruct (equals EPSILON point vertex); [eauto |].
    destruct onEdge.
    + specialize (Hedge eq_refl).
      destruct (Hnb i) as (q & ->); [lia |].
      destruct (ring_Some (vertices this) (i - 1) Hne) as (prev & ->); [lia |].
      cbn. eauto.
    + assert (Hb : exists b,
                 (if Orientation_eqb
                       (getOrientation EPSILON vertex nextVertex point)
                       COLLINEAR
                  then isBounded EPSILON point vertex nextVertex
                  else Ok false) = Ok b).
      { destruct (Orientation_eqb _ _); [| eauto].
        now apply isBounded_defined. }
      destruct Hb as (b & ->). cbn [bind].
      destruct b; [apply IH; try lia |].
      destruct (Orientation_eqb _ CLOCKWISE); [eauto |].
      apply IH; try lia; discriminate.
Qed.

Lemma getPointLocation_loop_defined (polygons : list Polygon) :
  Forall (resolved mesh) polygons ->
  Forall (fun P => forall v, In v (vertices P) ->
                             exists ps, Vertex_polygons mesh v = Ok ps)
    polygons ->
  exists pl, getPointLocation_loop EPSILON mesh polygons point = Ok pl.
Proof.
  induction polygons as [| P rest IH]; intros Hr Hv;
    cbn [getPointLocation_loop]; [eauto |].
  inversion Hr as [| ? ? HP Hrest]; subst.
  inversion Hv as [| ? ? HvP Hvrest]; subst.
  destruct (containsPoint_loop_defined P (length (vertices P)) HP 0 false)
    as (c & Hc); try lia; try discriminate.
  { unfold len. lia. }
  unfold containsPoint. rewrite Hc. cbn [bind].
  pose proof (containsPoint_loop_shaped EPSILON mesh P point _ _ _ _ Hc)
    as [Hshape _]. unfold shaped in Hshape.
  destruct (pc_type c).
  - now apply IH.
  - eauto.
  - destruct (Polygon_id (adjPoly c) =? -1)%Z; eauto.
  - destruct Hshape as [_ (v & Ev & Hin & _)]. rewrite Ev.
    cbn [index Z.ltb Z.compare Z.to_nat nth_error defined bind].
    destruct (HvP v Hin) as (ps & ->). cbn. eauto.
Qed.

End Locating.

(** X21: on a mesh that [Mesh.read] returned, [containsPoint] and
    [getPointLocation] never throw for a point of the unit sphere. *)
Theorem read_locates (EPSILON : R) (file : MeshFile) (mesh : Mesh)
  (point : Point) :
  0 < EPSILON <= 1 -> read file = Ok mesh -> Vec.norm point = 1 ->
  (forall P, In P (Mesh_polygons mesh) ->
             exists c, containsPoint EPSILON mesh P point = Ok c)
  /\ exists pl, getPointLocation EPSILON mesh point = Ok pl.
Proof.
  intros He Hread Hn.
  assert (Hres : Forall (resolved mesh) (Mesh_polygons mesh)).
  { apply Forall_forall. intros P HP.
    apply In_nth_error in HP. destruct HP as (k & Hk).
    destruct (read_polygon file mesh Hread k P Hk)
      as (_ & H3 & _ & Hn' & _ & Hrange & _).
    split.
    - intros E. rewrite E in H3. cbn in H3. lia.
    - intros i Hi. unfold neighbour.
      destruct (index_Some_range (nIndices P) i) as (j & Hj).
      { unfold len in *. lia. }
      rewrite Hj. apply polygonAt_Some.
      rewrite Forall_forall in Hrange. apply Hrange.
      eapply index_In, Hj. }
  assert (Hvs : Forall (fun P => forall v, In v (vertices P) ->
                                  exists ps, Vertex_polygons mesh v = Ok ps)
                  (Mesh_polygons mesh)).
  { apply Forall_forall. intros P HP v Hv.
    apply In_nth_error in HP. destruct HP as (k & Hk).
    destruct (read_polygon file mesh Hread k P Hk)
      as (_ & _ & _ & _ & Hres2 & _).
    assert (Hin : In v (Mesh_vertices mesh)).
    { apply In_nth_error in Hv. destruct Hv as (m & Hm).
      destruct (Forall2_nth_right _ _ _ Hres2 m v Hm) as (j & _ & Hj).
      eapply index_In, Hj. }
    apply In_nth_error in Hin. destruct Hin as (m & Hm).
    destruct (read_vertex file mesh Hread m v Hm) as (_ & _ & Hrange & _).
    unfold Vertex_polygons.
    destruct (mapM_total (fun j => defined (polygonAt mesh j)) (pIndices v))
      as (ps & Hps & _); [| eauto].
    eapply Forall_impl; [| exact Hrange]. cbn beta. intros j Hj.
    destruct (polygonAt_Some mesh j Hj) as (q & ->). cbn. eauto. }
  split.
  - intros P HP. rewrite Forall_forall in Hres. unfold containsPoint.
    apply containsPoint_loop_defined; auto; try lia; try discriminate;
      unfold len; lia.
  - unfold getPointLocation. now apply getPointLocation_loop_defined.
Qed.

Lemma read_locates_witness :
  0 < / 1000 <= 1 /\ read turnFile = Ok turnMesh /\ Vec.norm pN = 1
  /\ exists pl, getPointLocation (/ 1000) turnMesh pN = Ok pl.
Proof.
  assert (Hn : Vec.norm pN = 1) by apply latLonVector_norm.
  split; [lra |]. split; [exact read_turnFile |]. split; [exact Hn |].
  apply (read_locates (/ 1000) turnFile turnMesh pN); try assumption.
  - lra.
  - exact read_turnFile.
Defined.

(** ** The walk from [W] to the south pole, as an instance *)

Lemma getIntersection_total_witness :
  0 < / 1000
  /\ / 1000 <= Vec.norm (Vec.cross (Vec.cross pW pC) (Vec.cross pA pB))
  /\ exists int negInt,
      getIntersection (/ 1000) pW pC pA pB = Ok (Some (int, negInt))
      /\ vec int = Vec.cross (Vec.cross pW pC) (Vec.cross pA pB)
      /\ vec negInt = Vec.negate int
      /\ Vec.dot int (Vec.cross pW pC) = 0
      /\ Vec.dot int (Vec.cross pA pB) = 0
      /\ lat negInt = - lat int.
Proof.
  assert (Hpos : 0 < / 1000) by lra.
  assert (Hn : / 1000
               <= Vec.norm (Vec.cross (Vec.cross pW pC) (Vec.cross pA pB))).
  { replace (Vec.cross (Vec.cross pW pC) (Vec.cross pA pB))
      with (mkVector 0 (1 / 2) 0) by (coords; f_equal; nra).
    rewrite (norm_is _ (1 / 2)); cbn [vx vy vz]; lra. }
  split; [exact Hpos |]. split; [exact Hn |].
  apply (proj2 (getIntersection_total (/ 1000) pW pC pA pB Hpos) Hn).
Defined.

Lemma genSuccessors_successors_witness :
  genSuccessors (/ 1000) turnMesh (nodeThroughAC (/ 1000))
  = Ok [successorThroughAB (/ 1000)]
  /\ In (successorThroughAB (/ 1000)) [successorThroughAB (/ 1000)]
  /\ node_parent (successorThroughAB (/ 1000)) = Some (nodeThroughAC (/ 1000))
  /\ node_g (nodeThroughAC (/ 1000)) <= node_g (successorThroughAB (/ 1000))
  /\ Polygon_id (nextPolygon (successorThroughAB (/ 1000))) <> (-1)%Z.
Proof.
  assert (H : genSuccessors (/ 1000) turnMesh (nodeThroughAC (/ 1000))
              = Ok [successorThroughAB (/ 1000)])
    by (apply genSuccessors_nodeThroughAC; lra).
  assert (Hin : In (successorThroughAB (/ 1000)) [successorThroughAB (/ 1000)])
    by (left; reflexivity).
  split; [exact H |]. split; [exact Hin |].
  destruct (genSuccessors_successors (/ 1000) turnMesh (nodeThroughAC (/ 1000))
              [successorThroughAB (/ 1000)] (successorThroughAB (/ 1000)) H Hin)
    as (H1 & _ & _ & _ & H5 & _ & H7 & _).
  split; [exact H1 |]. split; [exact H5 | exact H7].
Defined.

Lemma search_endpoints_witness :
  search (/ 1000) turnMesh pW pS 2 = Some (Ok ([pW; pA; pS], 180))
  /\ 0 <= 180
  /\ ([pW; pA; pS] <> [] ->
      (exists prefix, [pW; pA; pS] = prefix ++ [pS])
      /\ exists first,
          hd_error [pW; pA; pS] = Some first
          /\ (first = pW \/ equals (/ 1000) pW first = true)).
Proof.
  assert (H : search (/ 1000) turnMesh pW pS 2 = Some (Ok ([pW; pA; pS], 180)))
    by (apply search_W_S; lra).
  split; [exact H |].
  destruct (search_endpoints (/ 1000) turnMesh pW pS 2 [pW; pA; pS] 180 H)
    as (H1 & _ & H3).
  split; [exact H1 | exact H3].
Defined.

Lemma search_same_polygon_first_witness :
  0 < / 1000
  /\ getPointLocation (/ 1000) turnMesh pN
     = Ok (mkPointLocation ON_UNAMBIG_CORNER_VERTEX [polyNWAC] [vN])
  /\ getPointLocation (/ 1000) turnMesh pW
     = Ok (mkPointLocation ON_UNAMBIG_CORNER_VERTEX [polyNWAC] [vW])
  /\ search (/ 1000) turnMesh pW pN 0
     = Some (Ok ([pW; pN], distance (/ 1000) pW pN)).
Proof.
  assert (Hpos : 0 < / 1000) by lra.
  assert (HN : getPointLocation (/ 1000) turnMesh pN
               = Ok (mkPointLocation ON_UNAMBIG_CORNER_VERTEX [polyNWAC] [vN]))
    by (apply getPointLocation_turnMesh_N; lra).
  assert (HW : getPointLocation (/ 1000) turnMesh pW
               = Ok (mkPointLocation ON_UNAMBIG_CORNER_VERTEX [polyNWAC] [vW]))
    by (apply getPointLocation_turnMesh_W; lra).
  split; [exact Hpos |]. split; [exact HN |]. split; [exact HW |].
  apply (search_same_polygon_first (/ 1000) turnMesh pW pN
           (mkPointLocation ON_UNAMBIG_CORNER_VERTEX [polyNWAC] [vN])
           (mkPointLocation ON_UNAMBIG_CORNER_VERTEX [polyNWAC] [vW])
           polyNWAC [] Hpos); try assumption; try reflexivity.
  repeat constructor; cbn; lia.
Defined.

(** * The vertices of a polygon and the heuristic, with the lemmas above *)

(** ** C10: the vertices of a polygon are found on it *)

Section VertexRoundTrip.

Variable EPSILON : R.
Variable mesh : Mesh.
Variable P : Polygon.
Variable k : nat.
Variable v : Vertex.
Hypothesis EPSILON_range : 0 < EPSILON <= 1.
Hypothesis wf : wellFormedPolygon EPSILON P.
Hypothesis at_k : nth_error (vertices P) k = Some v.

Lemma vertex_inside : (k < length (vertices P))%nat.
Proof. apply nth_error_Some. rewrite at_k. discriminate. Qed.

(** What the loop finds at an edge that the vertex is not an end of: the
    vertex is to its left, or on its great circle and not on the edge. *)
Lemma edge_passed (i : nat) (vi vi' : Vertex) :
  nth_error (vertices P) i = Some vi ->
  nth_error (vertices P) ((i + 1) mod length (vertices P)) = Some vi' ->
  k <> i -> k <> ((i + 1) mod length (vertices P))%nat ->
  getOrientation EPSILON vi vi' v = ANTICLOCKWISE
  \/ (getOrientation EPSILON vi vi' v = COLLINEAR
      /\ isBounded EPSILON v vi vi' = Ok false).
Proof.
  intros Hi Hi' Hk Hk'.
  destruct wf as (Hlen & Hunit & Hdiff & Hside).
  assert (Hin : (i < length (vertices P))%nat).
  { apply nth_error_Some. rewrite Hi. discriminate. }
  assert (Hnext : i <> ((i + 1) mod length (vertices P))%nat).
  { destruct (Nat.eq_dec (i + 1) (length (vertices P))) as [E | E].
    - rewrite E, Nat.Div0.mod_same. lia.
    - rewrite Nat.mod_small by lia. lia. }
  assert (E1 : equals EPSILON vi vi' = false) by (apply (Hdiff _ _ _ _ Hi Hi'); lia).
  assert (E2 : equals EPSILON vi v = false) by (apply (Hdiff _ _ _ _ Hi at_k); lia).
  assert (E3 : equals EPSILON vi' v = false) by (apply (Hdiff _ _ _ _ Hi' at_k); lia).
  assert (E4 : equals EPSILON v vi = false) by (apply (Hdiff _ _ _ _ at_k Hi); lia).
  assert (E5 : equals EPSILON v vi' = false) by (apply (Hdiff _ _ _ _ at_k Hi'); lia).
  destruct (Rlt_dec EPSILON (Vec.dot (Vec.cross vi vi') v)) as [Hleft | Hnot].
  { left. now apply getOrientation_anticlockwise. }
  right.
  destruct (Hside i k vi vi' v Hi Hi' at_k Hk Hk') as [H | [Hlow Hbeyond]];
    [contradiction |].
  split.
  - apply getOrientation_collinear. lra.
  - unfold isBounded. rewrite E4, E5. cbn [orb].
    destruct (negate_defined EPSILON v EPSILON_range (Hunit k v at_k))
      as (q & ->).
    cbn [bind].
    destruct (equals EPSILON q vi || equals EPSILON q vi'); [reflexivity |].
    f_equal. unfold num_ge. apply andb_false_iff.
    destruct Hbeyond as [H | H]; [left | right]; now apply num_le_false.
Qed.

(** From position [i], with [d] edges to go before the vertex. *)
Lemma containsPoint_loop_reaches (d : nat) :
  forall (i : nat) (onEdge : bool),
    (i + d = k)%nat ->
    (onEdge = true -> d = 0%nat) ->
    containsPoint_loop EPSILON mesh P v (length (vertices P) - i)
      (Z.of_nat i) onEdge
    = Ok (mkPolyContainment ON_VERTEX Obstacle [v]).
Proof.
  pose proof vertex_inside as Hk.
  assert (EPSILON_pos : 0 < EPSILON) by lra.
  induction d as [| d IH]; intros i onEdge Hi Hedge.
  - assert (i = k) by lia. subst i.
    destruct (length (vertices P) - k)%nat as [| m] eqn:Hm; [lia |].
    destruct (nth_error (vertices P) ((k + 1) mod length (vertices P)))
      as [w |] eqn:Hw.
    2:{ apply nth_error_None in Hw.
        pose proof (Nat.mod_upper_bound (k + 1) (length (vertices P))). lia. }
    apply containsPoint_loop_vertex with (nextVertex := w).
    + now rewrite ring_inside.
    + replace (Z.of_nat k + 1)%Z with (Z.of_nat (k + 1)) by lia.
      rewrite ring_of_nat; [exact Hw |].
      intros E. rewrite E in Hk. simpl in Hk. lia.
    + now apply equals_refl.
  - destruct onEdge; [specialize (Hedge eq_refl); discriminate |].
    assert (Hin : (i < length (vertices P))%nat) by lia.
    assert (Hin' : (i + 1 < length (vertices P))%nat) by lia.
    destruct (nth_error (vertices P) i) as [vi |] eqn:Hvi.
    2:{ apply nth_error_None in Hvi. lia. }
    destruct (nth_error (vertices P) (i + 1)) as [vi' |] eqn:Hvi'.
    2:{ apply nth_error_None in Hvi'. lia. }
    assert (Hmod : ((i + 1) mod length (vertices P) = i + 1)%nat)
      by now apply Nat.mod_small.
    assert (Hneq : k <> i) by lia.
    assert (Hvi'mod :
              nth_error (vertices P) ((i + 1) mod length (vertices P))
              = Some vi') by now rewrite Hmod.
    assert (Hdiff : equals EPSILON v vi = false).
    { destruct wf as (_ & _ & Hd & _). now apply (Hd k i v vi). }
    replace (length (vertices P) - i)%nat
      with (S (length (vertices P) - (i + 1)))%nat by lia.
    assert (R1 : ring (vertices P) (Z.of_nat i) = Some vi)
      by now rewrite ring_inside.
    assert (R2 : ring (vertices P) (Z.of_nat i + 1) = Some vi').
    { replace (Z.of_nat i + 1)%Z with (Z.of_nat (i + 1)) by lia.
      now rewrite ring_inside. }
    replace (Z.of_nat i + 1)%Z with (Z.of_nat (i + 1)) in * by lia.
    destruct d as [| d'].
    + (* the edge that ends at the vertex *)
      assert (i + 1 = k)%nat by lia. subst k.
      assert (vi' = v) by congruence. subst vi'.
      rewrite (containsPoint_loop_bounded EPSILON mesh P v _ _ vi v);
        auto.
      * replace (Z.of_nat i + 1)%Z with (Z.of_nat (i + 1)) by lia.
        apply IH; [lia | reflexivity].
      * replace (Z.of_nat i + 1)%Z with (Z.of_nat (i + 1)) by lia. exact R2.
      * now apply getOrientation_same_23.
      * unfold isBounded. rewrite Hdiff.
        now rewrite (equals_refl EPSILON v EPSILON_pos).
    + (* an edge before it *)
      assert (Hnot : k <> ((i + 1) mod length (vertices P))%nat) by lia.
      destruct (edge_passed i vi vi' Hvi Hvi'mod Hneq Hnot) as [Ho | [Ho Hb]].
      * rewrite (containsPoint_loop_left EPSILON mesh P v _ _ vi vi');
          auto.
        -- replace (Z.of_nat i + 1)%Z with (Z.of_nat (i + 1)) by lia.
           apply IH; [lia | discriminate].
        -- replace (Z.of_nat i + 1)%Z with (Z.of_nat (i + 1)) by lia. exact R2.
      * rewrite (containsPoint_loop_aligned EPSILON mesh P v _ _ vi vi');
          auto.
        -- replace (Z.of_nat i + 1)%Z with (Z.of_nat (i + 1)) by lia.
           apply IH; [lia | discriminate].
        -- replace (Z.of_nat i + 1)%Z with (Z.of_nat (i + 1)) by lia. exact R2.
Qed.

Lemma containsPoint_ring_vertex :
  containsPoint EPSILON mesh P v
  = Ok (mkPolyContainment ON_VERTEX Obstacle [v]).
Proof.
  unfold containsPoint.
  replace (length (vertices P)) with (length (vertices P) - 0)%nat at 1 by lia.
  apply (containsPoint_loop_reaches k 0 false); [lia | discriminate].
Qed.

End VertexRoundTrip.

(** C10, as amended: in a mesh whose polygons are convex in anticlockwise
    order beyond the tolerance, [containsPoint] finds each vertex of the
    ring of a polygon on that vertex. *)
Theorem containsPoint_vertex (EPSILON : R) (mesh : Mesh) (P : Polygon)
  (k : nat) (v : Vertex) :
  0 < EPSILON <= 1 ->
  wellFormedMesh EPSILON mesh ->
  In P (Mesh_polygons mesh) ->
  nth_error (vertices P) k = Some v ->
  containsPoint EPSILON mesh P v
  = Ok (mkPolyContainment ON_VERTEX Obstacle [v]).
Proof.
  intros Hrange Hwf Hin Hk.
  apply (containsPoint_ring_vertex EPSILON mesh P k v Hrange); [| exact Hk].
  unfold wellFormedMesh in Hwf. rewrite Forall_forall in Hwf. now apply Hwf.
Qed.

Lemma wellFormedMesh_faceMesh (EPSILON : R) :
  0 < EPSILON -> EPSILON < 1 / 2 -> wellFormedMesh EPSILON faceMesh.
Proof.
  intros Hpos Hsmall. unfold wellFormedMesh.
  cbn [Mesh_polygons faceMesh]. constructor; [| constructor].
  split; [cbn; lia |].
  cbn [vertices faceCAB length]. split; [| split].
  - intros i vi Hi.
    destruct i as [| [| [| i]]]; cbn in Hi; try (destruct i; discriminate);
      injection Hi as <-; apply latLonVector_norm.
  - intros i j vi vj Hi Hj Hne.
    destruct i as [| [| [| i]]]; cbn in Hi; try (destruct i; discriminate);
      injection Hi as <-;
      (destruct j as [| [| [| j]]]; cbn in Hj;
       try (destruct j; discriminate); try congruence;
       injection Hj as <-);
      cbn [vpoint fC fA fB];
      auto using equals_C_A, equals_C_B, equals_A_C, equals_A_B, equals_B_C,
        equals_B_A.
  - intros i j vi vi' vj Hi Hi' Hj Hne Hne'.
    destruct i as [| [| [| i]]]; cbn in Hi, Hi', Hne';
      try (destruct i; discriminate);
      injection Hi as <-; injection Hi' as <-;
      (destruct j as [| [| [| j]]]; cbn in Hj;
       try (destruct j; discriminate); try congruence;
       injection Hj as <-);
      left; cbn [vpoint fC fA fB]; coordinates; nra.
Qed.

Lemma containsPoint_vertex_witness :
  0 < / 1000 <= 1
  /\ wellFormedMesh (/ 1000) faceMesh
  /\ containsPoint (/ 1000) faceMesh faceCAB fB
     = Ok (mkPolyContainment ON_VERTEX Obstacle [fB]).
Proof.
  assert (Hrange : 0 < / 1000 <= 1) by lra.
  assert (H : wellFormedMesh (/ 1000) faceMesh)
    by (apply wellFormedMesh_faceMesh; lra).
  split; [exact Hrange |]. split; [exact H |].
  apply (containsPoint_vertex (/ 1000) faceMesh faceCAB 2 fB Hrange H).
  - cbn. auto.
  - reflexivity.
Defined.

(** *** The triangle of one degree *)

Lemma read_thinFile : read thinFile = Ok thinMesh.
Proof.
  unfold read.
  change (mapM (readVertex thinFile) (indices 0 (Z.to_nat (file_V thinFile))))
    with (mapM (readVertex thinFile) [0;1;2]%Z).
  cbn [mapM].
  repeat (erewrite readVertex_ok; [ | reflexivity | reflexivity | reflexivity | simpl; lra | simpl; lra ]; cbn [bind]).
  reflexivity.
Qed.

(** The sine and the cosine of one degree. *)
Lemma one_degree :
  0 < sin (PI / 180) /\ sin (PI / 180) * sin (PI / 180) < / 2000
  /\ 0 < cos (PI / 180) <= 1.
Proof.
  pose proof PI_RGT_0 as Hpi. pose proof PI_4 as Hpi4.
  assert (Hs : 0 < sin (PI / 180)) by (apply sin_gt_0; lra).
  assert (Hx : sin (PI / 180) < PI / 180) by (apply sin_lt_x; lra).
  assert (Hc : 0 < cos (PI / 180)) by (apply cos_gt_0; lra).
  pose proof (COS_bound (PI / 180)) as [_ Hc1].
  repeat split; try assumption. nra.
Qed.

Lemma vec_tA : vec tA = mkVector 1 0 0.
Proof. exact latLonVector_0_0. Qed.

Lemma vec_tB : vec tB = mkVector (cos (PI / 180)) (sin (PI / 180)) 0.
Proof.
  cbn [vec vpoint tB pointAt]. unfold latLonVector.
  replace (0 * TO_RAD) with 0 by ring.
  replace (1 * TO_RAD) with (PI / 180) by (unfold TO_RAD; field).
  rewrite cos_0, sin_0. f_equal; ring.
Qed.

Lemma vec_tC : vec tC = mkVector (cos (PI / 180)) 0 (sin (PI / 180)).
Proof.
  cbn [vec vpoint tC pointAt]. unfold latLonVector.
  replace (0 * TO_RAD) with 0 by ring.
  replace (1 * TO_RAD) with (PI / 180) by (unfold TO_RAD; field).
  rewrite cos_0, sin_0. f_equal; ring.
Qed.

Section ThinTriangle.

Variable EPSILON : R.
Hypothesis EPSILON_low : / 2000 <= EPSILON.
Hypothesis EPSILON_high : EPSILON <= 1.

Lemma equals_tC_tA : equals EPSILON tC tA = false.
Proof.
  apply equals_false_lat. cbn [lat vpoint tC tA pointAt].
  replace (1 - 0) with 1 by ring. rewrite Rabs_R1. exact EPSILON_high.
Qed.

Lemma equals_tC_tB : equals EPSILON tC tB = false.
Proof.
  apply equals_false_lat. cbn [lat vpoint tC tB pointAt].
  replace (1 - 0) with 1 by ring. rewrite Rabs_R1. exact EPSILON_high.
Qed.

(** The third vertex is within the tolerance of the great circle of the
    first edge. *)
Lemma orientation_tA_tB_tC : getOrientation EPSILON tA tB tC = COLLINEAR.
Proof.
  apply getOrientation_collinear.
  rewrite vec_tA, vec_tB, vec_tC. unfold Vec.dot, Vec.cross. cbn [vx vy vz].
  destruct one_degree as (Hs & Hss & Hc & Hc1). split; nra.
Qed.

Lemma isBounded_tC_tA_tB : isBounded EPSILON tC tA tB = Ok true.
Proof.
  destruct one_degree as (Hs & Hss & Hc & Hc1).
  unfold isBounded. rewrite equals_tC_tA, equals_tC_tB. cbn [orb].
  rewrite (negate_coordinates EPSILON 1 0 tC) by (try reflexivity; lra).
  cbn [bind].
  assert (E1 : equals EPSILON
                 (pointAt (- (1)) (if Rle_dec 0 0 then 0 + 180 else 0 - 180))
                 tA = false).
  { apply equals_false_lat. cbn [lat vpoint tA pointAt].
    replace (- (1) - 0) with (- (1)) by ring.
    rewrite Rabs_Ropp, Rabs_R1. exact EPSILON_high. }
  assert (E2 : equals EPSILON
                 (pointAt (- (1)) (if Rle_dec 0 0 then 0 + 180 else 0 - 180))
                 tB = false).
  { apply equals_false_lat. cbn [lat vpoint tB pointAt].
    replace (- (1) - 0) with (- (1)) by ring.
    rewrite Rabs_Ropp, Rabs_R1. exact EPSILON_high. }
  rewrite E1, E2. cbn [orb]. f_equal. unfold num_ge.
  rewrite vec_tA, vec_tB, vec_tC. unfold Vec.dot, Vec.cross. cbn [vx vy vz].
  rewrite !num_le_true; [reflexivity | |]; nra.
Qed.

(** [containsPoint] answers that the third vertex lies on the first
    edge. *)
Lemma containsPoint_thinABC_tC :
  containsPoint EPSILON thinMesh thinABC tC
  = Ok (mkPolyContainment ON_EDGE Obstacle [tA; tB]).
Proof.
  unfold containsPoint. change (length (vertices thinABC)) with 3%nat.
  rewrite (containsPoint_loop_bounded EPSILON thinMesh thinABC tC 2 0 tA tB);
    try reflexivity.
  - cbn [containsPoint_loop]. change (ring (vertices thinABC) (0 + 1)) with (Some tB).
    change (ring (vertices thinABC) (0 + 1 + 1)) with (Some tC).
    cbn [defined bind]. rewrite equals_tC_tB. reflexivity.
  - exact equals_tC_tA.
  - exact orientation_tA_tB_tC.
  - exact isBounded_tC_tA_tB.
Qed.

End ThinTriangle.

(** C10 fails as it is stated: with the tolerance 1/1000, in the mesh
    that [Mesh.read] builds from one triangle of one degree, listed
    anticlockwise, [containsPoint] finds the third vertex of the triangle
    on its first edge. *)
Lemma containsPoint_vertex_on_edge :
  read thinFile = Ok thinMesh
  /\ In thinABC (Mesh_polygons thinMesh)
  /\ nth_error (vertices thinABC) 2 = Some tC
  /\ 0 < Vec.dot (Vec.cross tA tB) tC
  /\ 0 < Vec.dot (Vec.cross tB tC) tA
  /\ 0 < Vec.dot (Vec.cross tC tA) tB
  /\ containsPoint (/ 1000) thinMesh thinABC tC
     = Ok (mkPolyContainment ON_EDGE Obstacle [tA; tB]).
Proof.
  destruct one_degree as (Hs & Hss & Hc & Hc1).
  split; [exact read_thinFile |]. split; [cbn; auto |].
  split; [reflexivity |].
  rewrite vec_tA, vec_tB, vec_tC. unfold Vec.dot, Vec.cross. cbn [vx vy vz].
  split; [nra |]. split; [nra |]. split; [nra |].
  apply containsPoint_thinABC_tC; lra.
Qed.

(** The turn mesh is well formed too; its polygon [(N, W, A, C)] has a
    straight angle at [C]. *)
Lemma wellFormedMesh_turnMesh (EPSILON : R) :
  0 < EPSILON -> EPSILON < 1 / 2 -> wellFormedMesh EPSILON turnMesh.
Proof.
  intros Hpos Hsmall. unfold wellFormedMesh.
  cbn [Mesh_polygons turnMesh].
  constructor; [| constructor; [| constructor; [| constructor]]].
  all: split; [cbn; lia |];
    cbn [vertices polyCAB polyNWAC polyBAS length]; split; [| split].
  all: try (intros i vi Hi;
            repeat (destruct i as [| i]; cbn in Hi;
                    [injection Hi as <-; apply latLonVector_norm |]);
            destruct i; discriminate).
  all: try (intros i j vi vj Hi Hj Hne;
            repeat (destruct i as [| i]; cbn in Hi;
                    [injection Hi as <-;
                     repeat (destruct j as [| j]; cbn in Hj;
                             [injection Hj as <-; try congruence;
                              cbn [vpoint vA vB vC vN vW vS]; apart |]);
                     destruct j; discriminate |]);
            destruct i; discriminate).
  all: intros i j vi vi' vj Hi Hi' Hj Hne Hne';
    repeat (destruct i as [| i]; cbn in Hi, Hi', Hne';
            [injection Hi as <-; injection Hi' as <-;
             repeat (destruct j as [| j]; cbn in Hj;
                     [injection Hj as <-; try congruence;
                      cbn [vpoint vA vB vC vN vW vS]; coords;
                      first [ left; nra | right; split; [nra |]; first [left; nra | right; nra] ] |]);
             destruct j; discriminate |]);
    destruct i; discriminate.
Qed.

(** ** C4: the heuristic and the reflection of the goal *)

Lemma latLonVector_minus45_0 :
  latLonVector (-45) 0 = mkVector half_sqrt 0 (- half_sqrt).
Proof.
  unfold latLonVector, TO_RAD. rewrite !Rmult_0_l, cos_0, sin_0.
  replace (-45 * (PI / 180)) with (- (PI / 4)) by lra.
  rewrite cos_neg, sin_neg, cos_PI4, sin_PI4. fold half_sqrt. f_equal; lra.
Qed.

(** The mirror image of [C] across the equator is the point (-45, 0). *)
Lemma mirrorImage_C_A_B : mirrorImage pC pA pB = vec (pointAt (-45) 0).
Proof.
  pose proof half_sqrt_pos as Hs. pose proof half_sqrt_sqr as Hss.
  cbn [vec pointAt]. rewrite latLonVector_minus45_0. unfold mirrorImage.
  assert (Hc : Vec.cross pA pB = mkVector 0 0 half_sqrt).
  { rewrite vec_pA, vec_pB. unfold Vec.cross. cbn [vx vy vz]. f_equal; ring. }
  assert (Hn : Vec.norm (mkVector 0 0 half_sqrt) = half_sqrt).
  { apply norm_is; cbn [vx vy vz]; lra. }
  rewrite Hc, Hn, vec_pC. unfold Vec.subtract, Vec.scale, Vec.dot.
  cbn [vx vy vz]. f_equal; field; lra.
Qed.

Section ReflectedGoal.

Variable EPSILON : R.
Hypothesis EPSILON_pos : 0 < EPSILON.
Hypothesis EPSILON_small : EPSILON < 1 / 2.

(** What [reflectPoint] makes of [C] across the interval from [A] to
    [B]: the point (0, 0). *)
Lemma reflectPoint_C_A_B :
  reflectPoint EPSILON pC pA pB = Ok (mkPoint 0 0 (mkVector 1 0 0)).
Proof.
  pose proof half_sqrt_pos as Hs. pose proof half_sqrt_sqr as Hss.
  pose proof half_sqrt_bounds as Hb.
  unfold reflectPoint.
  replace (Vec.subtract pC _) with (mkVector half_sqrt 0 0).
  2:{ rewrite vec_pA, vec_pB, vec_pC.
      unfold Vec.subtract, Vec.scale, Vec.cross, Vec.dot. cbn [vx vy vz].
      f_equal; nra. }
  rewrite (fromVector_ok EPSILON _ true half_sqrt 0 0).
  - cbn [bind]. do 2 f_equal. unfold Vec.scale. cbn [vx vy vz].
    f_equal; try lra. field. lra.
  - apply norm_x_axis. lra.
  - lra.
  - lra.
  - cbn [vz]. unfold Rdiv. rewrite Rmult_0_l, asin_0. lra.
  - cbn [vx vy]. rewrite Math_atan2_0_pos by exact Hs. lra.
  - lra.
  - lra.
Qed.

(** The heuristic of the claim, for the mirror image of the goal. *)
Lemma h_spec_N_A_B_mirrored :
  h_spec EPSILON pN pA pB pC (pointAt (-45) 0) = 135.
Proof.
  unfold h_spec. rewrite equals_N_A, equals_N_B by assumption. cbn [orb].
  assert (O1 : getOrientation EPSILON pN pA (pointAt (-45) 0) = COLLINEAR).
  { apply getOrientation_collinear. cbn [vec pointAt].
    rewrite latLonVector_minus45_0. coordinates. lra. }
  assert (O2 : getOrientation EPSILON pN pB (pointAt (-45) 0) = CLOCKWISE).
  { apply getOrientation_clockwise; try assumption.
    - now apply equals_N_B.
    - apply equals_false_lat. cbn [lat pN pointAt]. abs_const. lra.
    - apply equals_false_lat. cbn [lat pB pointAt]. abs_const. lra.
    - cbn [vec pointAt]. rewrite latLonVector_minus45_0. coordinates. nra. }
  rewrite O1, O2. unfold distance.
  replace (equals EPSILON pN (pointAt (-45) 0)) with false.
  2:{ symmetry. apply equals_false_lat. cbn [lat pN pointAt]. abs_const. lra. }
  rewrite cosDistance_meridian; cbn [lat lon pN pointAt]; try lra.
  abs_const. lra.
Qed.

(** The heuristic of the code, for the point that [reflectPoint]
    returns. *)
Lemma h_spec_N_A_B_code :
  h_spec EPSILON pN pA pB pC (mkPoint 0 0 (mkVector 1 0 0)) = 90.
Proof.
  unfold h_spec. rewrite equals_N_A, equals_N_B by assumption. cbn [orb].
  assert (O1 : getOrientation EPSILON pN pA (mkPoint 0 0 (mkVector 1 0 0))
               = COLLINEAR).
  { unfold getOrientation.
    replace (equals EPSILON pA (mkPoint 0 0 (mkVector 1 0 0))) with true
      by (symmetry; apply (equals_refl EPSILON pA EPSILON_pos)).
    now rewrite orb_true_r. }
  assert (O2 : getOrientation EPSILON pN pB (mkPoint 0 0 (mkVector 1 0 0))
               = CLOCKWISE).
  { apply getOrientation_clockwise; try assumption.
    - now apply equals_N_B.
    - apply equals_false_lat. cbn [lat pN pointAt]. abs_const. lra.
    - apply (equals_B_A EPSILON); assumption.
    - cbn [vec]. coordinates. nra. }
  rewrite O1, O2. unfold distance.
  replace (equals EPSILON pN (mkPoint 0 0 (mkVector 1 0 0))) with false.
  2:{ symmetry. apply equals_false_lat. cbn [lat pN pointAt]. abs_const. lra. }
  rewrite cosDistance_meridian; cbn [lat lon pN pointAt]; try lra.
  abs_const. lra.
Qed.

Lemma newSearchNode_N_A_B :
  newSearchNode EPSILON None pN pA pB (Some vA) (Some vB) polyBAS 0 pC
  = Ok (mkSearchNode None pN pA pB (Some vA) (Some vB) polyBAS 0 90 pC).
Proof.
  rewrite (newSearchNode_total EPSILON None pN pA pB (Some vA) (Some vB)
             polyBAS 0 pC (mkPoint 0 0 (mkVector 1 0 0))).
  - now rewrite h_spec_N_A_B_code.
  - rewrite orientation_N_A_B by assumption. discriminate.
  - discriminate.
  - unfold foldedGoal. rewrite orientation_C_A_B by assumption.
    exact reflectPoint_C_A_B.
Qed.

End ReflectedGoal.

(** C4 fails on the code.  For the root at the north pole, the interval
    from [A = (0, 0)] to [B = (0, 45)] and the goal [C = (45, 0)], the goal
    lies on the side of the root, and its reflection across the great
    circle through [A] and [B], the equator, is the point (-45, 0), for
    which the claim gives the heuristic 135.  The constructor takes the
    point that [reflectPoint] returns, which is [A], and stores 90. *)
Theorem newSearchNode_h_not_mirrored (EPSILON : R) :
  0 < EPSILON < 1 / 2 ->
  equals EPSILON pN pA = false
  /\ equals EPSILON pN pB = false
  /\ getOrientation EPSILON pC pA pB = ANTICLOCKWISE
  /\ mirrorImage pC pA pB = vec (pointAt (-45) 0)
  /\ h_spec EPSILON pN pA pB pC (pointAt (-45) 0) = 135
  /\ newSearchNode EPSILON None pN pA pB (Some vA) (Some vB) polyBAS 0 pC
     = Ok (mkSearchNode None pN pA pB (Some vA) (Some vB) polyBAS 0 90 pC).
Proof.
  intros [Hpos Hsmall].
  split; [now apply equals_N_A |]. split; [now apply equals_N_B |].
  split; [now apply orientation_C_A_B |].
  split; [exact mirrorImage_C_A_B |].
  split; [now apply h_spec_N_A_B_mirrored |].
  now apply newSearchNode_N_A_B.
Qed.

(** The theorem at the tolerance 1/1000. *)
Lemma newSearchNode_h_not_mirrored_witness :
  0 < / 1000 < 1 / 2
  /\ h_spec (/ 1000) pN pA pB pC (pointAt (-45) 0) = 135
  /\ newSearchNode (/ 1000) None pN pA pB (Some vA) (Some vB) polyBAS 0 pC
     = Ok (mkSearchNode None pN pA pB (Some vA) (Some vB) polyBAS 0 90 pC).
Proof.
  assert (H : 0 < / 1000 < 1 / 2) by lra.
  split; [exact H |].
  exact (proj2 (proj2 (proj2 (proj2 (newSearchNode_h_not_mirrored (/ 1000) H))))).
Defined.
